(** * The retrieval-and-answer loop of [chat_with_pdf.py]

    A shallow embedding of the orchestration code of the PDF chat agent:
    the Retrieval Tool ([vector_search_tool]), the direct strategy
    ([generate_answer]), the ReAct strategy ([generate_answer_react]) and
    Session Memory ([store_chat_message], [retrieve_session_history],
    [clear_history]), together with [complete_get_information_function]
    of [notebooks/solutions.py].

    Everything outside the scripts (the Embedding Provider, the Vector
    Store, the History Store's availability, the LLM Provider, the file
    system, numpy) is an oracle of a [World]; the scripts' module-level
    variables are a [Globals] record; what the scripts mutate (the history
    collection, the default [images] list of [generate_answer]) and a log
    of the remote calls are the [State] threaded through a small
    state-and-exception monad. *)

From Stdlib Require Import List Bool Arith NArith ZArith QArith Lia String Ascii.
From Stdlib Require Import Sorting.Sorted.
From Stdlib Require Import DecimalString DecimalNat.
From Stdlib Require Floats.SpecFloat.
From Equations Require Import Equations.
Import ListNotations.

Set Implicit Arguments.
Unset Strict Implicit.
Set Asymmetric Patterns.

Local Open Scope list_scope.
Local Open Scope bool_scope.
Local Open Scope nat_scope.

(** ** Python strings *)

(** A [str] is a sequence of Unicode code points. *)
Definition pystr := list N.

(** A literal of the source, written as an ASCII string. *)
Definition py (s : string) : pystr :=
  map N_of_ascii (list_ascii_of_string s).

Module PyStr.

(** [a == b] on strings. *)
Fixpoint eqb (a b : pystr) : bool :=
  match a, b with
  | [], [] => true
  | x :: a', y :: b' => N.eqb x y && eqb a' b'
  | _, _ => false
  end.

(** [s.startswith(p)]. *)
Fixpoint startswith (p s : pystr) : bool :=
  match p, s with
  | [], _ => true
  | _ :: _, [] => false
  | x :: p', y :: s' => N.eqb x y && startswith p' s'
  end.

(** [sub in s]: [sub] occurs in [s] as a contiguous substring. *)
Fixpoint contains (sub s : pystr) : bool :=
  startswith sub s ||
  match s with
  | [] => false
  | _ :: s' => contains sub s'
  end.

(** [s.split(sep, 1)] for a non-empty [sep]: the text before and after
    the leftmost occurrence of [sep], or [s] alone when there is none. *)
Fixpoint split_1 (sep s : pystr) : list pystr :=
  if startswith sep s then [[]; skipn (List.length sep) s]
  else match s with
       | [] => [[]]
       | c :: s' =>
           match split_1 sep s' with
           | before :: rest => (c :: before) :: rest
           | [] => [[c]]
           end
       end.

(** The characters [str.strip()] removes: the code points for which
    [str.isspace] holds. *)
Definition isspace (c : N) : bool :=
  ((9 <=? c) && (c <=? 13) || (28 <=? c) && (c <=? 32) ||
   (c =? 133) || (c =? 160) || (c =? 5760) ||
   (8192 <=? c) && (c <=? 8202) ||
   (c =? 8232) || (c =? 8233) || (c =? 8239) || (c =? 8287) ||
   (c =? 12288))%N.

Fixpoint lstrip (s : pystr) : pystr :=
  match s with
  | c :: s' => if isspace c then lstrip s' else s
  | [] => []
  end.

Definition rstrip (s : pystr) : pystr := rev (lstrip (rev s)).

(** [s.strip()]. *)
Definition strip (s : pystr) : pystr := rstrip (lstrip s).

(** A truthy string is a non-empty one. *)
Definition truthy (s : pystr) : bool :=
  match s with [] => false | _ :: _ => true end.

End PyStr.

(** ** Data model *)

(** What a [contents] list handed to the LLM Provider holds: text, an
    image opened from a path, or [None] (a stored answer whose text the
    provider left empty). *)
Inductive Content : Type :=
| CText (s : pystr)
| CImage (path : pystr)
| CNone.

(** A document of the history collection. *)
Record ChatMessage : Type := {
  session_id : pystr;
  role : pystr;
  type : pystr;
  content : option pystr;
  timestamp : nat
}.

(** A projected result of the vector search. [page_number] is absent
    when the [$project] stage leaves it out. *)
Record ContextItem : Type := {
  key : pystr;
  width : Z;
  height : Z;
  page_number : option Z;
  score : Q
}.

(** The function call the LLM Provider selects: [tool_call.name] and
    [tool_call.args]. *)
Record ToolInvocation : Type := {
  name : pystr;
  args : list (pystr * pystr)
}.

(** What [generate_content] does when asked to select a tool: it raises,
    or its first part carries a function call or none. *)
Inductive SelectResult : Type :=
| SelRaises
| SelResponse (function_call : option ToolInvocation).

(** What [generate_content] does when asked for text: it raises, or
    [response.text] is a string or [None]. *)
Inductive LLMResult : Type :=
| LLMRaises
| LLMResponse (text : option pystr).

(** The remote calls a run makes, in order. *)
Inductive Event : Type :=
| EvToolCall (user_query : pystr)
| EvEmbedding (text_query : pystr)
| EvAggregate (results : option (list ContextItem))
| EvSelectTool (contents : list Content) (result : SelectResult)
| EvGenerate (contents : list Content) (result : LLMResult).

Inductive Exn : Type :=
| ConnectionError
| MissingSchema
| KeyError
| TypeError
| IndexError
| ProviderError
| StoreError
| OSError.

Inductive Outcome (A : Type) : Type :=
| Ok (a : A)
| Raise (e : Exn).
Arguments Raise {A} e.

(** The module-level variables [main] sets before the chat loop. *)
Record Globals : Type := {
  SERVERLESS_URL : option pystr;
  USE_MEMORY : bool;
  SESSION_ID : pystr
}.

(** What the scripts mutate: the history collection, the list object
    that is the default value of [generate_answer]'s [images] parameter
    (one object, shared by every call that omits the argument), a clock
    that advances with every remote call, and the log of those calls. *)
Record State : Type := {
  clock : nat;
  trace : list Event;
  history_collection : list ChatMessage;
  default_images : list pystr
}.

Definition VS_INDEX_NAME : pystr := py "vector_index_voyageai".

Section Agent.

(** The numbers of an embedding (numpy's [float64]) and the three numpy
    operations the scripts use on them are kept abstract here;
    [Binary64] below gives them as IEEE 754 binary64. *)
Variable num : Type.

(** A document of the vector collection. *)
Record StoredDoc : Type := {
  doc_key : pystr;
  doc_width : Z;
  doc_height : Z;
  doc_page_number : Z;
  doc_embedding : list num
}.

(** [requests.post] on the embedding endpoint: it raises, or answers with
    a status code and a JSON body that has an ["embedding"] field or not. *)
Inductive HttpOutcome : Type :=
| HttpRaises
| HttpResponse (status_code : Z) (embedding : option (list num)).

(** The [$vectorSearch] and [$project] stages of the pipeline. *)
Record Pipeline : Type := {
  index : pystr;
  path : pystr;
  queryVector : list num;
  numCandidates : nat;
  limit : nat;
  project_page_number : bool
}.

(** Everything the scripts call but do not define. Oracles of remote
    services take the clock, so that a service may answer differently
    each time it is called. [path_exists p] says that [Path(p).exists()]
    returns [True], [path_exists_raises p] that it raises (the file
    cannot be examined). [datetime_now t] is what [datetime.now()] reads
    at the call made at time [t]: a wall clock, which may read the same
    twice or go back. *)
Record World : Type := {
  (* numpy *)
  np_linalg_norm : list num -> num;
  gt_0 : num -> bool;
  np_divide : num -> num -> num;
  (* Embedding Provider *)
  embedding_provider : nat -> pystr -> HttpOutcome;
  (* Vector Store *)
  collection : list StoredDoc;
  vector_store_up : nat -> bool;
  similarity : list num -> list num -> Q;
  (* LLM Provider *)
  gemini_select : nat -> list Content -> SelectResult;
  gemini_generate : nat -> list Content -> LLMResult;
  (* file system *)
  path_exists : pystr -> bool;
  path_exists_raises : pystr -> bool;
  image_readable : pystr -> bool;
  (* History Store *)
  history_up : nat -> bool;
  (* wall clock *)
  datetime_now : nat -> nat
}.

Variable g : Globals.
Variable w : World.

(** ** The state-and-exception monad *)

Definition M (A : Type) : Type := State -> Outcome A * State.

Definition ret {A} (a : A) : M A := fun s => (Ok a, s).

Definition bind {A B} (m : M A) (f : A -> M B) : M B :=
  fun s =>
    match m s with
    | (Ok a, s') => f a s'
    | (Raise e, s') => (Raise e, s')
    end.

Definition raise {A} (e : Exn) : M A := fun s => (Raise e, s).

(** [try: m except Exception as e: h e]. What [m] did to the state before
    it raised stays done. *)
Definition try_except {A} (m : M A) (h : Exn -> M A) : M A :=
  fun s =>
    match m s with
    | (Ok a, s') => (Ok a, s')
    | (Raise e, s') => h e s'
    end.

Declare Scope monad_scope.
Delimit Scope monad_scope with monad.
Notation "x <- m ;; k" := (bind m (fun x => k))
  (at level 61, m at next level, right associativity) : monad_scope.
Notation "m ;; k" := (bind m (fun _ => k))
  (at level 61, right associativity) : monad_scope.
Local Open Scope monad_scope.

(** The time of a remote call; the clock advances. *)
Definition tick : M nat :=
  fun s => (Ok (clock s),
            {| clock := S (clock s); trace := trace s;
               history_collection := history_collection s;
               default_images := default_images s |}).

Definition log (e : Event) : M unit :=
  fun s => (Ok tt,
            {| clock := clock s; trace := trace s ++ [e];
               history_collection := history_collection s;
               default_images := default_images s |}).

Definition get_history : M (list ChatMessage) :=
  fun s => (Ok (history_collection s), s).

Definition put_history (h : list ChatMessage) : M unit :=
  fun s => (Ok tt,
            {| clock := clock s; trace := trace s;
               history_collection := h;
               default_images := default_images s |}).

Definition get_default_images : M (list pystr) :=
  fun s => (Ok (default_images s), s).

Definition put_default_images (l : list pystr) : M unit :=
  fun s => (Ok tt,
            {| clock := clock s; trace := trace s;
               history_collection := history_collection s;
               default_images := l |}).

(** ** The Vector Store *)

(** Modelled from the spec: a stored document as a search result, with
    its similarity score against the query vector and the fields the
    [$project] stage keeps. *)
Definition score_doc (q : list num) (d : StoredDoc) (pn : bool) : ContextItem :=
  {| key := doc_key d; width := doc_width d; height := doc_height d;
     page_number := if pn then Some (doc_page_number d) else None;
     score := similarity w q (doc_embedding d) |}.

(** Modelled from the spec: the ranking of the Vector Store, best score
    first, as an insertion sort that keeps the stored order of ties. *)
Fixpoint insert_desc (x : ContextItem) (l : list ContextItem) : list ContextItem :=
  match l with
  | [] => [x]
  | y :: l' =>
      if Qle_bool (score y) (score x) then x :: y :: l'
      else y :: insert_desc x l'
  end.

Definition sort_desc (l : list ContextItem) : list ContextItem :=
  fold_right insert_desc [] l.

(** Modelled from the spec: the Vector Store is an external collaborator
    (a MongoDB collection with a vector index); what [$vectorSearch]
    computes is not code of the repository. Following the spec, it is a
    similarity search over the stored vectors with a candidate pool size
    and a result limit, returning the top matches with their similarity
    scores, best first, projected to key, width, height, page number and
    score. The search is taken as exact: the candidate pool holds the
    [numCandidates] best documents. *)
Definition vector_search (p : Pipeline) (docs : list StoredDoc) : list ContextItem :=
  firstn (limit p)
    (firstn (numCandidates p)
       (sort_desc
          (map (fun d => score_doc (queryVector p) d (project_page_number p)) docs))).

(** [list(collection.aggregate(pipeline))]: raises when the store cannot
    be reached. *)
Definition aggregate (p : Pipeline) : M (list ContextItem) :=
  t <- tick ;;
  if vector_store_up w t then
    let results := vector_search p (collection w) in
    log (EvAggregate (Some results)) ;; ret results
  else
    log (EvAggregate None) ;; raise StoreError.

(** ** The Embedding Provider *)

(** [requests.post(url=..., json={"task": "get_embedding", ...})]. A
    missing or empty URL makes [requests] raise before anything is sent. *)
Definition requests_post (url : option pystr) (text_query : pystr)
  : M (Z * option (list num)) :=
  match url with
  | Some (_ :: _) =>
      t <- tick ;;
      log (EvEmbedding text_query) ;;
      match embedding_provider w t text_query with
      | HttpRaises => raise ConnectionError
      | HttpResponse status body => ret (status, body)
      end
  | _ => raise MissingSchema
  end.

(** [response.json()["embedding"]]. *)
Definition json_embedding (response : Z * option (list num)) : M (list num) :=
  match snd response with
  | Some e => ret e
  | None => raise KeyError
  end.

Definition url_truthy (url : option pystr) : bool :=
  match url with
  | Some u => PyStr.truthy u
  | None => false
  end.

(** [normalize_vector] of [test_agent_debug.py]: [v / norm if norm > 0
    else v]. *)
Definition normalize_vector (v : list num) : list num :=
  let norm := np_linalg_norm w v in
  if gt_0 w norm then map (fun x => np_divide w x norm) v else v.

Definition generate_query_embedding (text_query : pystr) : M (option (list num)) :=
  try_except
    (if url_truthy (SERVERLESS_URL g) then
       response <- requests_post (SERVERLESS_URL g) text_query ;;
       if (fst response =? 200)%Z then
         embedding <- json_embedding response ;;
         let norm := np_linalg_norm w embedding in
         let embedding :=
           if gt_0 w norm then map (fun x => np_divide w x norm) embedding
           else embedding in
         ret (Some embedding)
       else ret None
     else ret None)
    (fun _ => ret None).

(** ** The Retrieval Tool *)

Definition pipeline (query_embedding : list num) (pn : bool) : Pipeline :=
  {| index := VS_INDEX_NAME;
     path := py "embedding";
     queryVector := query_embedding;
     numCandidates := 150;
     limit := 2;
     project_page_number := pn |}.

Definition vector_search_tool (user_query : pystr) : M (list pystr) :=
  log (EvToolCall user_query) ;;
  try_except
    (query_embedding <- generate_query_embedding user_query ;;
     match query_embedding with
     | Some ((_ :: _) as e) =>
         results <- aggregate (pipeline e true) ;;
         let keys := map key results in
         ret keys
     | _ => ret [] (* [not query_embedding]: [None] or an empty list *)
     end)
    (fun _ => ret []).

(** [complete_get_information_function] of [notebooks/solutions.py]. *)
Definition complete_get_information_function (user_query : pystr) : M (list pystr) :=
  log (EvToolCall user_query) ;;
  try_except
    (response <- requests_post (SERVERLESS_URL g) user_query ;;
     if negb (fst response =? 200)%Z then ret []
     else
       query_embedding <- json_embedding response ;;
       results <- aggregate (pipeline query_embedding false) ;;
       let keys := map key results in
       ret keys)
    (fun _ => ret []).

(** ** The file system *)

(** [Image.open(path)]: raises unless the file is there and is an image. *)
Definition Image_open (p : pystr) : M Content :=
  if path_exists w p && image_readable w p then ret (CImage p)
  else raise OSError.

(** ** Session Memory *)

Definition store_chat_message (sid role message_type : pystr)
    (text : option pystr) : M unit :=
  if negb (USE_MEMORY g) then ret tt
  else
    try_except
      (t <- tick ;;
       let message :=
         {| session_id := sid; role := role; type := message_type;
            content := text; timestamp := datetime_now w t |} in
       if history_up w t then
         h <- get_history ;;
         put_history (h ++ [message])
       else raise StoreError)
      (fun _ => ret tt).

Fixpoint insert_by_timestamp (m : ChatMessage) (l : list ChatMessage)
  : list ChatMessage :=
  match l with
  | [] => [m]
  | m' :: l' =>
      if timestamp m <=? timestamp m' then m :: m' :: l'
      else m' :: insert_by_timestamp m l'
  end.

(** [history_collection.find({"session_id": sid}).sort("timestamp", 1)]. *)
Definition find_session (sid : pystr) (h : list ChatMessage) : list ChatMessage :=
  fold_right insert_by_timestamp []
    (filter (fun m => PyStr.eqb (session_id m) sid) h).

(** The body of the [for msg in cursor] loop: what one message adds to
    [messages]. *)
Definition history_entry (msg : ChatMessage) : list Content :=
  if PyStr.eqb (type msg) (py "text") then
    match content msg with
    | Some s => [CText s]
    | None => [CNone]
    end
  else if PyStr.eqb (type msg) (py "image") then
    match content msg with
    | Some p => if path_exists w p && image_readable w p then [CImage p] else []
    | None => []
    end
  else [].

Definition retrieve_session_history (sid : pystr) : M (list Content) :=
  if negb (USE_MEMORY g) then ret []
  else
    try_except
      (t <- tick ;;
       if history_up w t then
         h <- get_history ;;
         let cursor := find_session sid h in
         let messages := flat_map history_entry cursor in
         ret messages
       else raise StoreError)
      (fun _ => ret []).

(** What [clear_history] prints: the warning, the number of deleted
    messages, or the error. *)
Inductive ClearReport : Type :=
| MemoryNotEnabled
| Cleared (deleted_count : nat)
| ClearFailed.

Definition clear_history : M ClearReport :=
  if negb (USE_MEMORY g) then ret MemoryNotEnabled
  else
    try_except
      (t <- tick ;;
       if history_up w t then
         h <- get_history ;;
         let matches := fun m => PyStr.eqb (session_id m) (SESSION_ID g) in
         let deleted_count := List.length (filter matches h) in
         put_history (filter (fun m => negb (matches m)) h) ;;
         ret (Cleared deleted_count)
       else raise StoreError)
      (fun _ => ret ClearFailed).

(** ** The direct strategy *)

Definition select_tool_prompt : pystr :=
  py "You're an AI assistant. Based on the given information, decide which tool to use. "
  ++ py "If the user is asking to explain an image, don't call any tools unless that would help you better explain the image. "
  ++ py "Here is the provided information:" ++ [10%N].

Definition select_tool (messages : list Content) : M (option ToolInvocation) :=
  try_except
    (let system_prompt := [CText select_tool_prompt] in
     let contents := system_prompt ++ messages in
     t <- tick ;;
     let response := gemini_select w t contents in
     log (EvSelectTool contents response) ;;
     match response with
     | SelRaises => raise ProviderError
     | SelResponse function_call => ret function_call
     end)
    (fun _ => ret None).

(** [gemini_client.models.generate_content] with temperature 0. *)
Definition generate_content (contents : list Content) : M (option pystr) :=
  t <- tick ;;
  let response := gemini_generate w t contents in
  log (EvGenerate contents response) ;;
  match response with
  | LLMRaises => raise ProviderError
  | LLMResponse text => ret text
  end.

(** The [images] argument of [generate_answer]: omitted, so that the
    parameter is bound to the default list object, or a list of the
    caller's. *)
Inductive ImagesArg : Type :=
| DefaultImages
| CallerImages (l : list pystr).

Definition read_images (images : ImagesArg) : M (list pystr) :=
  match images with
  | DefaultImages => get_default_images
  | CallerImages l => ret l
  end.

(** [images.extend(tool_images)]: the list object is changed in place;
    the result is its new value. *)
Definition extend_images (images : ImagesArg) (current tool_images : list pystr)
  : M (list pystr) :=
  match images with
  | DefaultImages =>
      put_default_images (current ++ tool_images) ;; ret (current ++ tool_images)
  | CallerImages _ => ret (current ++ tool_images)
  end.

(** [vector_search_tool] called with [tool_call.args] unpacked as keyword
    arguments: the mapping has to bind [user_query] and nothing else. *)
Definition call_vector_search_tool (kwargs : list (pystr * pystr)) : M (list pystr) :=
  match kwargs with
  | [(k, v)] =>
      if PyStr.eqb k (py "user_query") then vector_search_tool v
      else raise TypeError
  | _ => raise TypeError
  end.

(** The loop that opens the images that exist and can be opened. *)
Definition valid_image (img_path : pystr) : list Content :=
  if path_exists w img_path then
    if image_readable w img_path then [CImage img_path] else []
  else [].

Definition answer_system_prompt : pystr :=
  py "Answer the questions based on the provided context only. "
  ++ py "If the context is not sufficient, say I DON'T KNOW. "
  ++ py "DO NOT use any other information to answer the question.".

Definition apology : pystr :=
  py "I apologize, but I encountered an error while processing your question.".


Fixpoint store_images (l : list pystr) : M unit :=
  match l with
  | [] => ret tt
  | img_path :: l' =>
      store_chat_message (SESSION_ID g) (py "user") (py "image") (Some img_path) ;;
      store_images l'
  end.

(** The block under [if tool_call is not None and tool_call.name == ...]:
    the value of [images] after it. *)
Definition use_tool (images : ImagesArg) (current : list pystr)
    (tool_call : option ToolInvocation) : M (list pystr) :=
  match tool_call with
  | Some tc =>
      if PyStr.eqb (name tc) (py "get_information_for_question_answering")
      then
        tool_images <- call_vector_search_tool (args tc) ;;
        extend_images images current tool_images
      else ret current
  | None => ret current
  end.

(** The block under [if USE_MEMORY:] at the end of [generate_answer]. *)
Definition remember_turn (user_query : pystr) (current : list pystr)
    (answer : option pystr) : M unit :=
  if USE_MEMORY g then
    store_chat_message (SESSION_ID g) (py "user") (py "text") (Some user_query) ;;
    store_images current ;;
    store_chat_message (SESSION_ID g) (py "agent") (py "text") answer
  else ret tt.

(** [history + [user_query] if history else [user_query]]. *)
Definition messages_for_tool (history : list Content) (user_query : pystr)
  : list Content :=
  match history with
  | _ :: _ => history ++ [CText user_query]
  | [] => [CText user_query]
  end.

(** The [contents] of the generation call of [generate_answer]. *)
Definition answer_contents (history : list Content) (user_query : pystr)
    (current : list pystr) : list Content :=
  let valid_images := flat_map valid_image current in
  [CText answer_system_prompt]
  ++ (match history with _ :: _ => history | [] => [] end)
  ++ ([CText user_query] ++ valid_images).

Definition generate_answer (user_query : pystr) (images : ImagesArg)
  : M (option pystr) :=
  try_except
    (history <- (if USE_MEMORY g then retrieve_session_history (SESSION_ID g)
                 else ret []) ;;
     tool_call <- select_tool (messages_for_tool history user_query) ;;
     current <- read_images images ;;
     current <- use_tool images current tool_call ;;
     answer <- generate_content (answer_contents history user_query current) ;;
     remember_turn user_query current answer ;;
     ret answer)
    (fun _ => ret (Some apology)).

(** ** The ReAct strategy *)

Definition ANSWER : pystr := py "ANSWER:".
Definition TOOL : pystr := py "TOOL:".

Definition react_prompt (user_query : pystr) : pystr :=
  py "You are an AI assistant with access to document search capabilities. "
  ++ py "Based on the current information, decide if you have enough to answer the user query, or if you need more information. "
  ++ py "If you have enough information, respond with 'ANSWER: <your answer>'. "
  ++ py "If you need more information, respond with 'TOOL: <question for the tool>'. Keep the question concise. "
  ++ py "User query: " ++ user_query ++ [10%N]
  ++ py "Current information:" ++ [10%N].

Definition no_information : pystr :=
  py "No relevant information found for this query.".

Definition unable_to_determine : pystr :=
  py "Unable to determine next action.".

Definition no_definitive_answer : pystr :=
  py "I couldn't find a definitive answer after exploring the available information. Please try rephrasing your question.".

Definition react_error : pystr :=
  py "I encountered an error while processing your question with the ReAct approach.".

Definition max_iterations : nat := 3.

(** [l[1]]. *)
Definition item_1 (l : list pystr) : M pystr :=
  match nth_error l 1 with
  | Some x => ret x
  | None => raise IndexError
  end.

(** [Path(p).exists()] where no handler is around it but the outer
    one of [generate_answer_react]. *)
Definition Path_exists (p : pystr) : M bool :=
  if path_exists_raises w p then raise OSError else ret (path_exists w p).

(** [[Image.open(img) for img in images if Path(img).exists()]]: the
    first path that cannot be examined, or image that cannot be opened,
    raises. *)
Fixpoint open_existing (images : list pystr) : M (list Content) :=
  match images with
  | [] => ret []
  | img :: rest =>
      e <- Path_exists img ;;
      if e then
        i <- Image_open img ;;
        l <- open_existing rest ;;
        ret (i :: l)
      else open_existing rest
  end.

(** The body of [for img_path in tool_images]: what it appends to
    [new_images]. The test on the path is outside the [try]; an image
    that does not open is passed over. *)
Definition new_image (img_path : pystr) : M (list Content) :=
  e <- Path_exists img_path ;;
  if e then
    try_except (i <- Image_open img_path ;; ret [i]) (fun _ => ret [])
  else ret [].

(** [for img_path in tool_images]. *)
Fixpoint open_new_images (tool_images : list pystr) : M (list Content) :=
  match tool_images with
  | [] => ret []
  | img_path :: rest =>
      opened <- new_image img_path ;;
      others <- open_new_images rest ;;
      ret (opened ++ others)
  end.

(** How one pass through the body of the [while] loop ends: at the
    [return], or at the end of the body with the information gathered. *)
Inductive Step : Type :=
| Return (final_answer : pystr)
| Continue (current_information : list Content).

(** The [if]/[elif]/[else] on the model's [decision]. *)
Definition react_decide (current_information : list Content) (decision : pystr)
  : M Step :=
  if PyStr.contains ANSWER decision then
    after <- item_1 (PyStr.split_1 ANSWER decision) ;;
    let final_answer := PyStr.strip after in
    ret (Return final_answer)
  else if PyStr.contains TOOL decision then
    after <- item_1 (PyStr.split_1 TOOL decision) ;;
    let tool_query := PyStr.strip after in
    tool_images <- vector_search_tool tool_query ;;
    match tool_images with
    | _ :: _ =>
        new_images <- open_new_images tool_images ;;
        ret (Continue (current_information ++ new_images))
    | [] =>
        ret (Continue (current_information ++ [CText no_information]))
    end
  else
    ret (Continue (current_information ++ [CText unable_to_determine])).

(** The body of the [while] loop. *)
Definition react_iteration (system_prompt current_information : list Content)
  : M Step :=
  response <- generate_content (system_prompt ++ current_information) ;;
  decision <- match response with
              | Some d => ret d
              | None => raise TypeError (* [decision[:100]] on [None] *)
              end ;;
  react_decide current_information decision.

(** [while current_iteration < max_iterations: current_iteration += 1; ...],
    followed by the [return] after the loop. *)
Equations? react_loop (system_prompt : list Content) (current_iteration : nat)
    (current_information : list Content) (s : State)
  : Outcome pystr * State
  by wf (max_iterations - current_iteration) lt :=
  react_loop system_prompt current_iteration current_information s
    with lt_dec current_iteration max_iterations := {
    | left _ with react_iteration system_prompt current_information s := {
        | (Ok (Return final_answer), s') => (Ok final_answer, s')
        | (Ok (Continue information), s') =>
            react_loop system_prompt (S current_iteration) information s'
        | (Raise e, s') => (Raise e, s') };
    | right _ => (Ok no_definitive_answer, s) }.
Proof.
  unfold max_iterations in l.
  do 3 (destruct current_iteration as [|current_iteration]; [lia|]).
  lia.
Qed.

Definition generate_answer_react (user_query : pystr) (images : list pystr)
  : M pystr :=
  try_except
    (let system_prompt := [CText (react_prompt user_query)] in
     current_information <-
       match images with
       | _ :: _ => open_existing images
       | [] => ret []
       end ;;
     react_loop system_prompt 0 current_information)
    (fun _ => ret react_error).

End Agent.

Arguments HttpRaises {num}.

(** * The command-line interface *)

(** What [input()] does: it returns a line, or raises
    [KeyboardInterrupt] or [EOFError]. *)
Inductive Input : Type :=
| Line (text : pystr)
| KeyboardInterrupt
| EOFError.

(** What a pass through the chat loop prints: the goodbye, the help
    text, the report of [clear_history], the status with the history
    count it shows when Session Memory is enabled, the agent's response,
    or the chat error. *)
Inductive Output : Type :=
| Goodbye
| Help
| ClearOutput (report : ClearReport)
| Status (history_count : option nat)
| Answer (response : option pystr)
| ChatError.

Section ChatLoop.

Variable num : Type.
Variable g : Globals.
Variable w : World num.

(** The module-level [USE_REACT]. *)
Variable USE_REACT : bool.

(** [str.lower]. *)
Variable lower : pystr -> pystr.

Definition show_status : M (option nat) :=
  if USE_MEMORY g then
    bind (retrieve_session_history g w (SESSION_ID g))
      (fun history => ret (Some (List.length history)))
  else ret None.

(** One pass through the body of [while True]: what it prints, and
    whether the loop goes on. [KeyboardInterrupt] is no [Exception], so
    the second handler does not take it. The interrupt is taken where
    the loop waits, at [input()]; a pass in which it arrives while a
    command or an answer is running is not among the passes described
    here. *)
Definition chat_iteration (i : Input) : M (option Output * bool) :=
  match i with
  | KeyboardInterrupt => ret (Some Goodbye, false)
  | EOFError => ret (Some ChatError, true)
  | Line text =>
      try_except
        (let user_input := PyStr.strip text in
         if negb (PyStr.truthy user_input) then ret (None, true)
         else if existsb (PyStr.eqb (lower user_input))
                   [py "quit"; py "exit"; py "q"]
         then ret (Some Goodbye, false)
         else if PyStr.eqb (lower user_input) (py "help") then
           ret (Some Help, true)
         else if PyStr.eqb (lower user_input) (py "clear") then
           bind (clear_history g w)
             (fun report => ret (Some (ClearOutput report), true))
         else if PyStr.eqb (lower user_input) (py "status") then
           bind show_status (fun n => ret (Some (Status n), true))
         else
           bind (if USE_REACT
                 then bind (generate_answer_react g w user_input [])
                        (fun response => ret (Some response))
                 else generate_answer g w user_input DefaultImages)
             (fun response => ret (Some (Answer response), true)))
        (fun _ => ret (Some ChatError, true))
  end.

(** The [while True] loop over what the console gives, read by read:
    what it prints, and whether it has ended by the time the reads are
    used up. *)
Fixpoint chat_loop (inputs : list Input) : M (list Output * bool) :=
  match inputs with
  | [] => ret ([], false)
  | i :: rest =>
      bind (chat_iteration i)
        (fun r =>
           let printed := match fst r with Some o => [o] | None => [] end in
           if snd r then
             bind (chat_loop rest)
               (fun r' => ret (printed ++ fst r', snd r'))
           else ret (printed, true))
  end.

End ChatLoop.

(** ** Start-up *)

(** The request for the Gemini key: it raises, or answers with a status
    code and a body; [api_key] is [response.json().get("api_key")] where
    that is a string, and [None] where [json()] or [get] raises or the
    key is missing. *)
Inductive KeyResponse : Type :=
| KeyRaises
| KeyResponded (status_code : Z) (api_key : option pystr).

(** Importing [google.genai] and creating the client. *)
Inductive GenaiOutcome : Type :=
| GenaiImportError
| GenaiRaises
| GenaiClient.

(** What [initialize_connections] calls: the ping of the MongoDB server
    ([None]: connecting or the command raises; otherwise
    [result.get("ok")]), the document count ([None]: it raises), the key
    endpoint, the environment and the Gemini library. *)
Record Services : Type := {
  ping : option (option Q);
  count_documents : option nat;
  get_api_key : KeyResponse;
  GOOGLE_API_KEY : option pystr;
  genai : pystr -> GenaiOutcome
}.

(** How [initialize_connections] ends: with one of its error messages
    and [False], or with the client created and [True]. *)
Inductive InitReport : Type :=
| MongoFailed
| NoDocuments
| NoApiKey
| GenaiNotInstalled
| InitFailed
| Ready (doc_count : nat) (api_key : pystr).

Definition str_truthy (o : option pystr) : bool :=
  match o with
  | Some s => PyStr.truthy s
  | None => false
  end.

(** The key the client is created with: the endpoint's, or else the
    environment's. *)
Definition find_api_key (url : option pystr) (sv : Services) : option pystr :=
  let api_key :=
    if url_truthy url then
      match get_api_key sv with
      | KeyResponded status_code api_key =>
          if (status_code =? 200)%Z then api_key else None
      | KeyRaises => None
      end
    else None in
  if negb (str_truthy api_key) then GOOGLE_API_KEY sv else api_key.

Definition initialize_connections (url : option pystr) (sv : Services)
  : InitReport :=
  match ping sv with
  | None => InitFailed
  | Some ok =>
      if negb (match ok with Some v => Qeq_bool v 1 | None => false end)
      then MongoFailed
      else
        match count_documents sv with
        | None => InitFailed
        | Some doc_count =>
            if doc_count =? 0 then NoDocuments
            else
              let api_key := find_api_key url sv in
              if negb (str_truthy api_key) then NoApiKey
              else
                match api_key with
                | Some k =>
                    match genai sv k with
                    | GenaiClient => Ready doc_count k
                    | GenaiImportError => GenaiNotInstalled
                    | GenaiRaises => InitFailed
                    end
                | None => NoApiKey
                end
        end
  end.

(** What [main] prints: its doc string, the initialization failure, or
    the chat. *)
Inductive MainOutput : Type :=
| Usage
| InitializationFailed (report : InitReport)
| Chat (printed : list Output) (ended : bool).

(** [x in sys.argv]. *)
Definition in_argv (x : pystr) (argv : list pystr) : bool :=
  existsb (PyStr.eqb x) argv.

(** The module-level variables as [main] sets them. *)
Definition globals_of (url : option pystr) (argv : list pystr) (uuid4 : pystr)
  : Globals :=
  {| SERVERLESS_URL := url;
     USE_MEMORY := in_argv (py "--memory") argv;
     SESSION_ID := firstn 8 uuid4 |}.

(** [main], for the value [url] of the environment's [SERVERLESS_URL],
    the command line, and the string of the UUID drawn. *)
Definition main (num : Type) (w : World num) (sv : Services)
    (lower : pystr -> pystr) (url : option pystr) (argv : list pystr)
    (uuid4 : pystr) (inputs : list Input) : M MainOutput :=
  if in_argv (py "--help") argv || in_argv (py "-h") argv then ret Usage
  else
    let g := globals_of url argv uuid4 in
    let USE_REACT := in_argv (py "--react") argv in
    match initialize_connections url sv with
    | Ready _ _ =>
        bind (chat_loop g w USE_REACT lower inputs)
          (fun r => ret (Chat (fst r) (snd r)))
    | report => ret (InitializationFailed report)
    end.

(** * The extraction pipeline of [test_agent_debug.py] *)

Module Extraction.

Definition IMAGES_DIR : pystr := py "data/images".

Definition batch_size : nat := 10.

(** [str(n)] for an [int] that is not negative. *)
Definition str_of_nat (n : nat) : pystr :=
  py (NilEmpty.string_of_uint (Nat.to_uint n)).

(** [range(i, n, step)], for a positive [step]. *)
Fixpoint range_from (fuel i n step : nat) : list nat :=
  match fuel with
  | 0 => []
  | S fuel' => if i <? n then i :: range_from fuel' (i + step) n step else []
  end.

(** [range(0, n, step)]. *)
Definition range_step (n step : nat) : list nat := range_from n 0 n step.

Section Pipeline.

Variable num : Type.
Variable g : Globals.
Variable w : World num.

(** A page of the paper as the pipeline passes it on: extracted, and
    embedded once the ["embedding"] field is set. *)
Record PageDoc : Type := {
  key : pystr;
  width : Z;
  height : Z;
  page_number : nat;
  embedding : option (list num)
}.

(** [doc["embedding"] = embedding]. *)
Definition set_embedding (doc : PageDoc) (e : list num) : PageDoc :=
  {| key := key doc; width := width doc; height := height doc;
     page_number := page_number doc; embedding := Some e |}.

(** A page of the PDF: the size of what [get_pixmap] renders ([None]:
    it raises), and whether [pix.save] succeeds. *)
Record Page : Type := {
  pixmap : option (Z * Z);
  save_ok : bool
}.

(** [requests.get(PDF_URL)] and [pymupdf.Document] on its content: the
    request raises, or answers with a status code and a content that
    opens as a PDF with these pages or ([None]) does not open. *)
Inductive GetOutcome : Type :=
| GetRaises
| GetResponse (status_code : Z) (pdf : option (list Page)).

(** The [data] argument of [generate_embedding]: an image, given here by
    the path it was opened from, or anything else, as [str(data)]. *)
Inductive EmbedInput : Type :=
| ImageData (path : pystr)
| TextData (text : pystr).

(** What the script calls and does not define. The services take the
    time of the call. [voyage] is the VoyageAI client: it raises
    ([None]) or returns [response.embeddings]. [insert_many_stops] says
    after how many documents [insert_many] raises, if it does. *)
Record Remote : Type := {
  mkdir_ok : bool;
  requests_get : nat -> GetOutcome;
  VOYAGEAI_AVAILABLE : bool;
  VOYAGE_API_KEY : option pystr;
  voyage : nat -> EmbedInput -> pystr -> option (list (list num));
  serverless : nat -> EmbedInput -> pystr -> HttpOutcome num;
  random_embedding : list num;
  mongo_up : nat -> bool;
  insert_many_stops : nat -> option nat
}.

Variable r : Remote.

(** What the pipeline changes: the vector collection, its search
    indexes (by name), the image files written; and the clock of the
    remote calls. *)
Record Lab : Type := {
  now : nat;
  stored : list PageDoc;
  search_indexes : list pystr;
  written : list pystr
}.

Definition tick (l : Lab) : Lab :=
  {| now := S (now l); stored := stored l;
     search_indexes := search_indexes l; written := written l |}.

Definition image_key (n : nat) : pystr :=
  IMAGES_DIR ++ py "/" ++ str_of_nat (n + 1) ++ py ".png".

(** The loop [for n in range(pdf.page_count)] from page index [n] on:
    the documents of the remaining pages, or [None] where rendering or
    saving a page raised; and the files written up to there. *)
Fixpoint extract_pages (pages : list Page) (n : nat) (files : list pystr)
  : option (list PageDoc) * list pystr :=
  match pages with
  | [] => (Some [], files)
  | page :: rest =>
      match pixmap page with
      | None => (None, files)
      | Some (pix_width, pix_height) =>
          if save_ok page then
            let doc := {| key := image_key n; width := pix_width;
                          height := pix_height; page_number := n + 1;
                          embedding := None |} in
            match extract_pages rest (S n) (files ++ [image_key n]) with
            | (Some docs, files') => (Some (doc :: docs), files')
            | (None, files') => (None, files')
            end
          else (None, files)
      end
  end.

(** [download_and_extract_pdf]: the documents, or [None] where the
    [mkdir] before the [try] raises. *)
Definition download_and_extract_pdf (l : Lab) : option (list PageDoc) * Lab :=
  if negb (mkdir_ok r) then (None, l)
  else
    let l1 := tick l in
    match requests_get r (now l) with
    | GetRaises => (Some [], l1)
    | GetResponse status_code pdf =>
        if negb (status_code =? 200)%Z then (Some [], l1)
        else
          match pdf with
          | None => (Some [], l1)
          | Some pages =>
              let result := extract_pages pages 0 (written l1) in
              (Some (match fst result with Some docs => docs | None => [] end),
               {| now := now l1; stored := stored l1;
                  search_indexes := search_indexes l1;
                  written := snd result |})
          end
    end.

(** [generate_embedding]: the normalized embedding, or [None]. *)
Definition generate_embedding (data : EmbedInput) (input_type : pystr) (l : Lab)
  : option (list num) * Lab :=
  if VOYAGEAI_AVAILABLE r && str_truthy (VOYAGE_API_KEY r) then
    match voyage r (now l) data input_type with
    | Some (embedding :: _) => (Some (normalize_vector w embedding), tick l)
    | _ => (None, tick l) (* the client raises, or [embeddings[0]] does *)
    end
  else if url_truthy (SERVERLESS_URL g) then
    match serverless r (now l) data input_type with
    | HttpRaises => (None, tick l)
    | HttpResponse status_code body =>
        if negb (status_code =? 200)%Z then (None, tick l)
        else
          match body with
          | Some embedding => (Some (normalize_vector w embedding), tick l)
          | None => (None, tick l)
          end
    end
  else (Some (normalize_vector w (random_embedding r)), l).

(** The body of [for doc in batch]: what it appends to
    [embedded_docs]. *)
Definition embed_doc (doc : PageDoc) (l : Lab) : list PageDoc * Lab :=
  if path_exists w (key doc) && image_readable w (key doc) then
    match generate_embedding (ImageData (key doc)) (py "document") l with
    | (Some ((_ :: _) as e), l') => ([set_embedding doc e], l')
    | (_, l') => ([], l')
    end
  else ([], l).

(** [for doc in batch]. *)
Fixpoint embed_batch (batch : list PageDoc) (l : Lab) : list PageDoc * Lab :=
  match batch with
  | [] => ([], l)
  | doc :: rest =>
      let first := embed_doc doc l in
      let others := embed_batch rest (snd first) in
      (fst first ++ fst others, snd others)
  end.

Definition generate_embeddings_for_docs (docs : list PageDoc) (l : Lab)
  : list PageDoc * Lab :=
  fold_left
    (fun acc i =>
       let batch := firstn batch_size (skipn i docs) in
       let done := embed_batch batch (snd acc) in
       (fst acc ++ fst done, snd done))
    (range_step (List.length docs) batch_size)
    ([], l).

(** [ingest_data_to_mongodb]: the count it returns. *)
Definition ingest_data_to_mongodb (embedded_docs : list PageDoc) (l : Lab)
  : nat * Lab :=
  (* [collection.delete_many({})] *)
  if negb (mongo_up r (now l)) then (0, tick l)
  else
    let l1 := {| now := S (now l); stored := [];
                 search_indexes := search_indexes l; written := written l |} in
    match embedded_docs with
    | [] => (0, l1)
    | _ :: _ =>
        (* [collection.insert_many(embedded_docs)] *)
        if negb (mongo_up r (now l1)) then (0, tick l1)
        else
          match insert_many_stops r (now l1) with
          | Some k =>
              (0, {| now := S (now l1); stored := firstn k embedded_docs;
                     search_indexes := search_indexes l1;
                     written := written l1 |})
          | None =>
              let l2 := {| now := S (now l1); stored := embedded_docs;
                           search_indexes := search_indexes l1;
                           written := written l1 |} in
              (* [collection.count_documents({})] *)
              if mongo_up r (now l2) then (List.length (stored l2), tick l2)
              else (0, tick l2)
          end
    end.

(** [create_vector_index]: the boolean it returns. *)
Definition create_vector_index (l : Lab) : bool * Lab :=
  (* [collection.list_search_indexes()] *)
  if negb (mongo_up r (now l)) then (false, tick l)
  else
    let l1 := tick l in
    let index_exists :=
      existsb (fun idx_name => PyStr.eqb idx_name VS_INDEX_NAME)
        (search_indexes l1) in
    if index_exists then (true, l1)
    else
      (* [collection.create_search_index(model=model)] *)
      if negb (mongo_up r (now l1)) then (false, tick l1)
      else
        (true, {| now := S (now l1); stored := stored l1;
                  search_indexes := search_indexes l1 ++ [VS_INDEX_NAME];
                  written := written l1 |}).

(** The block under [# Step 0] of the script, for the two command line
    options: the state it leaves, or [None] where an exception is not
    caught. *)
Definition extraction_step (EXTRACT_DATA SKIP_EXISTING : bool) (l : Lab)
  : option Lab :=
  if negb EXTRACT_DATA then Some l
  else
    let checked :=
      if SKIP_EXISTING then
        (* [collection.count_documents({})], outside any [try] *)
        if mongo_up r (now l)
        then Some (0 <? List.length (stored l), tick l)
        else None
      else Some (false, l) in
    match checked with
    | None => None
    | Some (true, l1) => Some l1
    | Some (false, l1) =>
        match download_and_extract_pdf l1 with
        | (None, _) => None
        | (Some [], l2) => Some l2
        | (Some ((_ :: _) as docs), l2) =>
            match generate_embeddings_for_docs docs l2 with
            | ([], l3) => Some l3
            | ((_ :: _) as embedded_docs, l3) =>
                let ingested := ingest_data_to_mongodb embedded_docs l3 in
                if 0 <? fst ingested
                then Some (snd (create_vector_index (snd ingested)))
                else Some (snd ingested)
            end
        end
    end.

(** [out] holds documents of [docs], in their order, each with a
    non-empty embedding set and nothing else changed. *)
Inductive embedded_from : list PageDoc -> list PageDoc -> Prop :=
| embedded_nil : embedded_from [] []
| embedded_skip doc docs out :
    embedded_from docs out -> embedded_from (doc :: docs) out
| embedded_keep doc e docs out :
    e <> [] -> embedded_from docs out ->
    embedded_from (doc :: docs) (set_embedding doc e :: out).

End Pipeline.

End Extraction.

(** * Specification vocabulary *)

(** ** Strings *)

(** [before ++ sep ++ after] cuts [s] at the leftmost occurrence of [sep]. *)
Definition first_occurrence (sep s before after : pystr) : Prop :=
  s = before ++ sep ++ after /\
  forall before' after', s = before' ++ sep ++ after' ->
                         List.length before <= List.length before'.

(** [t] neither begins nor ends with whitespace. *)
Definition trimmed (t : pystr) : Prop :=
  (forall c r, t = c :: r -> PyStr.isspace c = false) /\
  (forall c r, t = r ++ [c] -> PyStr.isspace c = false).

(** [t] is [s] without its leading and trailing whitespace. *)
Definition stripped (s t : pystr) : Prop :=
  exists l r, s = l ++ t ++ r /\
              forallb PyStr.isspace l = true /\ forallb PyStr.isspace r = true /\
              trimmed t.

(** ** Logs *)

(** The calls of the Retrieval Tool. *)
Definition is_retrieval (e : Event) : Prop :=
  match e with
  | EvToolCall _ | EvEmbedding _ | EvAggregate _ => True
  | _ => False
  end.

Definition is_generate (e : Event) : bool :=
  match e with
  | EvGenerate _ _ => true
  | _ => false
  end.


Definition is_select (e : Event) : bool :=
  match e with
  | EvSelectTool _ _ => true
  | _ => false
  end.

(** No event at all. *)
Definition silent (e : Event) : Prop := False.

(** The number of LLM generation calls in a log. *)
Definition count_generate (evs : list Event) : nat :=
  List.length (filter is_generate evs).

(** The number of tool-selection calls in a log. *)
Definition count_select (evs : list Event) : nat :=
  List.length (filter is_select evs).

(** The state after a remote call that logged [e]. *)
Definition called (s : State) (e : Event) : State :=
  {| clock := S (clock s); trace := trace s ++ [e];
     history_collection := history_collection s;
     default_images := default_images s |}.

(** The events a call added to the log, from the states before and
    after it. *)
Definition turn_events (before after : State) : list Event :=
  skipn (List.length (trace before)) (trace after).

(** The paths of the images in a [contents] list. *)
Definition image_paths (contents : list Content) : list pystr :=
  flat_map (fun c => match c with CImage p => [p] | _ => [] end) contents.

(** The image paths handed to the LLM Provider in generation calls. *)
Definition generated_images (evs : list Event) : list pystr :=
  flat_map
    (fun e =>
       match e with
       | EvGenerate contents _ => image_paths contents
       | _ => []
       end) evs.

(** The keys the Vector Store returned. *)
Definition retrieved_keys (evs : list Event) : list pystr :=
  flat_map
    (fun e =>
       match e with
       | EvAggregate (Some results) => map key results
       | _ => []
       end) evs.

(** The invariant of the data model, for the events of one turn: every
    image handed to the LLM Provider was returned by the Vector Store in
    this turn. *)
Definition context_from_this_turn (evs : list Event) : Prop :=
  incl (generated_images evs) (retrieved_keys evs).

(** ** Computations *)

(** [m] only adds events that satisfy [P] to the log. *)
Definition emits {A} (P : Event -> Prop) (m : M A) : Prop :=
  forall s, exists evs, trace (snd (m s)) = trace s ++ evs /\ Forall P evs.

(** [m] returns, whatever the state. *)
Definition returns {A} (m : M A) : Prop :=
  forall s, exists a, fst (m s) = Ok a.

(** The state [s] with the history collection replaced by [h]. *)
Definition with_history (s : State) (h : list ChatMessage) : State :=
  {| clock := clock s; trace := trace s;
     history_collection := h; default_images := default_images s |}.

(** [m] neither reads nor writes the history collection. *)
Definition ignores_history {A} (m : M A) : Prop :=
  forall s h, m (with_history s h) = (fst (m s), with_history (snd (m s)) h).

(** ** Retrieval and sessions *)

(** The order of a search result: best score first. *)
Definition score_ge (a b : ContextItem) : Prop := (score b <= score a)%Q.

(** What "retrieval succeeds" means for a call of the tool in state [s]:
    the endpoint is configured, the Embedding Provider answers 200 with
    the non-empty vector [e], and the Vector Store answers. *)
Definition retrieval_succeeds (num : Type) (g : Globals) (w : World num)
    (q : pystr) (s : State) (e : list num) : Prop :=
  url_truthy (SERVERLESS_URL g) = true
  /\ embedding_provider w (clock s) q = HttpResponse 200 (Some e)
  /\ e <> []
  /\ vector_store_up w (S (clock s)) = true.

(** The filter of [find] and [delete_many]: the message belongs to
    session [sid]. *)
Definition in_session (sid : pystr) (m : ChatMessage) : bool :=
  PyStr.eqb (session_id m) sid.

(** ** Relations between the states before and after a computation *)

(** Every state [m] can end in is related by [R] to the one it started
    from. *)
Definition steps {A} (R : State -> State -> Prop) (m : M A) : Prop :=
  forall s, R s (snd (m s)).

(** Neither the history collection nor the default [images] list
    changed. *)
Definition same_memory (s s' : State) : Prop :=
  history_collection s' = history_collection s
  /\ default_images s' = default_images s.

(** The history collection only gained messages, all of session [sid],
    at its end. *)
Definition history_appended (sid : pystr) (s s' : State) : Prop :=
  exists added,
    history_collection s' = history_collection s ++ added
    /\ Forall (fun m => session_id m = sid) added.

(** The log only grew, and the default [images] list gained exactly the
    keys the Vector Store returned in the new part of the log. *)
Definition accumulates (s s' : State) : Prop :=
  exists evs,
    trace s' = trace s ++ evs
    /\ default_images s' = default_images s ++ retrieved_keys evs.

(** Neither the log nor the default [images] list changed. *)
Definition same_log_and_default (s s' : State) : Prop :=
  trace s' = trace s /\ default_images s' = default_images s.

(** The calls of the Retrieval Tool to its two services. *)
Definition is_store_call (e : Event) : Prop :=
  match e with
  | EvEmbedding _ | EvAggregate _ => True
  | _ => False
  end.

(** Whether the [if] on [tool_call] of [generate_answer] is taken. *)
Definition uses_tool (tool_call : option ToolInvocation) : bool :=
  match tool_call with
  | Some tc => PyStr.eqb (name tc) (py "get_information_for_question_answering")
  | None => false
  end.



(** ** The logs of the ReAct loop *)

(** [react_log w sp it info evs out]: [evs] is a log the [while] loop
    can write when it is entered at iteration count [it] with the
    information [info], and [out] is how the loop ends. Each iteration
    begins with a generation call on the system prompt and the
    information so far; the loop stops at the iteration bound, at an
    unusable response, or at an answer; it goes on after a search, whose
    calls follow the generation call that asked for it, or after an
    unclear decision; it stops after a search that returned a path
    which cannot be examined. *)
Inductive react_log (num : Type) (w : World num) (sp : list Content)
  : nat -> list Content -> list Event -> Outcome pystr -> Prop :=
| react_exhausted it info :
    max_iterations <= it ->
    react_log w sp it info [] (Ok no_definitive_answer)
| react_raised it info r e :
    it < max_iterations ->
    r = LLMRaises \/ r = LLMResponse None ->
    react_log w sp it info [EvGenerate (sp ++ info) r] (Raise e)
| react_answered it info d before after :
    it < max_iterations ->
    first_occurrence ANSWER d before after ->
    react_log w sp it info
      [EvGenerate (sp ++ info) (LLMResponse (Some d))]
      (Ok (PyStr.strip after))
| react_searched it info d before after calls evs out :
    it < max_iterations ->
    PyStr.contains ANSWER d = false ->
    first_occurrence TOOL d before after ->
    Forall is_store_call calls ->
    Forall (fun p => path_exists_raises w p = false) (retrieved_keys calls) ->
    react_log w sp (S it)
      (info ++ match retrieved_keys calls with
               | [] => [CText no_information]
               | keys => flat_map (valid_image w) keys
               end) evs out ->
    react_log w sp it info
      (EvGenerate (sp ++ info) (LLMResponse (Some d))
       :: EvToolCall (PyStr.strip after) :: calls ++ evs) out
| react_search_raised it info d before after calls e :
    it < max_iterations ->
    PyStr.contains ANSWER d = false ->
    first_occurrence TOOL d before after ->
    Forall is_store_call calls ->
    Exists (fun p => path_exists_raises w p = true) (retrieved_keys calls) ->
    react_log w sp it info
      (EvGenerate (sp ++ info) (LLMResponse (Some d))
       :: EvToolCall (PyStr.strip after) :: calls) (Raise e)
| react_unclear it info d evs out :
    it < max_iterations ->
    PyStr.contains ANSWER d = false ->
    PyStr.contains TOOL d = false ->
    react_log w sp (S it) (info ++ [CText unable_to_determine]) evs out ->
    react_log w sp it info
      (EvGenerate (sp ++ info) (LLMResponse (Some d)) :: evs) out.

(** ** Timestamps *)



(** The count of remote calls did not go back. *)
Definition later (s s' : State) : Prop := clock s <= clock s'.

(** ** Chat sessions *)

(** A read that gives a line with nothing but white space on it. *)
Definition blank (i : Input) : bool :=
  match i with
  | Line text => negb (PyStr.truthy (PyStr.strip text))
  | _ => false
  end.

(** What every session other than [sid] has stored is as it was. *)
Definition other_sessions_kept (sid : pystr) (s s' : State) : Prop :=
  forall other, other <> sid ->
    filter (in_session other) (history_collection s')
    = filter (in_session other) (history_collection s).

(** The history collection is as it was, or lost the messages of [sid]
    and nothing else. *)
Definition at_most_cleared (sid : pystr) (s s' : State) : Prop :=
  history_collection s' = history_collection s
  \/ history_collection s'
     = filter (fun m => negb (in_session sid m)) (history_collection s).

(** The history collection is as it was. *)
Definition same_history (s s' : State) : Prop :=
  history_collection s' = history_collection s.

(** The answers among what a session printed. *)
Definition is_answer (o : Output) : bool :=
  match o with
  | Answer _ => true
  | _ => false
  end.

Definition count_answers (printed : list Output) : nat :=
  List.length (filter is_answer printed).

(** What a pass through the loop prints, as a list. *)
Definition printed_by (o : option Output) : list Output :=
  match o with
  | Some x => [x]
  | None => []
  end.

(** The questions among what the console gives: the lines that are not
    blank and, stripped and lowered, none of the commands. *)
Definition is_question (lower : pystr -> pystr) (i : Input) : bool :=
  match i with
  | Line text =>
      let user_input := PyStr.strip text in
      PyStr.truthy user_input
      && negb (existsb (PyStr.eqb (lower user_input))
                 [py "quit"; py "exit"; py "q"])
      && negb (PyStr.eqb (lower user_input) (py "help"))
      && negb (PyStr.eqb (lower user_input) (py "clear"))
      && negb (PyStr.eqb (lower user_input) (py "status"))
  | _ => false
  end.

Definition count_questions (lower : pystr -> pystr) (inputs : list Input) : nat :=
  List.length (filter (is_question lower) inputs).

(** * A concrete deployment *)

Module Scenario.

Local Open Scope Q_scope.

Definition dot (a b : list Q) : Q :=
  fold_left Qplus (map (fun p => fst p * snd p) (combine a b)) 0.

(** A norm over the rationals: the square root of the sum of squares,
    rounded down on numerator and denominator. *)
Definition norm (v : list Q) : Q :=
  let ss := dot v v in
  Qmake (Z.sqrt (Qnum ss)) (Pos.sqrt (Qden ss)).

Definition page (n : Z) (k : string) (e : list Q) : StoredDoc Q :=
  {| doc_key := py k; doc_width := 1224; doc_height := 1584;
     doc_page_number := n; doc_embedding := e |}.

Definition page_1 : StoredDoc Q := page 1 "data/images/1.png" [91 # 60; 0].
Definition page_2 : StoredDoc Q := page 2 "data/images/2.png" [0; 77 # 80].

Definition question : pystr :=
  py "What is the Pass@1 accuracy of DeepSeek R1 on AIME 2024?".

(** The world, for given LLM oracles: the Embedding Provider answers
    every query with the vector (3, 4), the store holds two pages that
    score 0.91 and 0.77 against it, every file exists and opens, and
    the wall clock reads later at every call. *)
Definition world (sel : nat -> list Content -> SelectResult)
    (gen : nat -> list Content -> LLMResult) : World Q :=
  {| np_linalg_norm := norm;
     gt_0 := fun x => negb (Qle_bool x 0);
     np_divide := Qdiv;
     embedding_provider := fun _ _ => HttpResponse 200 (Some [3; 4]);
     collection := [page_2; page_1];
     vector_store_up := fun _ => true;
     similarity := dot;
     gemini_select := sel;
     gemini_generate := gen;
     path_exists := fun _ => true;
     path_exists_raises := fun _ => false;
     image_readable := fun _ => true;
     history_up := fun _ => true;
     datetime_now := fun t => (1000 * t)%nat |}.

Definition search_call : ToolInvocation :=
  {| name := py "get_information_for_question_answering";
     args := [(py "user_query", py "Pass@1 accuracy AIME 2024")] |}.

(** The model asks for a search at its first call, and for none later. *)
Definition select_once (t : nat) (_ : list Content) : SelectResult :=
  if (t =? 0)%nat then SelResponse (Some search_call) else SelResponse None.

Definition answer_79_8 (_ : nat) (_ : list Content) : LLMResult :=
  LLMResponse (Some (py "79.8%")).

(** The model first asks for a search, then answers. *)
Definition tool_then_answer (t : nat) (_ : list Content) : LLMResult :=
  if (t =? 0)%nat then LLMResponse (Some (py "TOOL: AIME 2024 accuracy"))
  else LLMResponse (Some (py "Enough. ANSWER:  79.8% ")).


Definition g : Globals :=
  {| SERVERLESS_URL := Some (py "https://workshop.example/api");
     USE_MEMORY := false;
     SESSION_ID := py "a1b2c3d4" |}.

Definition g_memory : Globals :=
  {| SERVERLESS_URL := Some (py "https://workshop.example/api");
     USE_MEMORY := true;
     SESSION_ID := py "a1b2c3d4" |}.

Definition g_no_endpoint : Globals :=
  {| SERVERLESS_URL := None; USE_MEMORY := false; SESSION_ID := py "a1b2c3d4" |}.

Definition s0 : State :=
  {| clock := 0; trace := []; history_collection := []; default_images := [] |}.

Definition message (sid : string) (t : nat) (text : string) : ChatMessage :=
  {| session_id := py sid; role := py "user"; type := py "text";
     content := Some (py text); timestamp := t |}.

(** A History Store with two messages of the current session and one
    of another. *)
Definition stored : list ChatMessage :=
  [message "a1b2c3d4" 1 "hello"; message "ffff0000" 2 "other";
   message "a1b2c3d4" 3 "again"].

Definition w : World Q := world select_once answer_79_8.

(** The same world with an Embedding Provider that answers 500. *)
Definition w_500 : World Q :=
  {| np_linalg_norm := np_linalg_norm w; gt_0 := gt_0 w; np_divide := np_divide w;
     embedding_provider := fun _ _ => HttpResponse 500 None;
     collection := collection w; vector_store_up := vector_store_up w;
     similarity := similarity w;
     gemini_select := gemini_select w; gemini_generate := gemini_generate w;
     path_exists := path_exists w;
     path_exists_raises := path_exists_raises w;
     image_readable := image_readable w;
     history_up := history_up w; datetime_now := datetime_now w |}.

(** [str.lower] on ASCII text. *)
Definition ascii_lower (s : pystr) : pystr :=
  map (fun c => if ((65 <=? c) && (c <=? 90))%N then (c + 32)%N else c) s.

(** A deployment in which the start-up succeeds. *)
Definition services : Services :=
  {| ping := Some (Some 1);
     count_documents := Some 2%nat;
     get_api_key := KeyResponded 200 (Some (py "key-from-endpoint"));
     GOOGLE_API_KEY := None;
     genai := fun _ => GenaiClient |}.

End Scenario.

(** * numpy on [float64] *)

(** The numbers of an embedding as numpy has them: IEEE 754 binary64,
    with rounding to nearest, ties to even. *)
Module Binary64.

Import SpecFloat.

Definition prec : Z := 53.
Definition emax : Z := 1024.

Definition float64 : Type := spec_float.

Definition zero : float64 := S754_zero false.

(** [np.dot(v, v)], the products added from the left. On a vector of
    one number, the only vectors used below, there is one product and
    no order of summation to choose. *)
Definition dot_self (v : list float64) : float64 :=
  fold_left (fun acc x => SFadd prec emax acc (SFmul prec emax x x)) v zero.

(** [np.linalg.norm(v)] of a one-dimensional [v]: [sqrt(dot(v, v))]. *)
Definition linalg_norm (v : list float64) : float64 :=
  SFsqrt prec emax (dot_self v).

(** [norm > 0]. *)
Definition greater_than_0 (x : float64) : bool := SFltb zero x.

(** [x / norm]. *)
Definition divide (x norm : float64) : float64 := SFdiv prec emax x norm.

(** A world whose numbers are [float64] and whose Embedding Provider
    answers every request with [embedding]; nothing else is there. *)
Definition world (embedding : list float64) : World float64 :=
  {| np_linalg_norm := linalg_norm;
     gt_0 := greater_than_0;
     np_divide := divide;
     embedding_provider := fun _ _ => HttpResponse 200 (Some embedding);
     collection := [];
     vector_store_up := fun _ => true;
     similarity := fun _ _ => 0%Q;
     gemini_select := fun _ _ => SelRaises;
     gemini_generate := fun _ _ => LLMRaises;
     path_exists := fun _ => false;
     path_exists_raises := fun _ => false;
     image_readable := fun _ => false;
     history_up := fun _ => true;
     datetime_now := fun t => t |}.

(** The number a [float64] stands for, where it is finite. *)
Definition exact (x : float64) : option Q :=
  match x with
  | S754_zero _ => Some 0%Q
  | S754_finite sign m e =>
      Some (inject_Z (if sign then Z.neg m else Z.pos m) * Qpower 2 e)%Q
  | _ => None
  end.

(** The square of the Euclidean norm of a vector of finite numbers,
    without rounding. *)
Definition exact_square_norm (v : list float64) : option Q :=
  fold_right
    (fun x acc =>
       match exact x, acc with
       | Some q, Some a => Some (q * q + a)%Q
       | _, _ => None
       end)
    (Some 0%Q) v.

(** The Euclidean norm of [v] is the square root of [q]. *)
Definition has_square_norm (v : list float64) (q : Q) : bool :=
  match exact_square_norm v with
  | Some x => Qeq_bool x q
  | None => false
  end.

(** The Euclidean norm of [v] is 1. *)
Definition unit_norm (v : list float64) : bool := has_square_norm v 1.

(** [2.0 ** 600], [2.0 ** -600], [2.0] and [1.0]. *)
Definition two_to_600 : float64 := S754_finite false 4503599627370496 548.
Definition two_to_minus_600 : float64 := S754_finite false 4503599627370496 (-652).
Definition two : float64 := S754_finite false 4503599627370496 (-51).
Definition one : float64 := S754_finite false 4503599627370496 (-52).

End Binary64.

(** * Properties *)

(** ** Strings *)

Module PyStrFacts.
Import PyStr.

Example split_1_ex :
  split_1 (py "ANSWER:") (py "so ANSWER: 42 ANSWER: 7 ")
  = [py "so "; py " 42 ANSWER: 7 "].
Proof. reflexivity. Qed.

Example split_1_absent : split_1 (py "ANSWER:") (py "TOOL: x") = [py "TOOL: x"].
Proof. reflexivity. Qed.

Example strip_ex : strip (py "  42 is it  ") = py "42 is it".
Proof. reflexivity. Qed.

Lemma startswith_app (p r : pystr) : startswith p (p ++ r) = true.
Proof.
  induction p as [|x p IH]; simpl; [reflexivity|].
  now rewrite N.eqb_refl, IH.
Qed.

Lemma startswith_inv (p s : pystr) :
  startswith p s = true -> s = p ++ skipn (List.length p) s.
Proof.
  revert s; induction p as [|x p IH]; intros [|y s]; simpl; try easy.
  intros H. apply andb_true_iff in H as [Hxy Hp].
  apply N.eqb_eq in Hxy. subst y. f_equal. now apply IH.
Qed.

Lemma skipn_app_exact (p r : pystr) : skipn (List.length p) (p ++ r) = r.
Proof. induction p; simpl; auto. Qed.

Lemma contains_unfold (sub s : pystr) :
  contains sub s =
  startswith sub s || match s with [] => false | _ :: s' => contains sub s' end.
Proof. destruct s; reflexivity. Qed.

Lemma contains_app (sub a b : pystr) : contains sub (a ++ sub ++ b) = true.
Proof.
  induction a as [|c a IH].
  - rewrite contains_unfold. simpl. now rewrite startswith_app.
  - simpl. rewrite IH. apply orb_true_r.
Qed.

Lemma contains_inv (sub s : pystr) :
  contains sub s = true -> exists a b, s = a ++ sub ++ b.
Proof.
  induction s as [|c s IH]; simpl; intros H.
  - rewrite orb_false_r in H. exists [], (skipn (List.length sub) []).
    now apply startswith_inv.
  - apply orb_true_iff in H as [H|H].
    + exists [], (skipn (List.length sub) (c :: s)). now apply startswith_inv.
    + destruct (IH H) as (a & b & ->). now exists (c :: a), b.
Qed.

Lemma app_same_length (b1 b2 x y : pystr) :
  List.length b1 = List.length b2 -> b1 ++ x = b2 ++ y -> b1 = b2 /\ x = y.
Proof.
  revert b2; induction b1 as [|c b1 IH]; intros [|c' b2]; simpl; try easy.
  intros [= L] [= -> E]. destruct (IH _ L E) as [-> ->]. now split.
Qed.

Lemma first_occurrence_unique (sep s b1 a1 b2 a2 : pystr) :
  first_occurrence sep s b1 a1 -> first_occurrence sep s b2 a2 ->
  b1 = b2 /\ a1 = a2.
Proof.
  intros [E1 M1] [E2 M2].
  assert (L : List.length b1 = List.length b2).
  { apply Nat.le_antisymm; [eapply M1 | eapply M2]; eassumption. }
  rewrite E1 in E2. destruct (app_same_length L E2) as [Hb E].
  split; [exact Hb|]. now apply app_inv_head in E.
Qed.

Lemma split_1_first (sep s : pystr) :
  contains sep s = true ->
  exists before after,
    split_1 sep s = [before; after] /\ first_occurrence sep s before after.
Proof.
  induction s as [|c s IH]; intros H.
  - simpl in H. rewrite orb_false_r in H. simpl. rewrite H.
    exists [], (skipn (List.length sep) []). split; [reflexivity|].
    split; [now apply startswith_inv | intros; simpl; lia].
  - simpl in H. cbn [split_1].
    destruct (startswith sep (c :: s)) eqn:S.
    + exists [], (skipn (List.length sep) (c :: s)). split; [reflexivity|].
      split; [now apply startswith_inv | intros; simpl; lia].
    + simpl in H. destruct (IH H) as (b & a & Es & Ef & Em).
      rewrite Es. exists (c :: b), a. split; [reflexivity|].
      split; [simpl; now rewrite <- Ef|].
      intros [|c' b'] a' E.
      * simpl in E. rewrite E, startswith_app in S. discriminate.
      * simpl in E. injection E as _ E. simpl. apply le_n_S. eapply Em; eauto.
Qed.

Lemma split_1_absent_length (sep s : pystr) :
  contains sep s = false -> exists x, split_1 sep s = [x].
Proof.
  induction s as [|c s IH]; simpl; intros H.
  - apply orb_false_iff in H as [H _]. rewrite H. now exists [].
  - apply orb_false_iff in H as [H1 H2]. rewrite H1.
    destruct (IH H2) as (x & ->). now exists (c :: x).
Qed.

Lemma lstrip_spaces (l x : pystr) :
  forallb isspace l = true -> lstrip (l ++ x) = lstrip x.
Proof.
  induction l as [|c l IH]; simpl; [reflexivity|].
  intros H. apply andb_true_iff in H as [Hc Hl]. now rewrite Hc, IH.
Qed.

Lemma lstrip_all_spaces (l : pystr) : forallb isspace l = true -> lstrip l = [].
Proof.
  intros H. rewrite <- (app_nil_r l). now rewrite lstrip_spaces.
Qed.

Lemma lstrip_head (c : N) (x : pystr) :
  isspace c = false -> lstrip (c :: x) = c :: x.
Proof. simpl. now intros ->. Qed.

Lemma lstrip_decompose (s : pystr) :
  exists l, s = l ++ lstrip s /\ forallb isspace l = true /\
            forall c r, lstrip s = c :: r -> isspace c = false.
Proof.
  induction s as [|c s (l & E & Hl & Hh)].
  - exists []. repeat split. discriminate.
  - simpl. destruct (isspace c) eqn:Hc.
    + exists (c :: l). simpl. rewrite Hc, Hl. repeat split; auto. now f_equal.
    + exists []. repeat split. intros c' r [= <- _]. exact Hc.
Qed.

Lemma forallb_rev (f : N -> bool) (l : pystr) :
  forallb f (rev l) = forallb f l.
Proof.
  induction l as [|c l IH]; simpl; [reflexivity|].
  rewrite forallb_app, IH. simpl. rewrite andb_true_r. apply andb_comm.
Qed.

Lemma strip_stripped (s : pystr) : stripped s (strip s).
Proof.
  unfold strip, rstrip.
  destruct (lstrip_decompose s) as (l & El & Hl & Hhead).
  destruct (lstrip_decompose (rev (lstrip s))) as (r & Er & Hr & Hlast).
  exists l, (rev r). repeat split.
  - rewrite El at 1. f_equal. rewrite <- rev_app_distr, <- Er.
    now rewrite rev_involutive.
  - exact Hl.
  - now rewrite forallb_rev.
  - intros c x E.
    assert (E' : lstrip s = (c :: x) ++ rev r).
    { rewrite <- E, <- rev_app_distr, <- Er. now rewrite rev_involutive. }
    eapply Hhead. exact E'.
  - intros c x E. apply (f_equal (@rev N)) in E.
    rewrite rev_involutive, rev_app_distr in E. simpl in E.
    eapply Hlast. exact E.
Qed.

Lemma stripped_strip (s t : pystr) : stripped s t -> strip s = t.
Proof.
  intros (l & r & -> & Hl & Hr & Hhead & Hlast).
  unfold strip, rstrip. rewrite lstrip_spaces by exact Hl.
  destruct t as [|c t].
  - simpl. rewrite (lstrip_all_spaces Hr).
    rewrite lstrip_all_spaces; [reflexivity|]. simpl. reflexivity.
  - rewrite <- app_comm_cons, lstrip_head by (eapply Hhead; reflexivity).
    rewrite app_comm_cons, rev_app_distr, lstrip_spaces by now rewrite forallb_rev.
    destruct (rev (c :: t)) as [|c' t'] eqn:E.
    + apply (f_equal (@rev N)) in E. rewrite rev_involutive in E. discriminate.
    + rewrite lstrip_head; [now rewrite <- E, rev_involutive|].
      apply (Hlast c' (rev t')).
      apply (f_equal (@rev N)) in E. now rewrite rev_involutive in E.
Qed.

End PyStrFacts.

(** ** Runs and their logs *)

Lemma count_generate_app (a b : list Event) :
  count_generate (a ++ b) = count_generate a + count_generate b.
Proof. unfold count_generate. now rewrite filter_app, length_app. Qed.

Lemma count_generate_retrieval (evs : list Event) :
  Forall is_retrieval evs -> count_generate evs = 0.
Proof.
  induction 1 as [|e evs He _ IH]; [reflexivity|].
  unfold count_generate in *. destruct e; simpl in *; tauto.
Qed.

Lemma count_generate_one c r : count_generate [EvGenerate c r] = 1.
Proof. reflexivity. Qed.

Lemma count_select_retrieval (evs : list Event) :
  Forall is_retrieval evs -> count_select evs = 0.
Proof.
  induction 1 as [|e evs He _ IH]; [reflexivity|].
  unfold count_select in *. destruct e; simpl in *; tauto.
Qed.

Lemma count_select_app (a b : list Event) :
  count_select (a ++ b) = count_select a + count_select b.
Proof. unfold count_select. now rewrite filter_app, length_app. Qed.

Lemma not_retrieval_generate (evs : list Event) c r :
  Forall is_retrieval evs -> ~ In (EvGenerate c r) evs.
Proof. intros F H. rewrite Forall_forall in F. exact (F _ H). Qed.

Lemma not_retrieval_select (evs : list Event) c r :
  Forall is_retrieval evs -> ~ In (EvSelectTool c r) evs.
Proof. intros F H. rewrite Forall_forall in F. exact (F _ H). Qed.

Lemma app_eq_self (A : Type) (l evs : list A) : l = l ++ evs -> evs = [].
Proof.
  intros E. apply (f_equal (fun x => List.length x)) in E.
  rewrite length_app in E. destruct evs; [reflexivity | simpl in E; lia].
Qed.

Section Runs.

Variable num : Type.
Variable g : Globals.
Variable w : World num.

Lemma emits_ret A P (a : A) : emits P (ret a).
Proof. intros s. exists []. simpl. now rewrite app_nil_r. Qed.

Lemma emits_raise A P e : emits P (@raise A e).
Proof. intros s. exists []. simpl. now rewrite app_nil_r. Qed.

Lemma emits_tick P : emits P tick.
Proof. intros s. exists []. simpl. now rewrite app_nil_r. Qed.

Lemma emits_log (P : Event -> Prop) e : P e -> emits P (log e).
Proof. intros H s. exists [e]. simpl. auto. Qed.

Lemma emits_get_history P : emits P get_history.
Proof. intros s. exists []. simpl. now rewrite app_nil_r. Qed.

Lemma emits_put_history P h : emits P (put_history h).
Proof. intros s. exists []. simpl. now rewrite app_nil_r. Qed.

Lemma emits_get_default_images P : emits P get_default_images.
Proof. intros s. exists []. simpl. now rewrite app_nil_r. Qed.

Lemma emits_put_default_images P l : emits P (put_default_images l).
Proof. intros s. exists []. simpl. now rewrite app_nil_r. Qed.

Lemma emits_bind A B P (m : M A) (f : A -> M B) :
  emits P m -> (forall a, emits P (f a)) -> emits P (bind m f).
Proof.
  intros Hm Hf s. unfold bind. destruct (Hm s) as (e1 & E1 & F1).
  destruct (m s) as [[a|e] s1]; simpl in E1.
  - destruct (Hf a s1) as (e2 & E2 & F2). exists (e1 ++ e2).
    rewrite E2, E1, app_assoc. split; [reflexivity | now apply Forall_app].
  - exists e1. simpl. auto.
Qed.

Lemma emits_try_except A P (m : M A) (h : Exn -> M A) :
  emits P m -> (forall e, emits P (h e)) -> emits P (try_except m h).
Proof.
  intros Hm Hh s. unfold try_except. destruct (Hm s) as (e1 & E1 & F1).
  destruct (m s) as [[a|e] s1]; simpl in E1.
  - exists e1. simpl. auto.
  - destruct (Hh e s1) as (e2 & E2 & F2). exists (e1 ++ e2).
    rewrite E2, E1, app_assoc. split; [reflexivity | now apply Forall_app].
Qed.

Lemma returns_try_except A (m : M A) (h : Exn -> M A) :
  (forall e, returns (h e)) -> returns (try_except m h).
Proof.
  intros Hh s. unfold try_except. destruct (m s) as [[a|e] s1].
  - now exists a.
  - apply Hh.
Qed.

Lemma returns_ret A (a : A) : returns (ret a).
Proof. intros s. now exists a. Qed.

Lemma returns_bind A B (m : M A) (f : A -> M B) :
  returns m -> (forall a, returns (f a)) -> returns (bind m f).
Proof.
  intros Hm Hf s. unfold bind. destruct (Hm s) as (a & E).
  destruct (m s) as [[a'|e] s1]; simpl in E; [|discriminate]. apply Hf.
Qed.

Create HintDb emits discriminated.
Hint Resolve emits_ret emits_raise emits_tick emits_get_history
  emits_put_history emits_get_default_images emits_put_default_images
  : emits.

Ltac emits_step :=
  first
    [ match goal with H : forall _, emits _ _ |- _ => apply H end
    | match goal with H : forall _ _, emits _ _ |- _ => apply H end
    | solve [auto with emits]
    | apply emits_log; exact I
    | apply emits_bind; [|intros ?]
    | apply emits_try_except; [|intros ?]
    | match goal with
      | |- emits _ (if ?b then _ else _) => destruct b
      | |- emits _ (match ?x with _ => _ end) => destruct x
      end
    | progress cbv zeta ].

Ltac emits_auto := repeat emits_step.

(** *** The Retrieval Tool's calls *)

Lemma aggregate_emits p : emits is_retrieval (aggregate w p).
Proof. unfold aggregate. emits_auto. Qed.

Lemma requests_post_emits url q : emits is_retrieval (requests_post w url q).
Proof. unfold requests_post. emits_auto. Qed.

Lemma generate_query_embedding_emits q :
  emits is_retrieval (generate_query_embedding g w q).
Proof.
  unfold generate_query_embedding, json_embedding.
  pose proof requests_post_emits. emits_auto.
Qed.

Lemma vector_search_tool_emits q : emits is_retrieval (vector_search_tool g w q).
Proof.
  unfold vector_search_tool.
  pose proof generate_query_embedding_emits. pose proof aggregate_emits.
  emits_auto.
Qed.

(** *** The ReAct loop *)

Lemma generate_content_run contents s :
  let response := gemini_generate w (clock s) contents in
  generate_content w contents s
  = (match response with
     | LLMRaises => Raise ProviderError
     | LLMResponse text => Ok text
     end, called s (EvGenerate contents response)).
Proof.
  unfold generate_content, bind, tick, log, called. simpl.
  destruct (gemini_generate w (clock s) contents); reflexivity.
Qed.

Lemma Path_exists_emits P p : emits P (Path_exists w p).
Proof. unfold Path_exists. emits_auto. Qed.

Lemma Image_open_emits P p : emits P (Image_open w p).
Proof. unfold Image_open. emits_auto. Qed.

Lemma new_image_emits P p : emits P (new_image w p).
Proof.
  unfold new_image. pose proof Path_exists_emits. pose proof Image_open_emits.
  emits_auto.
Qed.

Lemma open_new_images_emits P l : emits P (open_new_images w l).
Proof.
  pose proof new_image_emits. induction l as [|p l IH]; simpl; emits_auto.
Qed.

Lemma react_decide_emits info d : emits is_retrieval (react_decide g w info d).
Proof.
  unfold react_decide, item_1. pose proof vector_search_tool_emits.
  pose proof open_new_images_emits. emits_auto.
Qed.

Lemma react_decide_answer info d before after s :
  first_occurrence ANSWER d before after ->
  react_decide g w info d s = (Ok (Return (PyStr.strip after)), s).
Proof.
  intros F. unfold react_decide.
  assert (C : PyStr.contains ANSWER d = true).
  { destruct F as [-> _]. apply PyStrFacts.contains_app. }
  rewrite C. destruct (PyStrFacts.split_1_first C) as (b & a & E & F').
  destruct (PyStrFacts.first_occurrence_unique F F') as [_ ->].
  rewrite E. reflexivity.
Qed.

Lemma react_iteration_unfold sp info s :
  let response := gemini_generate w (clock s) (sp ++ info) in
  let s1 := called s (EvGenerate (sp ++ info) response) in
  react_iteration g w sp info s
  = match response with
    | LLMRaises => (Raise ProviderError, s1)
    | LLMResponse None => (Raise TypeError, s1)
    | LLMResponse (Some d) => react_decide g w info d s1
    end.
Proof.
  intros response s1. unfold react_iteration, bind.
  rewrite generate_content_run. fold response. fold s1.
  destruct response as [|[d|]]; reflexivity.
Qed.

Lemma react_iteration_run sp info s :
  let response := gemini_generate w (clock s) (sp ++ info) in
  exists evs,
    trace (snd (react_iteration g w sp info s))
    = trace s ++ EvGenerate (sp ++ info) response :: evs
    /\ Forall is_retrieval evs
    /\ forall d before after,
        response = LLMResponse (Some d) ->
        first_occurrence ANSWER d before after ->
        evs = [] /\
        fst (react_iteration g w sp info s) = Ok (Return (PyStr.strip after)).
Proof.
  intros response. rewrite react_iteration_unfold. fold response.
  destruct response as [|[d|]] eqn:R.
  - exists []. simpl. repeat split; auto. discriminate.
  - destruct (react_decide_emits info d (called s (EvGenerate (sp ++ info) (LLMResponse (Some d)))))
      as (evs & E & F).
    exists evs. split; [|split].
    + rewrite E. simpl. now rewrite <- app_assoc.
    + exact F.
    + intros d' before after [= <-] Hf.
      rewrite (react_decide_answer info _ Hf) in E |- *. simpl in E.
      split; [|reflexivity].
      apply (f_equal (fun l => List.length l)) in E.
      rewrite !length_app in E. destruct evs; [reflexivity | simpl in E; lia].
  - exists []. simpl. repeat split; auto. discriminate.
Qed.

Lemma generate_after_retrieval (a b pre post : list Event) c r :
  Forall is_retrieval a ->
  a ++ b = pre ++ EvGenerate c r :: post ->
  exists pre', b = pre' ++ EvGenerate c r :: post.
Proof.
  intros F. revert pre. induction F as [|x a Hx _ IH]; intros pre E.
  - now exists pre.
  - destruct pre as [|y pre]; simpl in E.
    + injection E as -> _. destruct Hx.
    + injection E as _ E. eauto.
Qed.

Lemma react_loop_run sp it info s :
  exists evs,
    trace (snd (react_loop g w sp it info s)) = trace s ++ evs
    /\ count_generate evs <= max_iterations - it
    /\ forall pre contents d post before after,
        evs = pre ++ EvGenerate contents (LLMResponse (Some d)) :: post ->
        first_occurrence ANSWER d before after ->
        post = [] /\
        fst (react_loop g w sp it info s) = Ok (PyStr.strip after).
Proof.
  funelim (react_loop g w sp it info s);
    try (destruct (react_iteration_run system_prompt current_information s)
          as (evs1 & E1 & F1 & A1);
         match goal with
         | H : react_iteration _ _ _ _ _ = _ |- _ => rewrite H in E1, A1
         end; simpl in E1, A1).
  - exists []. simpl. rewrite app_nil_r. repeat split; [unfold count_generate; simpl; lia|..];
      destruct pre; discriminate.
  - exists (EvGenerate (system_prompt ++ current_information)
              (gemini_generate w (clock s) (system_prompt ++ current_information))
            :: evs1).
    split; [exact E1|]. split.
    + change (?x :: evs1) with ([x] ++ evs1).
      rewrite count_generate_app, (count_generate_retrieval F1).
      rewrite count_generate_one. lia.
    + intros pre contents d post before after E Hf.
      destruct pre as [|x pre]; simpl in E.
      * injection E as _ R <-. destruct (A1 _ _ _ R Hf) as [-> [= ->]].
        now split.
      * injection E as _ E.
        rewrite <- (app_nil_r evs1) in E.
        destruct (generate_after_retrieval F1 E) as (pre' & E').
        destruct pre'; discriminate.
  - match goal with
    | IH : exists _, _ |- _ => destruct IH as (evs2 & E2 & C2 & A2)
    end.
    exists (EvGenerate (system_prompt ++ current_information)
              (gemini_generate w (clock s) (system_prompt ++ current_information))
            :: evs1 ++ evs2).
    split; [|split].
    + rewrite E2, E1, <- app_assoc. reflexivity.
    + change (?x :: evs1 ++ evs2) with ([x] ++ evs1 ++ evs2).
      rewrite !count_generate_app, (count_generate_retrieval F1).
      rewrite count_generate_one. lia.
    + intros pre contents d post before after E Hf.
      destruct pre as [|x pre]; simpl in E.
      * injection E as _ R <-. destruct (A1 _ _ _ R Hf) as [_ [=]].
      * injection E as _ E.
        destruct (generate_after_retrieval F1 E) as (pre' & E').
        eapply A2; eauto.
  - exists (EvGenerate (system_prompt ++ current_information)
              (gemini_generate w (clock s) (system_prompt ++ current_information))
            :: evs1).
    split; [exact E1|]. split.
    + change (?x :: evs1) with ([x] ++ evs1).
      rewrite count_generate_app, (count_generate_retrieval F1).
      rewrite count_generate_one. lia.
    + intros pre contents d post before after E Hf.
      destruct pre as [|x pre]; simpl in E.
      * injection E as _ R <-. destruct (A1 _ _ _ R Hf) as [_ [=]].
      * injection E as _ E.
        rewrite <- (app_nil_r evs1) in E.
        destruct (generate_after_retrieval F1 E) as (pre' & E').
        destruct pre'; discriminate.
Qed.


Lemma open_existing_emits images : emits silent (open_existing w images).
Proof.
  pose proof Path_exists_emits.
  induction images as [|img rest IH]; simpl; unfold Image_open; emits_auto.
Qed.

Lemma generate_answer_react_run q images s :
  exists answer evs,
    fst (generate_answer_react g w q images s) = Ok answer
    /\ trace (snd (generate_answer_react g w q images s)) = trace s ++ evs
    /\ count_generate evs <= max_iterations
    /\ forall pre contents d post before after,
        evs = pre ++ EvGenerate contents (LLMResponse (Some d)) :: post ->
        first_occurrence ANSWER d before after ->
        post = [] /\ answer = PyStr.strip after.
Proof.
  unfold generate_answer_react, try_except, bind.
  set (prelude := match images with _ :: _ => open_existing w images | [] => ret [] end).
  assert (P : emits silent prelude).
  { subst prelude. destruct images; [apply emits_ret | apply open_existing_emits]. }
  destruct (P s) as (evs0 & E0 & F0).
  assert (evs0 = []) by (destruct F0 as [|? ? []]; reflexivity). subst evs0.
  rewrite app_nil_r in E0.
  destruct (prelude s) as [[info|e] s1]; simpl in E0.
  - destruct (react_loop_run [CText (react_prompt q)] 0 info s1) as (evs & E & C & A).
    rewrite E0, Nat.sub_0_r in *.
    destruct (react_loop g w [CText (react_prompt q)] 0 info s1) as [[a|e] s2];
      simpl in *.
    + exists a, evs. split; [reflexivity|]. split; [exact E|]. split; [exact C|].
      intros pre contents d post before after Hev Hf.
      destruct (A _ _ _ _ _ _ Hev Hf) as [Hp [= Ha]]. auto.
    + exists react_error, evs. split; [reflexivity|]. split; [exact E|].
      split; [exact C|].
      intros pre contents d post before after Hev Hf.
      destruct (A _ _ _ _ _ _ Hev Hf) as [_ [=]].
  - exists react_error, []. simpl. rewrite E0, app_nil_r.
    repeat split; [unfold count_generate; simpl; lia|..]; destruct pre; discriminate.
Qed.

(** *** Session Memory and the direct strategy *)

Lemma run_silent A (m : M A) :
  emits silent m -> returns m ->
  forall s, exists a s', m s = (Ok a, s') /\ trace s' = trace s.
Proof.
  intros E R s. destruct (E s) as (evs & T & F). destruct (R s) as (a & Ha).
  destruct (m s) as [o s']. simpl in *. subst o. exists a, s'.
  split; [reflexivity|]. destruct F as [|? ? []]. now rewrite app_nil_r in T.
Qed.

Lemma store_chat_message_emits sid r t c :
  emits silent (store_chat_message g w sid r t c).
Proof. unfold store_chat_message. emits_auto. Qed.

Lemma store_chat_message_returns sid r t c :
  returns (store_chat_message g w sid r t c).
Proof.
  unfold store_chat_message. destruct (negb (USE_MEMORY g)).
  - apply returns_ret.
  - apply returns_try_except. intros e. apply returns_ret.
Qed.

Lemma store_images_emits l : emits silent (store_images g w l).
Proof.
  pose proof store_chat_message_emits.
  induction l as [|p l IH]; simpl; emits_auto.
Qed.

Lemma store_images_returns l : returns (store_images g w l).
Proof.
  induction l as [|p l IH]; simpl; [apply returns_ret|].
  apply returns_bind; [apply store_chat_message_returns | intros _; exact IH].
Qed.

Lemma retrieve_session_history_emits sid :
  emits silent (retrieve_session_history g w sid).
Proof. unfold retrieve_session_history. emits_auto. Qed.

Lemma retrieve_session_history_returns sid :
  returns (retrieve_session_history g w sid).
Proof.
  unfold retrieve_session_history. destruct (negb (USE_MEMORY g)).
  - apply returns_ret.
  - apply returns_try_except. intros e. apply returns_ret.
Qed.

Lemma remember_turn_emits q cur a : emits silent (remember_turn g w q cur a).
Proof.
  unfold remember_turn.
  pose proof store_chat_message_emits. pose proof store_images_emits.
  emits_auto.
Qed.

Lemma remember_turn_returns q cur a : returns (remember_turn g w q cur a).
Proof.
  unfold remember_turn. destruct (USE_MEMORY g); [|apply returns_ret].
  apply returns_bind; [apply store_chat_message_returns | intros _].
  apply returns_bind; [apply store_images_returns | intros _].
  apply store_chat_message_returns.
Qed.

Lemma select_tool_run messages s :
  let contents := [CText select_tool_prompt] ++ messages in
  let response := gemini_select w (clock s) contents in
  select_tool w messages s
  = (Ok (match response with
         | SelRaises => None
         | SelResponse function_call => function_call
         end), called s (EvSelectTool contents response)).
Proof.
  unfold select_tool, try_except, bind, tick, log, called. simpl.
  destruct (gemini_select w (clock s) _); reflexivity.
Qed.

Lemma use_tool_emits images cur tc : emits is_retrieval (use_tool g w images cur tc).
Proof.
  unfold use_tool, call_vector_search_tool, extend_images.
  pose proof vector_search_tool_emits. emits_auto.
Qed.

(** The calls of a run of [generate_answer]: one tool selection, the
    calls of the Retrieval Tool if it was used, and one generation call,
    unless the keyword arguments of the tool call did not fit. *)
Lemma generate_answer_run q images s :
  exists answer s' csel rsel retr,
    generate_answer g w q images s = (Ok answer, s')
    /\ Forall is_retrieval retr
    /\ (rsel = SelRaises -> retr = [])
    /\ ((trace s' = trace s ++ EvSelectTool csel rsel :: retr
         /\ answer = Some apology
         /\ exists tc, rsel = SelResponse (Some tc))
        \/ exists cgen rgen,
             trace s' = trace s ++ EvSelectTool csel rsel :: retr ++ [EvGenerate cgen rgen]
             /\ answer = match rgen with
                         | LLMRaises => Some apology
                         | LLMResponse text => text
                         end).
Proof.
  unfold generate_answer, try_except, bind.
  set (hist := if USE_MEMORY g then retrieve_session_history g w (SESSION_ID g)
               else ret []).
  assert (He : emits silent hist /\ returns hist).
  { subst hist. destruct (USE_MEMORY g).
    - split; [apply retrieve_session_history_emits | apply retrieve_session_history_returns].
    - split; [apply emits_ret | apply returns_ret]. }
  destruct (run_silent (proj1 He) (proj2 He) s) as (history & s1 & E1 & T1).
  rewrite E1, select_tool_run.
  set (csel := [CText select_tool_prompt] ++ messages_for_tool history q).
  remember (gemini_select w (clock s1) csel) as rsel eqn:Hsel.
  set (s2 := called s1 (EvSelectTool csel rsel)).
  set (tc := match rsel with SelRaises => None | SelResponse fc => fc end).
  assert (R : exists cur, read_images images s2 = (Ok cur, s2)).
  { destruct images as [|l]; [exists (default_images s2) | exists l]; reflexivity. }
  destruct R as (cur & ->).
  destruct (use_tool_emits images cur tc s2) as (retr & T3 & F3).
  assert (N : rsel = SelRaises -> retr = []).
  { intros Hr. subst tc. rewrite Hr in T3. simpl in T3. now apply app_eq_self in T3. }
  destruct (use_tool g w images cur tc s2) as [[cur'|e] s3] eqn:U; simpl in T3.
  - rewrite generate_content_run.
    set (cgen := answer_contents w history q cur').
    set (rgen := gemini_generate w (clock s3) cgen).
    set (s4 := called s3 (EvGenerate cgen rgen)).
    assert (T4 : trace s4 = trace s ++ EvSelectTool csel rsel :: retr ++ [EvGenerate cgen rgen]).
    { subst s4 s2. simpl. rewrite T3. simpl. rewrite T1, <- !app_assoc. reflexivity. }
    destruct rgen as [|text] eqn:G.
    + exists (Some apology), s4, csel, rsel, retr. repeat split; auto.
      right. exists cgen, LLMRaises. split; [exact T4 | reflexivity].
    + destruct (run_silent (remember_turn_emits q cur' text)
                  (remember_turn_returns q cur' text) s4) as ([] & s5 & E5 & T5).
      rewrite E5. exists text, s5, csel, rsel, retr. repeat split; auto.
      right. exists cgen, (LLMResponse text). rewrite T5. split; [exact T4 | reflexivity].
  - exists (Some apology), s3, csel, rsel, retr. repeat split; auto.
    left. split; [|split; [reflexivity|]].
    + subst s2. rewrite T3. simpl. rewrite T1, <- app_assoc. reflexivity.
    + subst tc. destruct rsel as [|[t|]]; try discriminate. now exists t.
Qed.

End Runs.

(** ** The ReAct strategy: bound, answer marker, precedence *)

(** C1. Whatever the LLM Provider answers at each call, in whatever
    state and with whatever images, a run of [generate_answer_react]
    returns a string, and the log of the run holds at most three
    generation calls: the loop body, which begins with that call, runs at
    most [max_iterations = 3] times. *)
Theorem generate_answer_react_bounded
    (num : Type) (g : Globals) (w : World num)
    (user_query : pystr) (images : list pystr) (s : State) :
  exists (answer : pystr) (s' : State) (evs : list Event),
    generate_answer_react g w user_query images s = (Ok answer, s')
    /\ trace s' = trace s ++ evs
    /\ count_generate evs <= 3.
Proof.
  destruct (generate_answer_react_run g w user_query images s)
    as (answer & evs & R & T & C & _).
  exists answer, (snd (generate_answer_react g w user_query images s)), evs.
  split; [|split]; [|exact T|exact C].
  destruct (generate_answer_react g w user_query images s) as [o s'].
  simpl in R. now subst o.
Qed.

(** C4. If some generation call of a run of [generate_answer_react]
    answered with a text that contains [ANSWER:], then that call is the
    last entry of the run's log (no iteration and no tool call follows
    it), and the run returns the text after the leftmost [ANSWER:] of
    that output, without its leading and trailing whitespace. *)
Theorem generate_answer_react_answer_marker
    (num : Type) (g : Globals) (w : World num)
    (user_query : pystr) (images : list pystr) (s : State)
    (pre post : list Event) (contents : list Content) (d : pystr) :
  trace (snd (generate_answer_react g w user_query images s))
  = trace s ++ pre ++ EvGenerate contents (LLMResponse (Some d)) :: post ->
  PyStr.contains ANSWER d = true ->
  exists before after answer,
    first_occurrence ANSWER d before after
    /\ stripped after answer
    /\ fst (generate_answer_react g w user_query images s) = Ok answer
    /\ post = [].
Proof.
  intros T C.
  destruct (PyStrFacts.split_1_first C) as (before & after & _ & F).
  destruct (generate_answer_react_run g w user_query images s)
    as (answer & evs & R & T' & _ & A).
  rewrite T' in T. apply app_inv_head in T.
  destruct (A _ _ _ _ _ _ T F) as [-> ->].
  exists before, after, (PyStr.strip after).
  repeat split; try apply F; auto. apply PyStrFacts.strip_stripped.
Qed.


(** ** The Retrieval Tool *)

Section Retrieval.

Variable num : Type.
Variable g : Globals.
Variable w : World num.

(** The embedding [generate_query_embedding] returns for a JSON vector
    is [normalize_vector] of it. *)
Lemma generate_query_embedding_success q s status e :
  url_truthy (SERVERLESS_URL g) = true ->
  embedding_provider w (clock s) q = HttpResponse status (Some e) ->
  status = 200%Z ->
  generate_query_embedding g w q s
  = (Ok (Some (normalize_vector w e)), called s (EvEmbedding q)).
Proof.
  intros U P ->. unfold generate_query_embedding, try_except, bind, requests_post.
  rewrite U. destruct (SERVERLESS_URL g) as [[|c u]|]; try discriminate.
  unfold bind, tick, log. simpl. rewrite P. reflexivity.
Qed.

Lemma generate_query_embedding_failure q s :
  url_truthy (SERVERLESS_URL g) = false
  \/ embedding_provider w (clock s) q = HttpRaises
  \/ (exists status body,
        embedding_provider w (clock s) q = HttpResponse status body
        /\ status <> 200%Z) ->
  fst (generate_query_embedding g w q s) = Ok None.
Proof.
  intros H. unfold generate_query_embedding, try_except, bind, requests_post.
  destruct (url_truthy (SERVERLESS_URL g)) eqn:U; [|reflexivity].
  destruct H as [H|H]; [discriminate|].
  destruct (SERVERLESS_URL g) as [[|c u]|]; try discriminate.
  unfold bind, tick, log. simpl.
  destruct H as [-> | (status & body & -> & Hs)]; [reflexivity|].
  simpl. apply Z.eqb_neq in Hs. now rewrite Hs.
Qed.

Lemma insert_desc_In x l y : In y (insert_desc x l) <-> y = x \/ In y l.
Proof.
  induction l as [|z l IH]; simpl; [intuition|].
  destruct (Qle_bool (score z) (score x)); simpl; [intuition|].
  rewrite IH. intuition.
Qed.

Lemma insert_desc_sorted x l :
  StronglySorted score_ge l -> StronglySorted score_ge (insert_desc x l).
Proof.
  induction 1 as [|z l Hl IH Hz]; simpl.
  - constructor; constructor.
  - destruct (Qle_bool (score z) (score x)) eqn:E.
    + apply Qle_bool_iff in E. constructor; [now constructor|].
      constructor; [exact E|].
      eapply Forall_impl; [|exact Hz]. intros a Ha. unfold score_ge in *.
      eapply Qle_trans; eauto.
    + assert (L : (score x <= score z)%Q).
      { apply Qnot_lt_le. intros C. apply Qlt_le_weak in C.
        apply Qle_bool_iff in C. congruence. }
      constructor; [exact IH|].
      apply Forall_forall. intros a Ha. apply insert_desc_In in Ha as [->|Ha].
      * exact L.
      * rewrite Forall_forall in Hz. now apply Hz.
Qed.

Lemma sort_desc_sorted l : StronglySorted score_ge (sort_desc l).
Proof.
  induction l as [|x l IH]; simpl; [constructor | now apply insert_desc_sorted].
Qed.

Lemma sort_desc_In l y : In y (sort_desc l) <-> In y l.
Proof.
  induction l as [|x l IH]; simpl; [tauto|].
  rewrite insert_desc_In, IH. intuition.
Qed.

Lemma firstn_In (A : Type) n (l : list A) y : In y (firstn n l) -> In y l.
Proof.
  revert l; induction n as [|n IH]; intros [|x l]; simpl; try tauto.
  intros [->|H]; auto.
Qed.

Lemma firstn_sorted n l :
  StronglySorted score_ge l -> StronglySorted score_ge (firstn n l).
Proof.
  intros H. revert n. induction H as [|x l Hl IH Hx]; intros [|n]; simpl;
    try constructor; auto.
  apply Forall_forall. intros y Hy. apply firstn_In in Hy.
  rewrite Forall_forall in Hx. auto.
Qed.

Lemma vector_search_limit p docs :
  List.length (vector_search w p docs) <= limit p.
Proof. unfold vector_search. apply firstn_le_length. Qed.

Lemma vector_search_sorted p docs :
  StronglySorted score_ge (vector_search w p docs).
Proof.
  unfold vector_search. do 2 apply firstn_sorted. apply sort_desc_sorted.
Qed.

Lemma vector_search_from_store p docs r :
  In r (vector_search w p docs) ->
  exists d, In d docs /\ r = score_doc w (queryVector p) d (project_page_number p).
Proof.
  unfold vector_search. intros H. do 2 apply firstn_In in H.
  apply sort_desc_In, in_map_iff in H as (d & <- & Hd). eauto.
Qed.

(** A store of two documents whose scores are 0.91 and 0.77, in either
    order of storage. *)
Lemma vector_search_two p d1 d2 docs :
  (similarity w (queryVector p) (doc_embedding d1) == 91 # 100)%Q ->
  (similarity w (queryVector p) (doc_embedding d2) == 77 # 100)%Q ->
  docs = [d1; d2] \/ docs = [d2; d1] ->
  2 <= limit p -> 2 <= numCandidates p ->
  vector_search w p docs
  = [score_doc w (queryVector p) d1 (project_page_number p);
     score_doc w (queryVector p) d2 (project_page_number p)].
Proof.
  intros S1 S2 D L C. unfold vector_search.
  assert (E : sort_desc
                (map (fun d => score_doc w (queryVector p) d (project_page_number p)) docs)
              = [score_doc w (queryVector p) d1 (project_page_number p);
                 score_doc w (queryVector p) d2 (project_page_number p)]).
  { destruct D as [-> | ->]; simpl.
    - replace (Qle_bool _ _) with true; [reflexivity|].
      symmetry. apply Qle_bool_iff. rewrite S1, S2. discriminate.
    - replace (Qle_bool _ _) with false; [reflexivity|].
      symmetry. apply not_true_is_false. intros H. apply Qle_bool_iff in H.
      rewrite S1, S2 in H. now apply H. }
  rewrite E.
  destruct (numCandidates p) as [|[|c]]; try lia.
  destruct (limit p) as [|[|l]]; try lia.
  simpl. now rewrite !firstn_nil.
Qed.

(** [normalize_vector] divides only when the computed norm is positive. *)
Lemma normalize_vector_positive v :
  gt_0 w (np_linalg_norm w v) = true ->
  normalize_vector w v = map (fun x => np_divide w x (np_linalg_norm w v)) v.
Proof. unfold normalize_vector. now intros ->. Qed.

Lemma normalize_vector_unchanged v :
  gt_0 w (np_linalg_norm w v) = false -> normalize_vector w v = v.
Proof. unfold normalize_vector. now intros ->. Qed.

Lemma normalize_vector_length v :
  List.length (normalize_vector w v) = List.length v.
Proof.
  unfold normalize_vector. destruct (gt_0 w _); [apply length_map | reflexivity].
Qed.

Lemma normalize_vector_nonempty e : e <> [] -> normalize_vector w e <> [].
Proof.
  unfold normalize_vector. destruct e; [easy|].
  destruct (gt_0 w _); discriminate.
Qed.

Lemma vector_search_tool_success q s e :
  retrieval_succeeds g w q s e ->
  fst (vector_search_tool g w q s)
  = Ok (map key (vector_search w (pipeline (normalize_vector w e) true) (collection w))).
Proof.
  intros (U & P & N & V). unfold vector_search_tool, bind at 1.
  unfold log at 1. cbv beta iota. unfold try_except, bind at 1.
  rewrite (@generate_query_embedding_success q _ 200%Z e U); [|exact P|reflexivity].
  pose proof (normalize_vector_nonempty N) as N'.
  destruct (normalize_vector w e) as [|x v] eqn:E; [congruence|].
  unfold aggregate, bind, tick, called. simpl. rewrite V. reflexivity.
Qed.

End Retrieval.

(** C2. When the Embedding Provider is absent (no endpoint is
    configured), unreachable (the request raises) or answers with a
    status other than 200, [vector_search_tool] returns the empty list,
    and so does [complete_get_information_function]: neither raises. *)
Theorem retrieval_tool_provider_failure
    (num : Type) (g : Globals) (w : World num) (q : pystr) (s : State) :
  url_truthy (SERVERLESS_URL g) = false
  \/ embedding_provider w (clock s) q = HttpRaises
  \/ (exists status body,
        embedding_provider w (clock s) q = HttpResponse status body
        /\ status <> 200%Z) ->
  fst (vector_search_tool g w q s) = Ok []
  /\ fst (complete_get_information_function g w q s) = Ok [].
Proof.
  intros H. split.
  - unfold vector_search_tool, bind at 1. unfold log at 1. cbv beta iota.
    unfold try_except, bind.
    match goal with
    | |- context [generate_query_embedding g w q ?s1] =>
        pose proof (@generate_query_embedding_failure _ g w q s1 H) as F;
        destruct (generate_query_embedding g w q s1) as [o s2]
    end.
    simpl in F. subst o. reflexivity.
  - unfold complete_get_information_function, bind at 1. unfold log at 1.
    cbv beta iota. unfold try_except, bind, requests_post.
    destruct (SERVERLESS_URL g) as [[|c u]|]; try reflexivity.
    destruct H as [H|H]; [discriminate|].
    unfold bind, tick, log. simpl.
    destruct H as [-> | (status & body & -> & Hs)]; [reflexivity|].
    simpl. apply Z.eqb_neq in Hs. now rewrite Hs.
Qed.

(** C5. In numpy's [float64] the normalization step does not return a
    vector of Euclidean norm 1 for every non-zero vector. The square of
    [2.0 ** 600] overflows, the norm is computed as [inf], and
    [normalize_vector] returns [[0.0]], of norm 0; the square of
    [2.0 ** -600] underflows, the norm is computed as [0.0], and
    [normalize_vector] returns the vector unchanged, of norm
    [2.0 ** -600]. [generate_query_embedding] normalizes the same way
    and returns the same two embeddings. Where the magnitudes are
    moderate, as for [[2.0]], the step does normalize. *)
Theorem normalize_vector_not_unit_norm :
  let big := [Binary64.two_to_600] in
  let small := [Binary64.two_to_minus_600] in
  let s := {| clock := 0; trace := []; history_collection := [];
              default_images := [] |} in
  (Binary64.has_square_norm big (Qpower 2 1200) = true
   /\ normalize_vector (Binary64.world []) big = [Binary64.zero]
   /\ Binary64.has_square_norm (normalize_vector (Binary64.world []) big) 0 = true
   /\ Binary64.unit_norm (normalize_vector (Binary64.world []) big) = false)
  /\ (Binary64.has_square_norm small (Qpower 2 (-1200)) = true
      /\ normalize_vector (Binary64.world []) small = small
      /\ Binary64.unit_norm (normalize_vector (Binary64.world []) small) = false)
  /\ fst (generate_query_embedding Scenario.g (Binary64.world big)
            (py "Pass@1 accuracy AIME 2024") s)
     = Ok (Some [Binary64.zero])
  /\ fst (generate_query_embedding Scenario.g (Binary64.world small)
            (py "Pass@1 accuracy AIME 2024") s)
     = Ok (Some small)
  /\ (normalize_vector (Binary64.world []) [Binary64.two] = [Binary64.one]
      /\ Binary64.unit_norm (normalize_vector (Binary64.world []) [Binary64.two])
         = true).
Proof.
  cbv zeta. repeat split; vm_compute; reflexivity.
Qed.

(** C6. When retrieval succeeds, [vector_search_tool] returns the keys
    of a result list of the Vector Store that has at most two items, is
    ordered by descending similarity score and is made of documents of
    the store; with a store holding two documents whose scores are 0.91
    and 0.77, it returns both keys, the one scored 0.91 first. *)
Theorem retrieval_tool_top_2
    (num : Type) (g : Globals) (w : World num) (q : pystr) (s : State)
    (e : list num) :
  retrieval_succeeds g w q s e ->
  exists results : list ContextItem,
    fst (vector_search_tool g w q s) = Ok (map key results)
    /\ List.length results <= 2
    /\ StronglySorted score_ge results
    /\ (forall r, In r results ->
          exists d, In d (collection w) /\ key r = doc_key d
                    /\ score r = similarity w (normalize_vector w e) (doc_embedding d))
    /\ (forall d1 d2,
          collection w = [d1; d2] \/ collection w = [d2; d1] ->
          (similarity w (normalize_vector w e) (doc_embedding d1) == 91 # 100)%Q ->
          (similarity w (normalize_vector w e) (doc_embedding d2) == 77 # 100)%Q ->
          fst (vector_search_tool g w q s) = Ok [doc_key d1; doc_key d2]).
Proof.
  intros H.
  exists (vector_search w (pipeline (normalize_vector w e) true) (collection w)).
  split; [now apply vector_search_tool_success|].
  split; [apply (vector_search_limit w (pipeline (normalize_vector w e) true))|].
  split; [apply vector_search_sorted|]. split.
  - intros r Hr. apply vector_search_from_store in Hr as (d & Hd & ->).
    exists d. repeat split. exact Hd.
  - intros d1 d2 D S1 S2. rewrite (vector_search_tool_success H).
    rewrite (@vector_search_two _ w (pipeline (normalize_vector w e) true) d1 d2);
      simpl; auto; lia.
Qed.

(** ** The direct strategy: provider errors *)

(** C7, as the code has it. A run of [generate_answer] returns to its
    caller, with one tool-selection call and at most one generation call
    in its log (no call is repeated). If the generation call raised, the
    result is the apology. If the tool-selection call raised, the error
    was taken by [select_tool]'s own handler: the run made no retrieval
    call and went on to the generation call. *)
Theorem generate_answer_provider_errors
    (num : Type) (g : Globals) (w : World num)
    (user_query : pystr) (images : ImagesArg) (s : State) :
  exists (answer : option pystr) (s' : State) (evs : list Event),
    generate_answer g w user_query images s = (Ok answer, s')
    /\ trace s' = trace s ++ evs
    /\ count_select evs = 1
    /\ count_generate evs <= 1
    /\ (forall c, In (EvGenerate c LLMRaises) evs -> answer = Some apology)
    /\ (forall c, In (EvSelectTool c SelRaises) evs ->
          exists c' r, evs = [EvSelectTool c SelRaises; EvGenerate c' r]).
Proof.
  destruct (generate_answer_run g w user_query images s)
    as (answer & s' & csel & rsel & retr & E & F & N & [(T & A & tc & Hsel)|(cgen & rgen & T & A)]).
  - exists answer, s', (EvSelectTool csel rsel :: retr).
    split; [exact E|]. split; [exact T|].
    change (EvSelectTool csel rsel :: retr) with ([EvSelectTool csel rsel] ++ retr).
    rewrite count_select_app, count_generate_app,
      (count_select_retrieval F), (count_generate_retrieval F).
    repeat split; try reflexivity; try (simpl; lia); try (intros; exact A).
    intros c H. simpl in H. destruct H as [H|H]; [congruence|].
    now apply not_retrieval_select in H.
  - exists answer, s', (EvSelectTool csel rsel :: retr ++ [EvGenerate cgen rgen]).
    split; [exact E|]. split; [exact T|].
    change (EvSelectTool csel rsel :: retr ++ [EvGenerate cgen rgen])
      with ([EvSelectTool csel rsel] ++ retr ++ [EvGenerate cgen rgen]).
    rewrite !count_select_app, !count_generate_app,
      (count_select_retrieval F), (count_generate_retrieval F).
    repeat split; try reflexivity.
    + intros c H. simpl in H. destruct H as [H|H]; [discriminate|]. apply in_app_or in H as [H|[H|[]]].
      * now apply not_retrieval_generate in H.
      * injection H as _ Hr. rewrite Hr in A. exact A.
    + intros c H. simpl in H. destruct H as [H|H].
      * injection H as <- ->. rewrite (N eq_refl). now exists cgen, rgen.
      * apply in_app_or in H as [H|[H|[]]]; [|discriminate].
        now apply not_retrieval_select in H.
Qed.

(** ** Session Memory *)

Lemma pystr_eqb_eq (a b : pystr) : PyStr.eqb a b = true <-> a = b.
Proof.
  revert b; induction a as [|x a IH]; intros [|y b]; simpl; split; try easy.
  - intros H. apply andb_true_iff in H as [Hx Ha].
    apply N.eqb_eq in Hx. apply IH in Ha. now subst.
  - intros [= -> ->]. rewrite N.eqb_refl. now apply IH.
Qed.

Section Memory.

Variable num : Type.
Variable g : Globals.
Variable w : World num.

Lemma ignores_ret A (a : A) : ignores_history (ret a).
Proof. intros s h. reflexivity. Qed.

Lemma ignores_raise A e : ignores_history (@raise A e).
Proof. intros s h. reflexivity. Qed.

Lemma ignores_tick : ignores_history tick.
Proof. intros s h. reflexivity. Qed.

Lemma ignores_log e : ignores_history (log e).
Proof. intros s h. reflexivity. Qed.

Lemma ignores_get_default_images : ignores_history get_default_images.
Proof. intros s h. reflexivity. Qed.

Lemma ignores_put_default_images l : ignores_history (put_default_images l).
Proof. intros s h. reflexivity. Qed.

Lemma ignores_bind A B (m : M A) (f : A -> M B) :
  ignores_history m -> (forall a, ignores_history (f a)) ->
  ignores_history (bind m f).
Proof.
  intros Hm Hf s h. unfold bind. rewrite Hm.
  destruct (m s) as [[a|e] s1]; simpl; [apply Hf | reflexivity].
Qed.

Lemma ignores_try_except A (m : M A) (k : Exn -> M A) :
  ignores_history m -> (forall e, ignores_history (k e)) ->
  ignores_history (try_except m k).
Proof.
  intros Hm Hk s h. unfold try_except. rewrite Hm.
  destruct (m s) as [[a|e] s1]; simpl; [reflexivity | apply Hk].
Qed.

Ltac ignores_step :=
  first
    [ match goal with H : forall _, ignores_history _ |- _ => apply H end
    | match goal with H : forall _ _, ignores_history _ |- _ => apply H end
    | match goal with H : forall _ _ _, ignores_history _ |- _ => apply H end
    | apply ignores_ret | apply ignores_raise | apply ignores_tick
    | apply ignores_log | apply ignores_get_default_images
    | apply ignores_put_default_images
    | apply ignores_bind; [|intros ?]
    | apply ignores_try_except; [|intros ?]
    | match goal with
      | |- ignores_history (if ?b then _ else _) => destruct b
      | |- ignores_history (match ?x with _ => _ end) => destruct x
      end
    | progress cbv zeta ].

Ltac ignores_auto := repeat ignores_step.

Lemma vector_search_tool_ignores q : ignores_history (vector_search_tool g w q).
Proof.
  unfold vector_search_tool, generate_query_embedding, requests_post,
    json_embedding, aggregate.
  ignores_auto.
Qed.

Lemma select_tool_ignores messages : ignores_history (select_tool w messages).
Proof. unfold select_tool. ignores_auto. Qed.

Lemma generate_content_ignores contents : ignores_history (generate_content w contents).
Proof. unfold generate_content. ignores_auto. Qed.

Lemma use_tool_ignores images cur tc : ignores_history (use_tool g w images cur tc).
Proof.
  unfold use_tool, call_vector_search_tool, extend_images.
  pose proof vector_search_tool_ignores. ignores_auto.
Qed.

Lemma generate_answer_ignores q images :
  USE_MEMORY g = false -> ignores_history (generate_answer g w q images).
Proof.
  intros H. unfold generate_answer, remember_turn, read_images. rewrite H.
  pose proof select_tool_ignores. pose proof generate_content_ignores.
  pose proof use_tool_ignores. ignores_auto.
Qed.

(** *** The ReAct strategy *)

Lemma Path_exists_ignores p : ignores_history (Path_exists w p).
Proof. unfold Path_exists. ignores_auto. Qed.

Lemma Image_open_ignores p : ignores_history (Image_open w p).
Proof. unfold Image_open. ignores_auto. Qed.

Lemma new_image_ignores p : ignores_history (new_image w p).
Proof.
  unfold new_image. pose proof Path_exists_ignores. pose proof Image_open_ignores.
  ignores_auto.
Qed.

Lemma open_new_images_ignores l : ignores_history (open_new_images w l).
Proof.
  pose proof new_image_ignores.
  induction l as [|p l IH]; simpl; repeat (assumption || ignores_step).
Qed.

Lemma open_existing_ignores l : ignores_history (open_existing w l).
Proof.
  pose proof Path_exists_ignores. pose proof Image_open_ignores.
  induction l as [|p l IH]; simpl; repeat (assumption || ignores_step).
Qed.

Lemma react_decide_ignores info d : ignores_history (react_decide g w info d).
Proof.
  unfold react_decide, item_1. pose proof vector_search_tool_ignores.
  pose proof open_new_images_ignores. ignores_auto.
Qed.

Lemma react_iteration_ignores sp info : ignores_history (react_iteration g w sp info).
Proof.
  unfold react_iteration. pose proof generate_content_ignores.
  pose proof react_decide_ignores. ignores_auto.
Qed.

Lemma react_loop_ignores sp it info : ignores_history (react_loop g w sp it info).
Proof.
  intros s h. funelim (react_loop g w sp it info s).
  - simp react_loop. rewrite Heq. reflexivity.
  - simp react_loop. rewrite Heq0. simpl.
    rewrite react_iteration_ignores, Heq. reflexivity.
  - rewrite <- H. simp react_loop. rewrite Heq0. simpl.
    rewrite react_iteration_ignores, Heq. simpl. now simp react_loop.
  - simp react_loop. rewrite Heq0. simpl.
    rewrite react_iteration_ignores, Heq. reflexivity.
Qed.

Lemma generate_answer_react_ignores q images :
  ignores_history (generate_answer_react g w q images).
Proof.
  unfold generate_answer_react.
  pose proof open_existing_ignores. pose proof react_loop_ignores.
  ignores_auto.
Qed.

(** *** [clear_history] *)

Lemma filter_other_session sid sid' (h : list ChatMessage) :
  sid' <> sid ->
  filter (in_session sid') (filter (fun m => negb (in_session sid m)) h)
  = filter (in_session sid') h.
Proof.
  intros N. induction h as [|m h IH]; simpl; [reflexivity|].
  unfold in_session at 2 4. destruct (PyStr.eqb (session_id m) sid) eqn:E; simpl.
  - apply pystr_eqb_eq in E.
    destruct (in_session sid' m) eqn:E'; [|exact IH].
    apply pystr_eqb_eq in E'. congruence.
  - destruct (in_session sid' m); [f_equal|]; exact IH.
Qed.

Lemma filter_same_session sid (h : list ChatMessage) :
  filter (in_session sid) (filter (fun m => negb (in_session sid m)) h) = [].
Proof.
  induction h as [|m h IH]; simpl; [reflexivity|].
  destruct (in_session sid m) eqn:E; simpl; [exact IH|]. now rewrite E.
Qed.

Lemma filter_split_length (f : ChatMessage -> bool) (h : list ChatMessage) :
  List.length h
  = List.length (filter (fun m => negb (f m)) h) + List.length (filter f h).
Proof.
  induction h as [|m h IH]; simpl; [reflexivity|].
  destruct (f m); simpl; lia.
Qed.

End Memory.

(** C8. With Session Memory disabled, [store_chat_message] returns
    without touching anything, [retrieve_session_history] returns the
    empty list without touching anything, and a run of [generate_answer]
    over any History Store [h] gives the answer, the log, the clock and
    the images of the run over an empty History Store, and leaves [h] as
    it was. *)
Theorem memory_disabled_noop (num : Type) (g : Globals) (w : World num) :
  USE_MEMORY g = false ->
  (forall sid role message_type text s,
      store_chat_message g w sid role message_type text s = (Ok tt, s))
  /\ (forall sid s, retrieve_session_history g w sid s = (Ok [], s))
  /\ (forall user_query images s h,
        generate_answer g w user_query images (with_history s h)
        = (fst (generate_answer g w user_query images (with_history s [])),
           with_history
             (snd (generate_answer g w user_query images (with_history s []))) h)).
Proof.
  intros H. split; [|split].
  - intros. unfold store_chat_message. now rewrite H.
  - intros. unfold retrieve_session_history. now rewrite H.
  - intros q images s h.
    apply (generate_answer_ignores w q images H (with_history s []) h).
Qed.

(** C9, as the code has it. With Session Memory enabled and the History
    Store reachable, [clear_history] on a collection that holds [n]
    messages of the current session reports [n], removes exactly those
    [n] messages, leaves the messages of every other session as they
    were, and a following [retrieve_session_history] for the session
    returns the empty list. *)
Theorem clear_history_enabled
    (num : Type) (g : Globals) (w : World num) (s : State) :
  USE_MEMORY g = true ->
  history_up w (clock s) = true ->
  let n := List.length (filter (in_session (SESSION_ID g)) (history_collection s)) in
  exists s',
    clear_history g w s = (Ok (Cleared n), s')
    /\ List.length (history_collection s) = List.length (history_collection s') + n
    /\ filter (in_session (SESSION_ID g)) (history_collection s') = []
    /\ (forall sid, sid <> SESSION_ID g ->
          filter (in_session sid) (history_collection s')
          = filter (in_session sid) (history_collection s))
    /\ fst (retrieve_session_history g w (SESSION_ID g) s') = Ok [].
Proof.
  intros M U n. unfold clear_history. rewrite M. simpl.
  unfold try_except, bind, tick. simpl. rewrite U. simpl.
  eexists. split; [reflexivity|]. simpl.
  change (fun m => negb (PyStr.eqb (session_id m) (SESSION_ID g)))
    with (fun m => negb (in_session (SESSION_ID g) m)).
  split; [apply filter_split_length|].
  split; [apply filter_same_session|].
  split; [intros sid N; now apply filter_other_session|].
  unfold retrieve_session_history. rewrite M. simpl.
  unfold try_except, bind, tick. simpl.
  destruct (history_up w (S (clock s))); [|reflexivity]. simpl.
  unfold find_session.
  change (fun m => PyStr.eqb (session_id m) (SESSION_ID g))
    with (in_session (SESSION_ID g)).
  now rewrite filter_same_session.
Qed.

Example scenario_search :
  fst (vector_search_tool Scenario.g Scenario.w Scenario.question Scenario.s0)
  = Ok [py "data/images/1.png"; py "data/images/2.png"].
Proof. vm_compute. reflexivity. Qed.

(** No endpoint is configured: both retrieval functions return the empty
    list, and nothing is sent. *)
Example scenario_no_endpoint :
  vector_search_tool Scenario.g_no_endpoint Scenario.w Scenario.question Scenario.s0
  = (Ok [], {| clock := 0; trace := [EvToolCall Scenario.question];
               history_collection := []; default_images := [] |})
  /\ fst (complete_get_information_function Scenario.g_no_endpoint Scenario.w
            Scenario.question Scenario.s0) = Ok [].
Proof. vm_compute. repeat split. Qed.

(** The Embedding Provider answers 500: the direct strategy goes on to
    the generation call with no image. *)
Example scenario_http_500 :
  let run := generate_answer Scenario.g Scenario.w_500 Scenario.question
               DefaultImages Scenario.s0 in
  fst run = Ok (Some (py "79.8%"))
  /\ generated_images (trace (snd run)) = []
  /\ retrieved_keys (trace (snd run)) = [].
Proof. vm_compute. repeat split. Qed.

(** The generation call raises: the direct strategy returns the apology. *)
Example scenario_generation_error :
  fst (generate_answer Scenario.g
         (Scenario.world Scenario.select_once (fun _ _ => LLMRaises))
         Scenario.question DefaultImages Scenario.s0)
  = Ok (Some apology).
Proof. vm_compute. reflexivity. Qed.

(** The model never decides: the loop stops after three iterations. *)
Example scenario_react_exhausted :
  let run := generate_answer_react Scenario.g
               (Scenario.world Scenario.select_once
                  (fun _ _ => LLMResponse (Some (py "Let me think."))))
               Scenario.question [] Scenario.s0 in
  fst run = Ok no_definitive_answer /\ count_generate (trace (snd run)) = 3.
Proof. vm_compute. repeat split. Qed.

(** With Session Memory enabled a turn stores the question, the images
    and the answer, and [clear_history] then removes them. *)
Example scenario_memory :
  let w := Scenario.world (fun _ _ => SelResponse (Some Scenario.search_call))
             Scenario.answer_79_8 in
  let turn := generate_answer Scenario.g_memory w Scenario.question
                DefaultImages Scenario.s0 in
  let cleared := clear_history Scenario.g_memory w (snd turn) in
  map type (history_collection (snd turn))
  = [py "text"; py "image"; py "image"; py "text"]
  /\ fst cleared = Ok (Cleared 4)
  /\ history_collection (snd cleared) = [].
Proof. vm_compute. repeat split. Qed.

Example scenario_react :
  fst (generate_answer_react Scenario.g
         (Scenario.world Scenario.select_once Scenario.tool_then_answer)
         Scenario.question [] Scenario.s0)
  = Ok (py "79.8%").
Proof. vm_compute. reflexivity. Qed.

(** ** Where the context of a turn comes from *)

Section Context.

Variable num : Type.
Variable g : Globals.
Variable w : World num.

Lemma retrieved_keys_app a b :
  retrieved_keys (a ++ b) = retrieved_keys a ++ retrieved_keys b.
Proof. unfold retrieved_keys. apply flat_map_app. Qed.

Lemma generated_images_app a b :
  generated_images (a ++ b) = generated_images a ++ generated_images b.
Proof. unfold generated_images. apply flat_map_app. Qed.

Lemma generated_images_retrieval evs :
  Forall is_retrieval evs -> generated_images evs = [].
Proof.
  induction 1 as [|e evs He _ IH]; [reflexivity|].
  destruct e; simpl in *; tauto.
Qed.

(** The keys the tool returns are keys the Vector Store returned during
    the call. *)
Lemma vector_search_tool_keys q s :
  exists keys s' evs,
    vector_search_tool g w q s = (Ok keys, s')
    /\ trace s' = trace s ++ evs
    /\ Forall is_retrieval evs
    /\ incl keys (retrieved_keys evs).
Proof.
  assert (R : forall (l : list Event), Forall is_retrieval l ->
              forall keys, incl keys (retrieved_keys l) ->
              forall o s1, o = Ok keys -> trace s1 = trace s ++ l ->
              exists keys' s' evs,
                (o, s1) = (Ok keys', s') /\ trace s' = trace s ++ evs
                /\ Forall is_retrieval evs /\ incl keys' (retrieved_keys evs)).
  { intros l F keys I o s1 -> T. exists keys, s1, l. auto. }
  unfold vector_search_tool, generate_query_embedding, requests_post,
    json_embedding, aggregate, try_except, bind, tick, log.
  simpl.
  destruct (SERVERLESS_URL g) as [[|c u]|]; simpl;
    try (eapply (R [EvToolCall q]); simpl;
         [repeat constructor | apply incl_nil_l | reflexivity | reflexivity]).
  destruct (embedding_provider w (clock s) q) as [|status [e|]]; simpl;
    try destruct (status =? 200)%Z; simpl;
    try (eapply (R [EvToolCall q; EvEmbedding q]); simpl;
         [repeat constructor | apply incl_nil_l | reflexivity
         | rewrite <- app_assoc; reflexivity]).
  destruct (if gt_0 w (np_linalg_norm w e)
            then map (fun x => np_divide w x (np_linalg_norm w e)) e else e)
    as [|x v]; simpl.
  { eapply (R [EvToolCall q; EvEmbedding q]); simpl;
      [repeat constructor | apply incl_nil_l | reflexivity
      | rewrite <- app_assoc; reflexivity]. }
  destruct (vector_store_up w (S (clock s))); simpl.
  - eapply (R [EvToolCall q; EvEmbedding q; EvAggregate (Some _)]); simpl;
      [repeat constructor | rewrite app_nil_r; apply incl_refl | reflexivity
      | rewrite <- !app_assoc; reflexivity].
  - eapply (R [EvToolCall q; EvEmbedding q; EvAggregate None]); simpl;
      [repeat constructor | apply incl_nil_l | reflexivity
      | rewrite <- !app_assoc; reflexivity].
Qed.

Lemma turn_events_app (s s' : State) evs :
  trace s' = trace s ++ evs -> turn_events s s' = evs.
Proof.
  unfold turn_events. intros ->. induction (trace s); simpl; auto.
Qed.

Lemma image_paths_valid (cur : list pystr) :
  incl (image_paths (flat_map (valid_image w) cur)) cur.
Proof.
  induction cur as [|p cur IH]; simpl; [apply incl_refl|].
  unfold image_paths in *. rewrite flat_map_app. apply incl_app.
  - unfold valid_image.
    destruct (path_exists w p); [destruct (image_readable w p)|]; simpl;
      try apply incl_nil_l.
    intros x [<-|[]]. now left.
  - now apply incl_tl.
Qed.

(** What the [if tool_call ...] block adds to [images] are keys the Vector
    Store returned during the block. *)
Lemma use_tool_keys images cur tc s :
  exists evs,
    trace (snd (use_tool g w images cur tc s)) = trace s ++ evs
    /\ Forall is_retrieval evs
    /\ forall cur', fst (use_tool g w images cur tc s) = Ok cur' ->
                    incl cur' (cur ++ retrieved_keys evs).
Proof.
  assert (Z : exists evs,
             trace s = trace s ++ evs /\ Forall is_retrieval evs
             /\ forall cur', Ok cur = Ok cur' ->
                             incl cur' (cur ++ retrieved_keys evs)).
  { exists []. rewrite app_nil_r. repeat split; [constructor|].
    intros cur' [= <-]. simpl. rewrite app_nil_r. apply incl_refl. }
  assert (Z' : forall e : Exn, exists evs,
             trace s = trace s ++ evs /\ Forall is_retrieval evs
             /\ forall cur', @Raise (list pystr) e = Ok cur' ->
                             incl cur' (cur ++ retrieved_keys evs)).
  { intros e. exists []. rewrite app_nil_r. repeat split; [constructor|].
    discriminate. }
  unfold use_tool. destruct tc as [tc|]; [|exact Z].
  destruct (PyStr.eqb (name tc) _); [|exact Z].
  unfold call_vector_search_tool, bind.
  destruct (args tc) as [|[k v] [|? ?]]; try apply Z'.
  destruct (PyStr.eqb k _); [|apply Z'].
  destruct (vector_search_tool_keys v s) as (keys & s1 & evs & E & T & F & I).
  rewrite E. exists evs.
  assert (X : forall r, fst r = Ok (cur ++ keys) -> trace (snd r) = trace s1 ->
                        trace (snd r) = trace s ++ evs /\ Forall is_retrieval evs /\
                        forall cur', fst r = Ok cur' ->
                                     incl cur' (cur ++ retrieved_keys evs)).
  { intros r Hr Ht. rewrite Ht. repeat split; auto.
    intros cur' Hc. rewrite Hr in Hc. injection Hc as <-.
    apply incl_app; [apply incl_appl, incl_refl | now apply incl_appr]. }
  destruct images; apply X; reflexivity.
Qed.

(** With Session Memory disabled, every image handed to the generation
    call of a turn was returned by the Vector Store in that turn or was
    in the [images] list when the turn began. *)
Lemma generate_answer_context q images s :
  USE_MEMORY g = false ->
  let initial := match images with
                 | DefaultImages => default_images s
                 | CallerImages l => l
                 end in
  let evs := turn_events s (snd (generate_answer g w q images s)) in
  incl (generated_images evs) (initial ++ retrieved_keys evs).
Proof.
  intros H initial evs. subst evs.
  cut (exists evs,
         trace (snd (generate_answer g w q images s)) = trace s ++ evs
         /\ incl (generated_images evs) (initial ++ retrieved_keys evs)).
  { intros (evs & T & I). now rewrite (turn_events_app T). }
  unfold generate_answer, try_except, bind, remember_turn. rewrite H.
  unfold ret at 1. rewrite select_tool_run.
  set (csel := [CText select_tool_prompt] ++ messages_for_tool [] q).
  set (rsel := gemini_select w (clock s) csel).
  set (s2 := called s (EvSelectTool csel rsel)).
  set (tc := match rsel with SelRaises => None | SelResponse fc => fc end).
  assert (R : read_images images s2 = (Ok initial, s2)).
  { subst initial. destruct images; reflexivity. }
  rewrite R.
  destruct (use_tool_keys images initial tc s2) as (retr & T & F & I).
  destruct (use_tool g w images initial tc s2) as [[cur'|e] s3]; simpl in T, I.
  - rewrite generate_content_run.
    set (cgen := answer_contents w [] q cur').
    set (rgen := gemini_generate w (clock s3) cgen).
    exists ([EvSelectTool csel rsel] ++ retr ++ [EvGenerate cgen rgen]). split.
    + destruct rgen; simpl; rewrite T; subst s2; simpl;
        now rewrite <- !app_assoc.
    + rewrite !generated_images_app, !retrieved_keys_app.
      rewrite (generated_images_retrieval F). simpl. rewrite !app_nil_r.
      subst cgen. unfold answer_contents. simpl.
      intros x Hx. apply image_paths_valid in Hx. exact (I cur' eq_refl x Hx).
  - exists ([EvSelectTool csel rsel] ++ retr). split.
    + simpl. rewrite T. subst s2. simpl. now rewrite <- !app_assoc.
    + rewrite generated_images_app, (generated_images_retrieval F). simpl.
      apply incl_nil_l.
Qed.

(** So a turn that starts from an empty [images] list keeps the
    invariant of the data model. *)
Lemma generate_answer_fresh_images q images s :
  USE_MEMORY g = false ->
  images = CallerImages [] \/ (images = DefaultImages /\ default_images s = []) ->
  context_from_this_turn
    (turn_events s (snd (generate_answer g w q images s))).
Proof.
  intros H I. pose proof (@generate_answer_context q images s H) as C.
  unfold context_from_this_turn.
  destruct I as [-> | [-> E]]; simpl in C; [|rewrite E in C]; exact C.
Qed.

End Context.

(** ** The claims at the concrete deployment *)

Lemma retrieval_tool_provider_failure_witness :
  fst (vector_search_tool Scenario.g Scenario.w_500 Scenario.question Scenario.s0)
  = Ok []
  /\ fst (complete_get_information_function Scenario.g Scenario.w_500
            Scenario.question Scenario.s0) = Ok [].
Proof.
  apply retrieval_tool_provider_failure. right. right.
  exists 500%Z, None. split; [reflexivity | discriminate].
Defined.

Lemma generate_answer_react_answer_marker_witness :
  let run := generate_answer_react Scenario.g
               (Scenario.world Scenario.select_once Scenario.tool_then_answer)
               Scenario.question [] Scenario.s0 in
  exists before after answer,
    first_occurrence ANSWER (py "Enough. ANSWER:  79.8% ") before after
    /\ stripped after answer
    /\ fst run = Ok answer
    /\ skipn 5 (trace (snd run)) = [].
Proof.
  intros run.
  apply (@generate_answer_react_answer_marker Q Scenario.g
           (Scenario.world Scenario.select_once Scenario.tool_then_answer)
           Scenario.question [] Scenario.s0
           (firstn 4 (trace (snd run))) (skipn 5 (trace (snd run)))
           (match nth_error (trace (snd run)) 4 with
            | Some (EvGenerate c _) => c
            | _ => []
            end)
           (py "Enough. ANSWER:  79.8% ")).
  - vm_compute. reflexivity.
  - vm_compute. reflexivity.
Defined.

Lemma retrieval_tool_top_2_witness :
  (exists results : list ContextItem,
      fst (vector_search_tool Scenario.g Scenario.w Scenario.question Scenario.s0)
      = Ok (map key results)
      /\ List.length results <= 2
      /\ StronglySorted score_ge results)
  /\ fst (vector_search_tool Scenario.g Scenario.w Scenario.question Scenario.s0)
     = Ok [py "data/images/1.png"; py "data/images/2.png"].
Proof.
  destruct (@retrieval_tool_top_2 Q Scenario.g Scenario.w Scenario.question
              Scenario.s0 [3; 4]%Q) as (results & R & L & S & _ & Two).
  - repeat split; try reflexivity. discriminate.
  - split; [exists results; auto|].
    apply (Two Scenario.page_1 Scenario.page_2).
    + right. reflexivity.
    + vm_compute. reflexivity.
    + vm_compute. reflexivity.
Defined.

Lemma memory_disabled_noop_witness :
  let run := generate_answer Scenario.g Scenario.w Scenario.question DefaultImages
               (with_history Scenario.s0 []) in
  generate_answer Scenario.g Scenario.w Scenario.question DefaultImages
    (with_history Scenario.s0 Scenario.stored)
  = (fst run, with_history (snd run) Scenario.stored).
Proof.
  intros run.
  apply (proj2 (proj2 (@memory_disabled_noop Q Scenario.g Scenario.w eq_refl))).
Defined.

Lemma clear_history_enabled_witness :
  exists s',
    clear_history Scenario.g_memory Scenario.w
      (with_history Scenario.s0 Scenario.stored) = (Ok (Cleared 2), s')
    /\ List.length Scenario.stored = List.length (history_collection s') + 2
    /\ fst (retrieve_session_history Scenario.g_memory Scenario.w
              (py "a1b2c3d4") s') = Ok [].
Proof.
  destruct (@clear_history_enabled Q Scenario.g_memory Scenario.w
              (with_history Scenario.s0 Scenario.stored) eq_refl eq_refl)
    as (s' & C & L & _ & _ & H).
  exists s'. repeat split; assumption.
Defined.


(** C7 as the spec states it fails where the provider error is in the
    tool-selection call: [select_tool] takes the error, and the run
    returns the generated text, not the apology. *)
Lemma generate_answer_select_error_counterexample :
  let run := generate_answer Scenario.g
               (Scenario.world (fun _ _ => SelRaises) Scenario.answer_79_8)
               Scenario.question DefaultImages Scenario.s0 in
  (exists c, In (EvSelectTool c SelRaises) (trace (snd run)))
  /\ fst run = Ok (Some (py "79.8%"))
  /\ fst run <> Ok (Some apology).
Proof.
  vm_compute. split; [|split].
  - eexists. left. reflexivity.
  - reflexivity.
  - discriminate.
Qed.

(** C9 as the spec states it fails with Session Memory disabled:
    [clear_history] returns at its guard, and the message of the session
    stays in the History Store. *)
Lemma clear_history_disabled_counterexample :
  let s := with_history Scenario.s0 Scenario.stored in
  List.length (filter (in_session (SESSION_ID Scenario.g)) (history_collection s)) = 2
  /\ clear_history Scenario.g Scenario.w s = (Ok MemoryNotEnabled, s)
  /\ fst (clear_history Scenario.g Scenario.w s) <> Ok (Cleared 2).
Proof.
  vm_compute. repeat split. discriminate.
Qed.

(** C3 fails on two consecutive turns that omit [images], as [main]
    calls [generate_answer]: the keys the first turn retrieved stay in
    the default list, and the second turn, which makes no Vector Store
    call and runs with Session Memory disabled, hands their images to
    the LLM Provider. *)
Theorem generate_answer_reuses_earlier_images :
  let turn_1 := generate_answer Scenario.g Scenario.w Scenario.question
                  DefaultImages Scenario.s0 in
  let turn_2 := generate_answer Scenario.g Scenario.w (py "And on MATH-500?")
                  DefaultImages (snd turn_1) in
  let evs_1 := turn_events Scenario.s0 (snd turn_1) in
  let evs_2 := turn_events (snd turn_1) (snd turn_2) in
  USE_MEMORY Scenario.g = false
  /\ context_from_this_turn evs_1
  /\ retrieved_keys evs_2 = []
  /\ generated_images evs_2 = [py "data/images/1.png"; py "data/images/2.png"]
  /\ ~ context_from_this_turn evs_2.
Proof.
  vm_compute. split; [reflexivity|]. split; [|split; [reflexivity|split; [reflexivity|]]].
  - intros x H. exact H.
  - intros H. apply (H _ (or_introl eq_refl)).
Qed.

(** * Further properties of the orchestration code *)

(** ** Relations kept by every step *)

Section Steps.

Variable R : State -> State -> Prop.
Hypothesis R_refl : forall s, R s s.
Hypothesis R_trans : forall a b c, R a b -> R b c -> R a c.

Lemma steps_ret A (a : A) : steps R (ret a).
Proof. intros s. apply R_refl. Qed.

Lemma steps_raise A e : steps R (@raise A e).
Proof. intros s. apply R_refl. Qed.

Lemma steps_bind A B (m : M A) (f : A -> M B) :
  steps R m -> (forall a, steps R (f a)) -> steps R (bind m f).
Proof.
  intros Hm Hf s. unfold bind. specialize (Hm s).
  destruct (m s) as [[a|e] s1]; simpl in *; [|exact Hm].
  eapply R_trans; [exact Hm | apply Hf].
Qed.

Lemma steps_try_except A (m : M A) (h : Exn -> M A) :
  steps R m -> (forall e, steps R (h e)) -> steps R (try_except m h).
Proof.
  intros Hm Hh s. unfold try_except. specialize (Hm s).
  destruct (m s) as [[a|e] s1]; simpl in *; [exact Hm|].
  eapply R_trans; [exact Hm | apply Hh].
Qed.

End Steps.

Lemma same_memory_refl s : same_memory s s.
Proof. split; reflexivity. Qed.

Lemma same_memory_trans a b c : same_memory a b -> same_memory b c -> same_memory a c.
Proof. intros [H1 D1] [H2 D2]. split; congruence. Qed.

Lemma history_appended_refl sid s : history_appended sid s s.
Proof. exists []. split; [now rewrite app_nil_r | constructor]. Qed.

Lemma history_appended_trans sid a b c :
  history_appended sid a b -> history_appended sid b c -> history_appended sid a c.
Proof.
  intros (x & Hx & Fx) (y & Hy & Fy). exists (x ++ y). split.
  - now rewrite Hy, Hx, app_assoc.
  - now apply Forall_app.
Qed.

Lemma same_memory_appended sid s s' : same_memory s s' -> history_appended sid s s'.
Proof.
  intros [H _]. exists []. split; [now rewrite app_nil_r | constructor].
Qed.

(** A tactic that walks through a computation built from the monad's
    operations, for a relation [R] that is reflexive ([Hr]) and
    transitive ([Ht]); steps already known are taken from the context. *)
Ltac steps_with Hr Ht :=
  repeat first
    [ match goal with H : forall _, steps _ _ |- _ => apply H end
    | match goal with H : forall _ _, steps _ _ |- _ => apply H end
    | match goal with H : forall _ _ _, steps _ _ |- _ => apply H end
    | match goal with H : forall _ _ _ _, steps _ _ |- _ => apply H end
    | match goal with H : steps _ ?m |- steps _ ?m => exact H end
    | apply (steps_ret Hr)
    | apply (steps_raise Hr)
    | apply (steps_bind Ht); [|intros ?]
    | apply (steps_try_except Ht); [|intros ?]
    | match goal with
      | |- steps _ (if ?b then _ else _) => destruct b
      | |- steps _ (match ?x with _ => _ end) => destruct x
      end
    | progress cbv zeta ].

Section MemoryFrames.

Variable num : Type.
Variable g : Globals.
Variable w : World num.

Lemma tick_same_memory : steps same_memory tick.
Proof. intros s. split; reflexivity. Qed.

Lemma log_same_memory e : steps same_memory (log e).
Proof. intros s. split; reflexivity. Qed.

Lemma get_history_same_memory : steps same_memory get_history.
Proof. intros s. split; reflexivity. Qed.

Lemma get_default_images_same_memory : steps same_memory get_default_images.
Proof. intros s. split; reflexivity. Qed.

Ltac same_memory_auto :=
  pose proof tick_same_memory; pose proof log_same_memory;
  pose proof get_history_same_memory; pose proof get_default_images_same_memory;
  steps_with same_memory_refl same_memory_trans.

Lemma vector_search_tool_same_memory q : steps same_memory (vector_search_tool g w q).
Proof.
  unfold vector_search_tool, generate_query_embedding, requests_post,
    json_embedding, aggregate.
  same_memory_auto.
Qed.

Lemma generate_content_same_memory c : steps same_memory (generate_content w c).
Proof. unfold generate_content. same_memory_auto. Qed.

Lemma select_tool_same_memory msgs : steps same_memory (select_tool w msgs).
Proof. unfold select_tool. same_memory_auto. Qed.

Lemma retrieve_session_history_same_memory sid :
  steps same_memory (retrieve_session_history g w sid).
Proof. unfold retrieve_session_history. same_memory_auto. Qed.

(** Looking at files changes nothing, whatever relation is asked
    for. *)
Lemma Path_exists_steps (R : State -> State -> Prop) p :
  (forall s, R s s) -> steps R (Path_exists w p).
Proof.
  intros Hr. unfold Path_exists.
  destruct (path_exists_raises w p); [apply (steps_raise Hr) | apply (steps_ret Hr)].
Qed.

Lemma Image_open_steps (R : State -> State -> Prop) p :
  (forall s, R s s) -> steps R (Image_open w p).
Proof.
  intros Hr. unfold Image_open.
  destruct (path_exists w p && image_readable w p);
    [apply (steps_ret Hr) | apply (steps_raise Hr)].
Qed.

Lemma new_image_steps (R : State -> State -> Prop) p :
  (forall s, R s s) -> (forall a b c, R a b -> R b c -> R a c) ->
  steps R (new_image w p).
Proof.
  intros Hr Ht. unfold new_image.
  pose proof (Path_exists_steps p Hr). pose proof (Image_open_steps p Hr).
  steps_with Hr Ht.
Qed.

Lemma open_new_images_steps (R : State -> State -> Prop) l :
  (forall s, R s s) -> (forall a b c, R a b -> R b c -> R a c) ->
  steps R (open_new_images w l).
Proof.
  intros Hr Ht. pose proof (fun p => new_image_steps p Hr Ht).
  induction l as [|p l IH]; simpl; steps_with Hr Ht.
Qed.

Lemma open_existing_steps (R : State -> State -> Prop) images :
  (forall s, R s s) -> (forall a b c, R a b -> R b c -> R a c) ->
  steps R (open_existing w images).
Proof.
  intros Hr Ht. pose proof (fun p => Path_exists_steps p Hr).
  pose proof (fun p => Image_open_steps p Hr).
  induction images as [|img rest IH]; simpl; steps_with Hr Ht.
Qed.

Lemma open_existing_same_memory images : steps same_memory (open_existing w images).
Proof. apply open_existing_steps; [apply same_memory_refl | apply same_memory_trans]. Qed.

Lemma react_decide_same_memory info d : steps same_memory (react_decide g w info d).
Proof.
  unfold react_decide, item_1. pose proof vector_search_tool_same_memory.
  pose proof (fun l => open_new_images_steps l same_memory_refl same_memory_trans).
  same_memory_auto.
Qed.

Lemma react_iteration_same_memory sp info :
  steps same_memory (react_iteration g w sp info).
Proof.
  unfold react_iteration.
  pose proof generate_content_same_memory. pose proof react_decide_same_memory.
  same_memory_auto.
Qed.

Lemma react_loop_same_memory sp it info :
  steps same_memory (react_loop g w sp it info).
Proof.
  intros s. funelim (react_loop g w sp it info s).
  - apply same_memory_refl.
  - pose proof (react_iteration_same_memory system_prompt current_information s) as H.
    now rewrite Heq in H.
  - pose proof (react_iteration_same_memory system_prompt current_information s) as H'.
    rewrite Heq in H'. simpl in H'. eapply same_memory_trans; eauto.
  - pose proof (react_iteration_same_memory system_prompt current_information s) as H.
    now rewrite Heq in H.
Qed.

End MemoryFrames.

(** ** The globals the ReAct strategy reads *)

Section ReactGlobals.

Variable num : Type.
Variables g g' : Globals.
Variable w : World num.
Hypothesis same_url : SERVERLESS_URL g' = SERVERLESS_URL g.

Lemma vector_search_tool_globals q :
  vector_search_tool g' w q = vector_search_tool g w q.
Proof.
  unfold vector_search_tool, generate_query_embedding.
  now rewrite same_url.
Qed.

Lemma bind_globals A B (m : M A) (f f' : A -> M B) s :
  (forall a s1, f' a s1 = f a s1) -> bind m f' s = bind m f s.
Proof.
  intros H. unfold bind. destruct (m s) as [[a|e] s1]; [apply H | reflexivity].
Qed.

Lemma react_decide_globals info d s :
  react_decide g' w info d s = react_decide g w info d s.
Proof.
  unfold react_decide.
  destruct (PyStr.contains ANSWER d); [reflexivity|].
  destruct (PyStr.contains TOOL d); [|reflexivity].
  apply bind_globals. intros after s1.
  now rewrite vector_search_tool_globals.
Qed.

Lemma react_iteration_globals sp info s :
  react_iteration g' w sp info s = react_iteration g w sp info s.
Proof.
  unfold react_iteration.
  apply bind_globals. intros response s1.
  apply bind_globals. intros d s2.
  apply react_decide_globals.
Qed.

Lemma react_loop_globals sp it info s :
  react_loop g' w sp it info s = react_loop g w sp it info s.
Proof.
  funelim (react_loop g w sp it info s).
  - simp react_loop. rewrite Heq. reflexivity.
  - simp react_loop. rewrite Heq0. simpl.
    rewrite react_iteration_globals, Heq. reflexivity.
  - rewrite <- H. simp react_loop. rewrite Heq0. simpl.
    rewrite react_iteration_globals, Heq. simpl. now simp react_loop.
  - simp react_loop. rewrite Heq0. simpl.
    rewrite react_iteration_globals, Heq. reflexivity.
Qed.

Lemma generate_answer_react_globals q images s :
  generate_answer_react g' w q images s = generate_answer_react g w q images s.
Proof.
  unfold generate_answer_react, try_except. cbv zeta.
  match goal with
  | |- match ?x with _ => _ end = match ?y with _ => _ end =>
      replace x with y; [reflexivity|]
  end.
  symmetry. apply bind_globals. intros info s1. apply react_loop_globals.
Qed.

End ReactGlobals.

(** X1. [generate_answer_react] neither reads nor writes Session Memory.
    A run leaves the history collection and the default [images] list
    of the direct strategy as they were; what it returns and everything
    else it does is the same whatever the history collection holds; and
    of the globals it reads [SERVERLESS_URL] only, so that it runs the
    same whatever [USE_MEMORY] and [SESSION_ID] are. *)
Theorem generate_answer_react_keeps_memory
    (num : Type) (g : Globals) (w : World num)
    (user_query : pystr) (images : list pystr) (s : State) :
  let run := generate_answer_react g w user_query images s in
  (history_collection (snd run) = history_collection s
   /\ default_images (snd run) = default_images s)
  /\ (forall h,
        generate_answer_react g w user_query images (with_history s h)
        = (fst run, with_history (snd run) h))
  /\ (forall use_memory session_id,
        generate_answer_react
          {| SERVERLESS_URL := SERVERLESS_URL g; USE_MEMORY := use_memory;
             SESSION_ID := session_id |} w user_query images s
        = run).
Proof.
  assert (H : steps same_memory (generate_answer_react g w user_query images)).
  { unfold generate_answer_react.
    pose proof (open_existing_same_memory w).
    pose proof (react_loop_same_memory g w).
    steps_with same_memory_refl same_memory_trans. }
  cbv zeta. split; [exact (H s)|]. split.
  - intros h. apply generate_answer_react_ignores.
  - intros use_memory session_id. now apply generate_answer_react_globals.
Qed.

(** ** What a turn of the direct strategy writes to the History Store *)

Section HistoryWrites.

Variable num : Type.
Variable g : Globals.
Variable w : World num.

Lemma tick_appended sid : steps (history_appended sid) tick.
Proof. intros s. apply same_memory_appended, tick_same_memory. Qed.

Lemma log_appended sid e : steps (history_appended sid) (log e).
Proof. intros s. apply same_memory_appended, log_same_memory. Qed.

Lemma store_chat_message_appended sid r t c :
  steps (history_appended sid) (store_chat_message g w sid r t c).
Proof.
  intros s. unfold store_chat_message.
  destruct (negb (USE_MEMORY g)); [apply history_appended_refl|].
  unfold try_except, bind, tick. simpl.
  destruct (history_up w (clock s)); simpl.
  - eexists. split; [reflexivity|]. repeat constructor.
  - exists []. simpl. rewrite app_nil_r. split; [reflexivity | constructor].
Qed.

Lemma store_images_appended l :
  steps (history_appended (SESSION_ID g)) (store_images g w l).
Proof.
  pose proof store_chat_message_appended.
  induction l as [|p l IH]; simpl;
    steps_with (history_appended_refl (SESSION_ID g))
               (@history_appended_trans (SESSION_ID g)).
Qed.

Lemma remember_turn_appended q cur a :
  steps (history_appended (SESSION_ID g)) (remember_turn g w q cur a).
Proof.
  unfold remember_turn.
  pose proof store_chat_message_appended. pose proof store_images_appended.
  steps_with (history_appended_refl (SESSION_ID g))
             (@history_appended_trans (SESSION_ID g)).
Qed.

Lemma lift_same_memory A (m : M A) sid :
  steps same_memory m -> steps (history_appended sid) m.
Proof. intros H s. apply same_memory_appended, H. Qed.

Lemma use_tool_same_history images cur tc sid :
  steps (history_appended sid) (use_tool g w images cur tc).
Proof.
  unfold use_tool, call_vector_search_tool, extend_images.
  pose proof (fun q => lift_same_memory sid (vector_search_tool_same_memory g w q)) as V.
  assert (P : forall l, steps (history_appended sid) (put_default_images l)).
  { intros l s. exists []. simpl. rewrite app_nil_r. split; [reflexivity | constructor]. }
  steps_with (history_appended_refl sid) (@history_appended_trans sid).
Qed.

Lemma use_tool_keeps_history images cur tc s :
  history_collection (snd (use_tool g w images cur tc s)) = history_collection s.
Proof.
  assert (H : steps (fun a b => history_collection b = history_collection a)
                (use_tool g w images cur tc)).
  { assert (Hr : forall a : State, history_collection a = history_collection a)
      by reflexivity.
    assert (Ht : forall a b c : State,
               history_collection b = history_collection a ->
               history_collection c = history_collection b ->
               history_collection c = history_collection a) by congruence.
    unfold use_tool, call_vector_search_tool, extend_images.
    assert (V : forall q, steps (fun a b => history_collection b = history_collection a)
                            (vector_search_tool g w q)).
    { intros q a. apply (vector_search_tool_same_memory g w q a). }
    assert (P : forall l, steps (fun a b => history_collection b = history_collection a)
                            (put_default_images l)).
    { intros l a. reflexivity. }
    steps_with Hr Ht. }
  exact (H s).
Qed.

Lemma generate_answer_appended q images :
  steps (history_appended (SESSION_ID g)) (generate_answer g w q images).
Proof.
  unfold generate_answer, read_images.
  pose proof (lift_same_memory (SESSION_ID g)
                (retrieve_session_history_same_memory g w (SESSION_ID g))) as H1.
  pose proof (fun m => lift_same_memory (SESSION_ID g) (select_tool_same_memory w m)) as H2.
  pose proof (fun c => lift_same_memory (SESSION_ID g) (generate_content_same_memory w c)) as H3.
  pose proof (lift_same_memory (SESSION_ID g) get_default_images_same_memory) as H4.
  pose proof (fun i c t => use_tool_same_history i c t (SESSION_ID g)) as H5.
  pose proof remember_turn_appended as H6.
  steps_with (history_appended_refl (SESSION_ID g))
             (@history_appended_trans (SESSION_ID g)).
Qed.

End HistoryWrites.

(** X2. A turn of [generate_answer] only appends to the History Store:
    the messages stored before are all still there, in place, and every
    message the turn added carries the current session id. *)
Theorem generate_answer_appends_to_session
    (num : Type) (g : Globals) (w : World num)
    (user_query : pystr) (images : ImagesArg) (s : State) :
  exists added : list ChatMessage,
    history_collection (snd (generate_answer g w user_query images s))
    = history_collection s ++ added
    /\ Forall (fun m => session_id m = SESSION_ID g) added.
Proof. exact (generate_answer_appended g w user_query images s). Qed.

(** ** The count of remote calls *)

Section Clock.

Variable num : Type.
Variable g : Globals.
Variable w : World num.

Lemma later_refl s : later s s.
Proof. unfold later. lia. Qed.

Lemma later_trans a b c : later a b -> later b c -> later a c.
Proof. unfold later. lia. Qed.

Lemma tick_later : steps later tick.
Proof. intros s. unfold later. simpl. lia. Qed.

Lemma log_later e : steps later (log e).
Proof. intros s. unfold later. simpl. lia. Qed.

Lemma get_history_later : steps later get_history.
Proof. intros s. unfold later. simpl. lia. Qed.

Lemma get_default_images_later : steps later get_default_images.
Proof. intros s. unfold later. simpl. lia. Qed.

Lemma put_default_images_later l : steps later (put_default_images l).
Proof. intros s. unfold later. simpl. lia. Qed.

Ltac later_auto :=
  pose proof tick_later; pose proof log_later;
  pose proof get_history_later; pose proof get_default_images_later;
  pose proof put_default_images_later;
  steps_with later_refl later_trans.

Lemma vector_search_tool_later q : steps later (vector_search_tool g w q).
Proof.
  unfold vector_search_tool, generate_query_embedding, requests_post,
    json_embedding, aggregate.
  later_auto.
Qed.

Lemma retrieve_session_history_later sid :
  steps later (retrieve_session_history g w sid).
Proof. unfold retrieve_session_history. later_auto. Qed.

Lemma use_tool_later images cur tc : steps later (use_tool g w images cur tc).
Proof.
  unfold use_tool, call_vector_search_tool, extend_images.
  pose proof vector_search_tool_later.
  later_auto.
Qed.

End Clock.

(** ** The course of a turn of the direct strategy *)

Section DirectTurn.

Variable num : Type.
Variable g : Globals.
Variable w : World num.

Lemma use_tool_skipped images cur tc s :
  uses_tool tc = false -> use_tool g w images cur tc s = (Ok cur, s).
Proof.
  unfold uses_tool, use_tool. destruct tc as [tc|]; [|reflexivity].
  now intros ->.
Qed.

(** The three ways a turn can go: the tool call raised, the generation
    call raised, or the generation call answered and the turn was
    remembered. *)
Lemma generate_answer_detail q images s :
  exists hist s1 retr cur' s3,
    let csel := [CText select_tool_prompt] ++ messages_for_tool hist q in
    let rsel := gemini_select w (clock s1) csel in
    let tc := match rsel with SelRaises => None | SelResponse fc => fc end in
    let cgen := answer_contents w hist q cur' in
    let rgen := gemini_generate w (clock s3) cgen in
    let s4 := called s3 (EvGenerate cgen rgen) in
    (if USE_MEMORY g then retrieve_session_history g w (SESSION_ID g) else ret []) s
    = (Ok hist, s1)
    /\ trace s1 = trace s
    /\ Forall is_retrieval retr
    /\ (uses_tool tc = false -> retr = [])
    /\ history_collection s3 = history_collection s
    /\ clock s <= clock s3
    /\ trace s3 = trace s ++ EvSelectTool csel rsel :: retr
    /\ ((generate_answer g w q images s = (Ok (Some apology), s3)
         /\ uses_tool tc = true)
        \/ (rgen = LLMRaises
            /\ generate_answer g w q images s = (Ok (Some apology), s4))
        \/ (exists text s5,
              rgen = LLMResponse text
              /\ remember_turn g w q cur' text s4 = (Ok tt, s5)
              /\ trace s5 = trace s4
              /\ generate_answer g w q images s = (Ok text, s5))).
Proof.
  unfold generate_answer, try_except, bind.
  set (hist := if USE_MEMORY g then retrieve_session_history g w (SESSION_ID g)
               else ret []).
  assert (He : emits silent hist /\ returns hist /\ steps same_memory hist
               /\ steps later hist).
  { subst hist. destruct (USE_MEMORY g).
    - split; [apply retrieve_session_history_emits|].
      split; [apply retrieve_session_history_returns|].
      split; [apply retrieve_session_history_same_memory|].
      apply retrieve_session_history_later.
    - split; [apply emits_ret|]. split; [apply returns_ret|].
      split; [apply (steps_ret same_memory_refl)|].
      apply (steps_ret later_refl). }
  destruct He as (He1 & He2 & He3 & He4).
  destruct (run_silent He1 He2 s) as (history & s1 & E1 & T1).
  pose proof (He3 s) as [M1 _]. rewrite E1 in M1. simpl in M1.
  pose proof (He4 s) as C1. unfold later in C1. rewrite E1 in C1. simpl in C1.
  rewrite E1, select_tool_run.
  set (csel := [CText select_tool_prompt] ++ messages_for_tool history q).
  remember (gemini_select w (clock s1) csel) as rsel eqn:Hsel.
  set (s2 := called s1 (EvSelectTool csel rsel)).
  set (tc := match rsel with SelRaises => None | SelResponse fc => fc end).
  assert (R : exists cur, read_images images s2 = (Ok cur, s2)).
  { destruct images as [|l]; [exists (default_images s2) | exists l]; reflexivity. }
  destruct R as (cur & ->).
  destruct (use_tool_emits g w images cur tc s2) as (retr & T3 & F3).
  assert (N : uses_tool tc = false -> retr = []).
  { intros Hu. rewrite (use_tool_skipped images cur s2 Hu) in T3.
    simpl in T3. now apply app_eq_self in T3. }
  assert (K : uses_tool tc = false ->
              use_tool g w images cur tc s2 = (Ok cur, s2)).
  { intros Hu. now apply use_tool_skipped. }
  assert (H3 : history_collection (snd (use_tool g w images cur tc s2))
               = history_collection s).
  { rewrite (use_tool_keeps_history g w images cur tc s2).
    subst s2. simpl. exact M1. }
  assert (C3 : clock s <= clock (snd (use_tool g w images cur tc s2))).
  { pose proof (use_tool_later g w images cur tc s2) as C. unfold later in C.
    subst s2. simpl in C. lia. }
  destruct (use_tool g w images cur tc s2) as [[cur'|e] s3] eqn:U;
    simpl in T3, H3, C3.
  - exists history, s1, retr, cur', s3. cbv zeta.
    unfold csel in Hsel. rewrite <- Hsel. fold csel. fold tc.
    split; [reflexivity|]. split; [exact T1|]. split; [exact F3|].
    split; [exact N|]. split; [exact H3|]. split; [exact C3|]. split.
    { rewrite T3. subst s2. simpl. rewrite T1, <- app_assoc. reflexivity. }
    right. rewrite generate_content_run.
    destruct (gemini_generate w (clock s3) (answer_contents w history q cur'))
      as [|text] eqn:G.
    + left. split; reflexivity.
    + right.
      destruct (run_silent (remember_turn_emits g w q cur' text)
                  (remember_turn_returns g w q cur' text)
                  (called s3 (EvGenerate (answer_contents w history q cur')
                                (LLMResponse text))))
        as ([] & s5 & E5 & T5).
      exists text, s5. rewrite E5. repeat split; auto.
  - exists history, s1, retr, cur, s3. cbv zeta.
    unfold csel in Hsel. rewrite <- Hsel. fold csel. fold tc.
    split; [reflexivity|]. split; [exact T1|]. split; [exact F3|].
    split; [exact N|]. split; [exact H3|]. split; [exact C3|]. split.
    { rewrite T3. subst s2. simpl. rewrite T1, <- app_assoc. reflexivity. }
    left. split; [reflexivity|].
    destruct (uses_tool tc) eqn:Hu; [reflexivity|].
    specialize (K eq_refl). discriminate.
Qed.

End DirectTurn.

Section DirectTurnFacts.

Variable num : Type.
Variable g : Globals.
Variable w : World num.







End DirectTurnFacts.

(** X3. A turn of [generate_answer] whose generation call raised stores
    nothing, also with Session Memory enabled: the question is not
    remembered, and the caller gets the apology. *)
Theorem generate_answer_failed_turn_not_stored
    (num : Type) (g : Globals) (w : World num)
    (user_query : pystr) (images : ImagesArg) (s : State) (c : list Content) :
  let run := generate_answer g w user_query images s in
  In (EvGenerate c LLMRaises) (turn_events s (snd run)) ->
  history_collection (snd run) = history_collection s
  /\ fst run = Ok (Some apology).
Proof.
  intros run H. subst run.
  destruct (generate_answer_detail g w user_query images s)
    as (hist & s1 & retr & cur' & s3 & _ & _ & F & _ & H3 & _ & T3 &
        [[E _] | [[G E] | (text & s5 & G & _ & T5 & E)]]);
    rewrite E in *; simpl in *.
  - split; [exact H3 | reflexivity].
  - split; [exact H3 | reflexivity].
  - exfalso.
    rewrite (@turn_events_app s s5
               (EvSelectTool ([CText select_tool_prompt] ++ messages_for_tool hist user_query)
                  (gemini_select w (clock s1)
                     ([CText select_tool_prompt] ++ messages_for_tool hist user_query))
                :: retr
                ++ [EvGenerate (answer_contents w hist user_query cur')
                      (gemini_generate w (clock s3)
                         (answer_contents w hist user_query cur'))])) in H.
    2:{ rewrite T5, T3, <- app_assoc. reflexivity. }
    simpl in H. destruct H as [H|H]; [discriminate|].
    apply in_app_or in H as [H|[H|[]]].
    + now apply not_retrieval_generate in H.
    + injection H as _ H. congruence.
Qed.


(** X5. A turn of [generate_answer] searches only when the model asks
    for it: unless the tool-selection call returned a function call
    named [get_information_for_question_answering], the turn makes no
    call to the Retrieval Tool, the Embedding Provider or the Vector
    Store. *)
Theorem generate_answer_no_unrequested_search
    (num : Type) (g : Globals) (w : World num)
    (user_query : pystr) (images : ImagesArg) (s : State) :
  let evs := turn_events s (snd (generate_answer g w user_query images s)) in
  (forall c tc, In (EvSelectTool c (SelResponse (Some tc))) evs ->
                PyStr.eqb (name tc) (py "get_information_for_question_answering")
                = false) ->
  Forall (fun e => ~ is_retrieval e) evs.
Proof.
  intros evs H. subst evs.
  destruct (generate_answer_detail g w user_query images s)
    as (hist & s1 & retr & cur' & s3 & _ & _ & F & N & H3 & _ & T3 & Cases).
  cbv zeta in *.
  set (csel := [CText select_tool_prompt] ++ messages_for_tool hist user_query) in *.
  set (rsel := gemini_select w (clock s1) csel) in *.
  set (cgen := answer_contents w hist user_query cur') in *.
  set (rgen := gemini_generate w (clock s3) cgen) in *.
  assert (T : exists tl : list Event,
             trace (snd (generate_answer g w user_query images s))
             = trace s ++ EvSelectTool csel rsel :: retr ++ tl
             /\ Forall (fun e => ~ is_retrieval e) tl).
  { destruct Cases as [[E _] | [[G E] | (text & s5 & G & _ & T5 & E)]];
      rewrite E; simpl.
    - exists []. rewrite app_nil_r. split; [exact T3 | constructor].
    - exists [EvGenerate cgen rgen]. rewrite T3, <- app_assoc. simpl.
      split; [reflexivity|]. repeat constructor. intros [].
    - exists [EvGenerate cgen rgen]. rewrite T5. simpl. rewrite T3, <- app_assoc.
      simpl. split; [reflexivity|]. repeat constructor. intros []. }
  destruct T as (tl & T & Ftl). rewrite (turn_events_app T) in H |- *.
  assert (U : uses_tool (match rsel with SelRaises => None | SelResponse fc => fc end)
              = false).
  { destruct rsel as [|[tc|]] eqn:Hr; try reflexivity.
    simpl. apply (H csel tc). now left. }
  rewrite (N U). simpl. constructor; [intros []|exact Ftl].
Qed.

(** ** The default [images] list *)

Section DefaultImagesList.

Variable num : Type.
Variable g : Globals.
Variable w : World num.

Lemma accumulates_refl s : accumulates s s.
Proof. exists []. simpl. now rewrite !app_nil_r. Qed.

Lemma accumulates_trans a b c : accumulates a b -> accumulates b c -> accumulates a c.
Proof.
  intros (x & Tx & Dx) (y & Ty & Dy). exists (x ++ y).
  rewrite Ty, Tx, Dy, Dx, retrieved_keys_app, !app_assoc. auto.
Qed.

Lemma same_log_and_default_refl s : same_log_and_default s s.
Proof. split; reflexivity. Qed.

Lemma same_log_and_default_trans a b c :
  same_log_and_default a b -> same_log_and_default b c -> same_log_and_default a c.
Proof. intros [T1 D1] [T2 D2]. split; congruence. Qed.

Lemma same_log_and_default_accumulates s s' :
  same_log_and_default s s' -> accumulates s s'.
Proof. intros [T D]. exists []. simpl. now rewrite !app_nil_r. Qed.

Ltac quiet_auto :=
  let Hk := fresh in let Hg := fresh in let Hp := fresh in
  assert (Hk : steps same_log_and_default tick) by (intros ?; split; reflexivity);
  assert (Hg : steps same_log_and_default get_history)
    by (intros ?; split; reflexivity);
  assert (Hp : forall h, steps same_log_and_default (put_history h))
    by (intros ? ?; split; reflexivity);
  steps_with same_log_and_default_refl same_log_and_default_trans.

Lemma store_chat_message_quiet sid r t c :
  steps same_log_and_default (store_chat_message g w sid r t c).
Proof. unfold store_chat_message. quiet_auto. Qed.

Lemma store_images_quiet l : steps same_log_and_default (store_images g w l).
Proof.
  pose proof store_chat_message_quiet.
  induction l as [|p l IH]; simpl; quiet_auto.
Qed.

Lemma remember_turn_quiet q cur a :
  steps same_log_and_default (remember_turn g w q cur a).
Proof.
  unfold remember_turn.
  pose proof store_chat_message_quiet. pose proof store_images_quiet.
  quiet_auto.
Qed.

Lemma retrieve_session_history_quiet sid :
  steps same_log_and_default (retrieve_session_history g w sid).
Proof. unfold retrieve_session_history. quiet_auto. Qed.

(** The log of a call of the Retrieval Tool: the call itself, then the
    calls to its services; the keys it returns are those the Vector Store
    returned. *)
Lemma vector_search_tool_log q s :
  exists keys s' rest,
    vector_search_tool g w q s = (Ok keys, s')
    /\ trace s' = trace s ++ EvToolCall q :: rest
    /\ Forall is_store_call rest
    /\ retrieved_keys rest = keys
    /\ same_memory s s'.
Proof.
  assert (R : forall (l : list Event), Forall is_store_call l ->
              forall keys, retrieved_keys l = keys ->
              forall o s1, o = Ok keys -> trace s1 = trace s ++ EvToolCall q :: l ->
              same_memory s s1 ->
              exists keys' s' rest,
                (o, s1) = (Ok keys', s') /\ trace s' = trace s ++ EvToolCall q :: rest
                /\ Forall is_store_call rest /\ retrieved_keys rest = keys'
                /\ same_memory s s').
  { intros l F keys I o s1 -> T. exists keys, s1, l. auto. }
  unfold vector_search_tool, generate_query_embedding, requests_post,
    json_embedding, aggregate, try_except, bind, tick, log.
  simpl.
  destruct (SERVERLESS_URL g) as [[|c u]|]; simpl;
    try (eapply (R []); simpl;
         [constructor | reflexivity | reflexivity | reflexivity
         | split; reflexivity]).
  destruct (embedding_provider w (clock s) q) as [|status [e|]]; simpl;
    try destruct (status =? 200)%Z; simpl;
    try (eapply (R [EvEmbedding q]); simpl;
         [repeat constructor | reflexivity | reflexivity
         | rewrite <- app_assoc; reflexivity | split; reflexivity]).
  destruct (if gt_0 w (np_linalg_norm w e)
            then map (fun x => np_divide w x (np_linalg_norm w e)) e else e)
    as [|x v]; simpl.
  { eapply (R [EvEmbedding q]); simpl;
      [repeat constructor | reflexivity | reflexivity
      | rewrite <- app_assoc; reflexivity | split; reflexivity]. }
  destruct (vector_store_up w (S (clock s))); simpl.
  - eapply (R [EvEmbedding q; EvAggregate (Some _)]); simpl;
      [repeat constructor | rewrite app_nil_r; reflexivity | reflexivity
      | rewrite <- !app_assoc; reflexivity | split; reflexivity].
  - eapply (R [EvEmbedding q; EvAggregate None]); simpl;
      [repeat constructor | reflexivity | reflexivity
      | rewrite <- !app_assoc; reflexivity | split; reflexivity].
Qed.

Lemma steps_bind_assoc (R : State -> State -> Prop) A B C
    (m : M A) (f : A -> M B) (k : B -> M C) :
  steps R (bind (bind m f) k) -> steps R (bind m (fun a => bind (f a) k)).
Proof.
  intros H s. specialize (H s). unfold bind in *.
  destruct (m s) as [[a|e] s1]; [|exact H].
  destruct (f a s1) as [[b|e] s2]; exact H.
Qed.

Lemma read_use_tool_accumulates tc :
  steps accumulates
    (bind (read_images DefaultImages)
       (fun cur => use_tool g w DefaultImages cur tc)).
Proof.
  intros s. unfold bind, read_images, get_default_images, use_tool.
  destruct tc as [tc|]; [|apply accumulates_refl].
  destruct (PyStr.eqb (name tc) _); [|apply accumulates_refl].
  unfold call_vector_search_tool, bind.
  destruct (args tc) as [|[k v] [|? ?]]; try apply accumulates_refl.
  destruct (PyStr.eqb k _); [|apply accumulates_refl].
  destruct (vector_search_tool_log v s) as (keys & s1 & rest & E & T & F & K & [_ D]).
  rewrite E. simpl. exists (EvToolCall v :: rest). split; [exact T|].
  simpl. now rewrite K.
Qed.

Lemma generate_answer_accumulates q :
  steps accumulates (generate_answer g w q DefaultImages).
Proof.
  unfold generate_answer.
  assert (H1 : steps accumulates
                 (if USE_MEMORY g then retrieve_session_history g w (SESSION_ID g)
                  else ret [])).
  { intros s. apply same_log_and_default_accumulates.
    destruct (USE_MEMORY g);
      [apply retrieve_session_history_quiet | apply same_log_and_default_refl]. }
  assert (H2 : forall m, steps accumulates (select_tool w m)).
  { intros m s. rewrite select_tool_run. simpl.
    eexists [_]. split; reflexivity || (simpl; now rewrite app_nil_r). }
  assert (H3 : forall c, steps accumulates (generate_content w c)).
  { intros c s. rewrite generate_content_run. simpl.
    eexists [_]. split; reflexivity || (simpl; now rewrite app_nil_r). }
  assert (H4 : forall a b c, steps accumulates (remember_turn g w a b c)).
  { intros a b c s. apply same_log_and_default_accumulates, remember_turn_quiet. }
  apply (steps_try_except accumulates_trans);
    [|intros e; apply (steps_ret accumulates_refl)].
  apply (steps_bind accumulates_trans); [exact H1|intros hist].
  apply (steps_bind accumulates_trans); [apply H2|intros tc].
  apply steps_bind_assoc.
  apply (steps_bind accumulates_trans); [apply read_use_tool_accumulates|intros cur].
  apply (steps_bind accumulates_trans); [apply H3|intros answer].
  apply (steps_bind accumulates_trans); [apply H4|intros _].
  apply (steps_ret accumulates_refl).
Qed.

Lemma generate_answer_caller_images q l :
  steps (fun a b => default_images b = default_images a)
    (generate_answer g w q (CallerImages l)).
Proof.
  assert (Hr : forall a : State, default_images a = default_images a) by reflexivity.
  assert (Ht : forall a b c : State,
             default_images b = default_images a ->
             default_images c = default_images b ->
             default_images c = default_images a) by congruence.
  unfold generate_answer, read_images, use_tool, call_vector_search_tool,
    extend_images.
  assert (H1 : forall sid, steps (fun a b => default_images b = default_images a)
                             (retrieve_session_history g w sid)).
  { intros sid s. apply retrieve_session_history_quiet. }
  assert (H2 : forall m, steps (fun a b => default_images b = default_images a)
                           (select_tool w m)).
  { intros m s. apply select_tool_same_memory. }
  assert (H3 : forall c, steps (fun a b => default_images b = default_images a)
                           (generate_content w c)).
  { intros c s. apply generate_content_same_memory. }
  assert (H4 : forall a b c, steps (fun a b => default_images b = default_images a)
                               (remember_turn g w a b c)).
  { intros a b c s. apply remember_turn_quiet. }
  assert (H5 : forall v, steps (fun a b => default_images b = default_images a)
                           (vector_search_tool g w v)).
  { intros v s. apply (vector_search_tool_same_memory g w v s). }
  steps_with Hr Ht.
Qed.

End DefaultImagesList.

(** X6. The default [images] list of [generate_answer] only
    accumulates: after a turn that omits [images] it is the list as it
    was, followed by exactly the keys the Vector Store returned in that
    turn; a turn that passes its own list leaves it as it was. *)
Theorem generate_answer_default_images_accumulate
    (num : Type) (g : Globals) (w : World num)
    (user_query : pystr) (s : State) :
  (let s' := snd (generate_answer g w user_query DefaultImages s) in
   default_images s' = default_images s ++ retrieved_keys (turn_events s s'))
  /\ (forall l,
        default_images (snd (generate_answer g w user_query (CallerImages l) s))
        = default_images s).
Proof.
  split.
  - destruct (generate_answer_accumulates g w user_query s) as (evs & T & D).
    cbv zeta. now rewrite (turn_events_app T).
  - intros l. apply (generate_answer_caller_images g w user_query l s).
Qed.

(** ** The ReAct loop follows its log grammar *)

Section ReactLog.

Variable num : Type.
Variable g : Globals.
Variable w : World num.

(** The search results are opened one by one; a path that cannot be
    examined ends the loop over them. *)
Lemma new_image_run p s :
  new_image w p s
  = if path_exists_raises w p then (Raise OSError, s)
    else (Ok (valid_image w p), s).
Proof.
  unfold new_image, Path_exists, valid_image, try_except, bind, Image_open.
  destruct (path_exists_raises w p); [reflexivity|]. simpl.
  destruct (path_exists w p), (image_readable w p); reflexivity.
Qed.

Lemma open_new_images_run keys s :
  (Forall (fun p => path_exists_raises w p = false) keys
   /\ open_new_images w keys s = (Ok (flat_map (valid_image w) keys), s))
  \/ (Exists (fun p => path_exists_raises w p = true) keys
      /\ exists e, open_new_images w keys s = (Raise e, s)).
Proof.
  induction keys as [|p keys IH].
  - left. split; [constructor | reflexivity].
  - assert (E0 : open_new_images w (p :: keys) s
                 = if path_exists_raises w p then (Raise OSError, s)
                   else match open_new_images w keys s with
                        | (Ok others, s') => (Ok (valid_image w p ++ others), s')
                        | (Raise e, s') => (Raise e, s')
                        end).
    { simpl. unfold bind at 1. rewrite new_image_run.
      destruct (path_exists_raises w p); [reflexivity|].
      unfold bind, ret.
      destruct (open_new_images w keys s) as [[o|e] s']; reflexivity. }
    rewrite E0. destruct (path_exists_raises w p) eqn:R.
    + right. split; [left; exact R | exists OSError; reflexivity].
    + destruct IH as [[F E] | [X (e & E)]]; rewrite E.
      * left. split; [constructor; assumption | reflexivity].
      * right. split; [right; exact X | exists e; reflexivity].
Qed.

(** The ways the [if]/[elif]/[else] on a decision without [ANSWER:] can
    go. *)
Lemma react_decide_continue info d s :
  PyStr.contains ANSWER d = false ->
  (PyStr.contains TOOL d = false
   /\ react_decide g w info d s
      = (Ok (Continue (info ++ [CText unable_to_determine])), s))
  \/ (exists before after calls s',
        first_occurrence TOOL d before after
        /\ Forall is_store_call calls
        /\ trace s' = trace s ++ EvToolCall (PyStr.strip after) :: calls
        /\ ((Forall (fun p => path_exists_raises w p = false) (retrieved_keys calls)
             /\ react_decide g w info d s
                = (Ok (Continue
                         (info ++ match retrieved_keys calls with
                                  | [] => [CText no_information]
                                  | keys => flat_map (valid_image w) keys
                                  end)), s'))
            \/ (Exists (fun p => path_exists_raises w p = true) (retrieved_keys calls)
                /\ exists e, react_decide g w info d s = (Raise e, s')))).
Proof.
  intros A. unfold react_decide. rewrite A.
  destruct (PyStr.contains TOOL d) eqn:T; [right | left; split; reflexivity].
  destruct (PyStrFacts.split_1_first T) as (before & after & E & F).
  rewrite E. unfold bind, item_1. simpl.
  destruct (vector_search_tool_log g w (PyStr.strip after) s)
    as (keys & s' & calls & V & Tr & Fc & K & _).
  rewrite V. exists before, after, calls, s'.
  split; [exact F|]. split; [exact Fc|]. split; [exact Tr|].
  rewrite K. destruct keys as [|k keys].
  { left. split; [constructor | reflexivity]. }
  destruct (open_new_images_run (k :: keys) s') as [[Fk Ek] | [Xk (e & Ek)]];
    rewrite Ek.
  - left. split; [exact Fk | reflexivity].
  - right. split; [exact Xk | now exists e].
Qed.

Lemma react_loop_follows_log sp it info s :
  exists evs,
    trace (snd (react_loop g w sp it info s)) = trace s ++ evs
    /\ react_log w sp it info evs (fst (react_loop g w sp it info s)).
Proof.
  funelim (react_loop g w sp it info s);
    try (pose proof (react_iteration_unfold g w system_prompt current_information s)
          as U; cbv zeta in U;
         match goal with
         | H : react_iteration _ _ _ _ _ = (_, _) |- _ => rewrite H in U
         end).
  - exists []. simpl. rewrite app_nil_r. split; [reflexivity|].
    constructor. lia.
  - (* the body returned *)
    destruct (gemini_generate w (clock s) (system_prompt ++ current_information))
      as [|[d|]] eqn:G; try discriminate.
    destruct (PyStr.contains ANSWER d) eqn:A.
    + destruct (PyStrFacts.split_1_first A) as (before & after & _ & F).
      rewrite (react_decide_answer g w current_information _ F) in U.
      injection U as -> ->.
      eexists. split; [reflexivity|]. simpl. now apply react_answered with before.
    + destruct (react_decide_continue current_information
                  (called s (EvGenerate (system_prompt ++ current_information)
                               (LLMResponse (Some d)))) A)
        as [[_ E] | (b & a & c & s1 & _ & _ & _ & [[_ E] | [_ (e & E)]])];
        rewrite E in U; discriminate.
  - (* the body fell through *)
    match goal with
    | IH : exists _, _ |- _ => destruct IH as (evs & T & L)
    end.
    destruct (gemini_generate w (clock s) (system_prompt ++ current_information))
      as [|[d|]] eqn:G; try discriminate.
    destruct (PyStr.contains ANSWER d) eqn:A.
    { destruct (PyStrFacts.split_1_first A) as (before & after & _ & F).
      rewrite (react_decide_answer g w current_information _ F) in U.
      discriminate. }
    destruct (react_decide_continue current_information
                (called s (EvGenerate (system_prompt ++ current_information)
                             (LLMResponse (Some d)))) A)
      as [[Tn E] | (b & a & c & s1 & F & Fc & Tr & [[Fk E] | [_ (e & E)]])];
      rewrite E in U; try discriminate; injection U as -> ->.
    + eexists. split.
      * rewrite T. simpl. rewrite <- app_assoc. reflexivity.
      * simpl. now apply react_unclear.
    + eexists. split.
      * rewrite T, Tr. simpl. rewrite <- !app_assoc. simpl. reflexivity.
      * now apply react_searched with b.
  - (* the body raised *)
    destruct (gemini_generate w (clock s) (system_prompt ++ current_information))
      as [|[d|]] eqn:G.
    + injection U as -> ->. eexists. split; [reflexivity|].
      simpl. apply react_raised; auto.
    + destruct (PyStr.contains ANSWER d) eqn:A.
      * destruct (PyStrFacts.split_1_first A) as (before & after & _ & F).
        rewrite (react_decide_answer g w current_information _ F) in U.
        discriminate.
      * destruct (react_decide_continue current_information
                    (called s (EvGenerate (system_prompt ++ current_information)
                                 (LLMResponse (Some d)))) A)
          as [[_ E] | (b & a & c & s1 & F & Fc & Tr & [[_ E] | [Xk (e' & E)]])];
          rewrite E in U; try discriminate.
        injection U as -> ->. eexists. split.
        { simpl. rewrite Tr. simpl. rewrite <- app_assoc. reflexivity. }
        simpl. now apply react_search_raised with b.
    + injection U as -> ->. eexists. split; [reflexivity|].
      simpl. apply react_raised; auto.
Qed.

(** Opening image files leaves the state as it is. *)
Lemma open_existing_state images s : snd (open_existing w images s) = s.
Proof.
  induction images as [|x l IH]; simpl; [reflexivity|].
  unfold bind at 1, Path_exists.
  destruct (path_exists_raises w x); [reflexivity|]. simpl.
  destruct (path_exists w x); [|exact IH].
  unfold bind, Image_open.
  destruct (path_exists w x && image_readable w x); simpl; [|reflexivity].
  destruct (open_existing w l s) as [[a|e] s2]; simpl in *; exact IH.
Qed.

(** A run of [generate_answer_react] either fails before the loop, in
    opening the images it was given, or writes a log of the loop entered
    at iteration count 0; an exception of the loop becomes the error
    string. *)
Lemma generate_answer_react_log q images s :
  let run := generate_answer_react g w q images s in
  (snd run = s /\ fst run = Ok react_error
   /\ exists e, fst (open_existing w images s) = Raise e)
  \/ exists info evs out,
       fst (open_existing w images s) = Ok info
       /\ trace (snd run) = trace s ++ evs
       /\ react_log w [CText (react_prompt q)] 0 info evs out
       /\ fst run = Ok (match out with Ok a => a | Raise _ => react_error end).
Proof.
  cbv zeta. unfold generate_answer_react, try_except, bind.
  set (prelude := match images with _ :: _ => open_existing w images | [] => ret [] end).
  assert (Q : forall o, fst (prelude s) = o -> fst (open_existing w images s) = o).
  { subst prelude. destruct images; auto. }
  assert (K : forall o s1, prelude s = (o, s1) -> s1 = s).
  { subst prelude. intros o s1 E. destruct images.
    - now injection E as _ <-.
    - rewrite <- (open_existing_state (p :: images) s). now rewrite E. }
  destruct (prelude s) as [[info|e] s1] eqn:E.
  - right. rewrite (K _ _ eq_refl).
    destruct (react_loop_follows_log [CText (react_prompt q)] 0 info s)
      as (evs & T & L).
    exists info, evs, (fst (react_loop g w [CText (react_prompt q)] 0 info s)).
    split; [now apply Q|].
    destruct (react_loop g w [CText (react_prompt q)] 0 info s) as [[a|x] s2];
      simpl in *; auto.
  - left. rewrite (K _ _ eq_refl). simpl. repeat split. exists e. now apply Q.
Qed.

End ReactLog.

(** ** What the logs of the ReAct loop have in common *)

Section ReactLogFacts.

Variable num : Type.
Variable w : World num.
Variable sp : list Content.

Lemma store_call_retrieval e : is_store_call e -> is_retrieval e.
Proof. destruct e; simpl; auto. Qed.

(** An event that is not a service call, found after a run of service
    calls. *)
Lemma split_after_store_calls (a b pre post : list Event) x :
  Forall is_store_call a -> ~ is_store_call x ->
  a ++ b = pre ++ x :: post ->
  exists p, pre = a ++ p /\ b = p ++ x :: post.
Proof.
  intros F N. revert pre. induction F as [|y a Hy _ IH]; intros pre E.
  - now exists pre.
  - destruct pre as [|z pre]; simpl in E.
    + injection E as -> _. contradiction.
    + injection E as -> E. destruct (IH _ E) as (p & -> & ->). now exists p.
Qed.

(** No generation call and no tool call is among service calls. *)
Lemma store_calls_only (calls pre post : list Event) x :
  Forall is_store_call calls -> calls = pre ++ x :: post -> is_store_call x.
Proof.
  intros F E. rewrite E in F. apply Forall_app in F as [_ F].
  now inversion F.
Qed.

Lemma react_log_error_last it info evs out :
  react_log w sp it info evs out ->
  forall pre c r post,
    evs = pre ++ EvGenerate c r :: post ->
    r = LLMRaises \/ r = LLMResponse None ->
    post = [] /\ exists e, out = Raise e.
Proof.
  induction 1 as [it info L | it info r0 e L Hr | it info d b a L F
                 | it info d b a calls evs out L A F Fc Fk Hlog IH
                 | it info d b a calls e L A F Fc Xk
                 | it info d evs out L A T Hlog IH];
    intros pre c r post E Hbad.
  - destruct pre; discriminate.
  - destruct pre as [|x [|y pre]]; try discriminate.
    injection E as _ _ <-. split; [reflexivity | now exists e].
  - destruct pre as [|x [|y pre]]; try discriminate.
    injection E as _ <- _. destruct Hbad; discriminate.
  - destruct pre as [|x pre]; simpl in E.
    { injection E as _ <- _. destruct Hbad; discriminate. }
    injection E as _ E. destruct pre as [|y pre]; simpl in E; [discriminate|].
    injection E as _ E.
    destruct (split_after_store_calls Fc (x:=EvGenerate c r) (fun H => H) E)
      as (p & _ & E').
    eapply IH; eauto.
  - destruct pre as [|x pre]; simpl in E.
    { injection E as _ <- _. destruct Hbad; discriminate. }
    injection E as _ E. destruct pre as [|y pre]; simpl in E; [discriminate|].
    injection E as _ E. destruct (store_calls_only Fc E).
  - destruct pre as [|x pre]; simpl in E.
    { injection E as _ <- _. destruct Hbad; discriminate. }
    injection E as _ E. eapply IH; eauto.
Qed.

Lemma count_generate_cons_generate c r evs :
  count_generate (EvGenerate c r :: evs) = S (count_generate evs).
Proof. reflexivity. Qed.

Lemma count_generate_store_calls calls :
  Forall is_store_call calls -> count_generate calls = 0.
Proof.
  intros F. apply count_generate_retrieval.
  eapply Forall_impl; [|exact F]. apply store_call_retrieval.
Qed.

Lemma react_log_undecided it info evs out :
  react_log w sp it info evs out ->
  Forall (fun p => path_exists_raises w p = false) (retrieved_keys evs) ->
  (forall c r, In (EvGenerate c r) evs ->
               exists d, r = LLMResponse (Some d) /\ PyStr.contains ANSWER d = false) ->
  out = Ok no_definitive_answer
  /\ count_generate evs = max_iterations - it.
Proof.
  induction 1 as [it info L | it info r0 e L Hr | it info d b a L F
                 | it info d b a calls evs out L A F Fc Fk Hlog IH
                 | it info d b a calls e L A F Fc Xk
                 | it info d evs out L A T Hlog IH];
    intros Hk H.
  - split; [reflexivity|]. change (count_generate []) with 0. lia.
  - destruct (H (sp ++ info) r0 (or_introl eq_refl)) as (d & -> & _).
    destruct Hr; discriminate.
  - destruct (H (sp ++ info) (LLMResponse (Some d)) (or_introl eq_refl))
      as (d' & [= <-] & A).
    destruct F as [-> _]. rewrite PyStrFacts.contains_app in A. discriminate.
  - change (EvGenerate (sp ++ info) (LLMResponse (Some d))
            :: EvToolCall (PyStr.strip a) :: calls ++ evs)
      with ([EvGenerate (sp ++ info) (LLMResponse (Some d));
             EvToolCall (PyStr.strip a)] ++ calls ++ evs) in Hk.
    rewrite !retrieved_keys_app in Hk. simpl in Hk.
    apply Forall_app in Hk as [_ Hk'].
    destruct IH as [-> C]; [exact Hk'| |].
    { intros c r Hin. apply (H c r). right. right. apply in_or_app. now right. }
    split; [reflexivity|].
    rewrite count_generate_cons_generate.
    change (EvToolCall (PyStr.strip a) :: calls ++ evs)
      with ([EvToolCall (PyStr.strip a)] ++ calls ++ evs).
    rewrite !count_generate_app, (count_generate_store_calls Fc), C.
    change (count_generate [EvToolCall (PyStr.strip a)]) with 0. lia.
  - exfalso. simpl in Hk. rewrite Forall_forall in Hk.
    apply Exists_exists in Xk as (p & Hp & R).
    specialize (Hk p Hp). congruence.
  - destruct IH as [-> C]; [exact Hk| |].
    { intros c r Hin. apply (H c r). now right. }
    split; [reflexivity|]. rewrite count_generate_cons_generate, C. lia.
Qed.

Lemma react_log_tool_calls it info evs out :
  react_log w sp it info evs out ->
  forall pre q post,
    evs = pre ++ EvToolCall q :: post ->
    exists pre' c d before after,
      pre = pre' ++ [EvGenerate c (LLMResponse (Some d))]
      /\ PyStr.contains ANSWER d = false
      /\ first_occurrence TOOL d before after
      /\ q = PyStr.strip after.
Proof.
  induction 1 as [it info L | it info r0 e L Hr | it info d b a L F
                 | it info d b a calls evs out L A F Fc Fk Hlog IH
                 | it info d b a calls e L A F Fc Xk
                 | it info d evs out L A T Hlog IH];
    intros pre q post E.
  - destruct pre; discriminate.
  - destruct pre as [|x [|y pre]]; discriminate.
  - destruct pre as [|x [|y pre]]; discriminate.
  - destruct pre as [|x pre]; simpl in E; [discriminate|].
    injection E as <- E. destruct pre as [|y pre]; simpl in E.
    + injection E as <- _. exists [], (sp ++ info), d, b, a. auto.
    + injection E as <- E.
      destruct (split_after_store_calls Fc (x:=EvToolCall q) (fun H => H) E)
        as (p & -> & E').
      destruct (IH _ _ _ E') as (pre' & c & d' & b' & a' & -> & R).
      exists (EvGenerate (sp ++ info) (LLMResponse (Some d))
              :: EvToolCall (PyStr.strip a) :: calls ++ pre'), c, d', b', a'.
      split; [|exact R]. simpl. now rewrite <- app_assoc.
  - destruct pre as [|x pre]; simpl in E; [discriminate|].
    injection E as <- E. destruct pre as [|y pre]; simpl in E.
    + injection E as <- _. exists [], (sp ++ info), d, b, a. auto.
    + injection E as _ E. destruct (store_calls_only Fc E).
  - destruct pre as [|x pre]; simpl in E; [discriminate|].
    injection E as <- E.
    destruct (IH _ _ _ E) as (pre' & c & d' & b' & a' & -> & R).
    exists (EvGenerate (sp ++ info) (LLMResponse (Some d)) :: pre'), c, d', b', a'.
    split; [reflexivity | exact R].
Qed.

Lemma react_log_contents it info evs out :
  react_log w sp it info evs out ->
  forall c r, In (EvGenerate c r) evs -> exists extra, c = sp ++ info ++ extra.
Proof.
  induction 1 as [it info L | it info r0 e L Hr | it info d b a L F
                 | it info d b a calls evs out L A F Fc Fk Hlog IH
                 | it info d b a calls e L A F Fc Xk
                 | it info d evs out L A T Hlog IH];
    intros c r Hin.
  - destruct Hin.
  - destruct Hin as [[= <- _]|[]]. exists []. now rewrite app_nil_r.
  - destruct Hin as [[= <- _]|[]]. exists []. now rewrite app_nil_r.
  - destruct Hin as [[= <- _]|[Hin|Hin]]; [|discriminate|].
    + exists []. now rewrite app_nil_r.
    + apply in_app_or in Hin as [Hin|Hin].
      * rewrite Forall_forall in Fc. destruct (Fc _ Hin).
      * destruct (IH _ _ Hin) as (extra & ->). eexists.
        rewrite <- !app_assoc. reflexivity.
  - destruct Hin as [[= <- _]|[Hin|Hin]]; [|discriminate|].
    + exists []. now rewrite app_nil_r.
    + rewrite Forall_forall in Fc. destruct (Fc _ Hin).
  - destruct Hin as [[= <- _]|Hin].
    + exists []. now rewrite app_nil_r.
    + destruct (IH _ _ Hin) as (extra & ->). eexists.
      rewrite <- !app_assoc. reflexivity.
Qed.

Lemma react_log_context_grows it info evs out :
  react_log w sp it info evs out ->
  forall pre c r post,
    evs = pre ++ EvGenerate c r :: post ->
    forall c2 r2, In (EvGenerate c2 r2) post -> exists extra, c2 = c ++ extra.
Proof.
  induction 1 as [it info L | it info r0 e L Hr | it info d b a L F
                 | it info d b a calls evs out L A F Fc Fk Hlog IH
                 | it info d b a calls e L A F Fc Xk
                 | it info d evs out L A T Hlog IH];
    intros pre c r post E c2 r2 Hin.
  - destruct pre; discriminate.
  - destruct pre as [|x [|y pre]]; try discriminate.
    injection E as _ _ <-. destruct Hin.
  - destruct pre as [|x [|y pre]]; try discriminate.
    injection E as _ _ <-. destruct Hin.
  - destruct pre as [|x pre]; simpl in E.
    + injection E as <- _ <-. destruct Hin as [Hin|Hin]; [discriminate|].
      apply in_app_or in Hin as [Hin|Hin].
      * rewrite Forall_forall in Fc. destruct (Fc _ Hin).
      * destruct (react_log_contents Hlog Hin) as (extra & ->).
        eexists. rewrite <- !app_assoc. reflexivity.
    + injection E as _ E. destruct pre as [|y pre]; simpl in E; [discriminate|].
      injection E as _ E.
      destruct (split_after_store_calls Fc (x:=EvGenerate c r) (fun H => H) E)
        as (p & _ & E').
      eapply IH; eauto.
  - destruct pre as [|x pre]; simpl in E.
    + injection E as <- _ <-. destruct Hin as [Hin|Hin]; [discriminate|].
      rewrite Forall_forall in Fc. destruct (Fc _ Hin).
    + injection E as _ E. destruct pre as [|y pre]; simpl in E; [discriminate|].
      injection E as _ E. destruct (store_calls_only Fc E).
  - destruct pre as [|x pre]; simpl in E.
    + injection E as <- _ <-.
      destruct (react_log_contents Hlog Hin) as (extra & ->).
      eexists. rewrite <- !app_assoc. reflexivity.
    + injection E as _ E. eapply IH; eauto.
Qed.

End ReactLogFacts.

Section ReactRuns.

Variable num : Type.
Variable g : Globals.
Variable w : World num.

Lemma turn_events_same s : turn_events s s = [].
Proof. apply turn_events_app. now rewrite app_nil_r. Qed.

(** The log a run of [generate_answer_react] adds is empty, or a log of
    the loop entered with the images the run was given. *)
Lemma generate_answer_react_turn q images s :
  let run := generate_answer_react g w q images s in
  (turn_events s (snd run) = [] /\ fst run = Ok react_error
   /\ exists e, fst (open_existing w images s) = Raise e)
  \/ exists info out,
       fst (open_existing w images s) = Ok info
       /\ react_log w [CText (react_prompt q)] 0 info (turn_events s (snd run)) out
       /\ fst run = Ok (match out with Ok a => a | Raise _ => react_error end).
Proof.
  cbv zeta.
  destruct (generate_answer_react_log g w q images s)
    as [(S & R & E) | (info & evs & out & O & T & L & R)].
  - left. rewrite S, turn_events_same. auto.
  - right. exists info, out. rewrite (turn_events_app T). auto.
Qed.

Lemma open_existing_readable images s :
  (forall p, In p images -> path_exists_raises w p = false) ->
  (forall p, In p images -> path_exists w p = true -> image_readable w p = true) ->
  exists l, fst (open_existing w images s) = Ok l.
Proof.
  induction images as [|x l IH]; intros Hr H; simpl.
  - now exists [].
  - destruct IH as (l' & E).
    { intros p Hp. apply Hr. now right. }
    { intros p Hp. apply H. now right. }
    unfold bind at 1, Path_exists. rewrite (Hr x (or_introl eq_refl)). simpl.
    destruct (path_exists w x) eqn:P; [|now exists l'].
    unfold bind, Image_open. rewrite P, (H x (or_introl eq_refl) P). simpl.
    destruct (open_existing w l s) as [[a|e] s2]; simpl in *; [|discriminate].
    now exists (CImage x :: a).
Qed.

End ReactRuns.

(** X7. In a run of [generate_answer_react], a generation call that
    raises, or whose response carries no text, is the last remote call of
    the run, and the run returns the ReAct error message: the loop does
    not retry. *)
Theorem generate_answer_react_stops_at_failed_generation
    (num : Type) (g : Globals) (w : World num)
    (user_query : pystr) (images : list pystr) (s : State)
    (pre post : list Event) (c : list Content) (r : LLMResult) :
  let run := generate_answer_react g w user_query images s in
  turn_events s (snd run) = pre ++ EvGenerate c r :: post ->
  r = LLMRaises \/ r = LLMResponse None ->
  post = [] /\ fst run = Ok react_error.
Proof.
  intros run E Hr. subst run.
  destruct (generate_answer_react_turn g w user_query images s)
    as [(T & _) | (info & out & _ & L & R)].
  - rewrite T in E. destruct pre; discriminate.
  - destruct (react_log_error_last L E Hr) as (-> & e & ->).
    split; [reflexivity | exact R].
Qed.

Lemma generate_answer_react_stops_at_failed_generation_witness :
  let w := Scenario.world Scenario.select_once
             (fun t _ => if t =? 0 then LLMResponse (Some (py "TOOL: AIME 2024"))
                         else LLMRaises) in
  let run := generate_answer_react Scenario.g w Scenario.question [] Scenario.s0 in
  skipn 5 (trace (snd run)) = [] /\ fst run = Ok react_error.
Proof.
  intros w run.
  apply (@generate_answer_react_stops_at_failed_generation Q Scenario.g w
           Scenario.question [] Scenario.s0
           (firstn 4 (trace (snd run))) (skipn 5 (trace (snd run)))
           (match nth_error (trace (snd run)) 4 with
            | Some (EvGenerate c _) => c
            | _ => []
            end)
           LLMRaises).
  - vm_compute. reflexivity.
  - left. reflexivity.
Defined.

(** X8. When every path the run looks at can be examined (those of
    the images handed to [generate_answer_react] and those the Vector
    Store returned during the run), every image handed in that exists
    can be opened, and every generation call of the run returned a text
    without [ANSWER:], the run made exactly three generation calls and
    returns the no-definitive-answer message. *)
Theorem generate_answer_react_undecided
    (num : Type) (g : Globals) (w : World num)
    (user_query : pystr) (images : list pystr) (s : State) :
  let run := generate_answer_react g w user_query images s in
  (forall p, In p images \/ In p (retrieved_keys (turn_events s (snd run))) ->
             path_exists_raises w p = false) ->
  (forall p, In p images -> path_exists w p = true -> image_readable w p = true) ->
  (forall c r, In (EvGenerate c r) (turn_events s (snd run)) ->
               exists d, r = LLMResponse (Some d)
                         /\ PyStr.contains ANSWER d = false) ->
  fst run = Ok no_definitive_answer
  /\ count_generate (turn_events s (snd run)) = 3.
Proof.
  intros run Hx Hi H. subst run.
  destruct (generate_answer_react_turn g w user_query images s)
    as [(_ & _ & e & E) | (info & out & _ & L & R)].
  - destruct (open_existing_readable s (fun p Hp => Hx p (or_introl Hp)) Hi)
      as (l & E').
    congruence.
  - assert (Hk : Forall (fun p => path_exists_raises w p = false)
                   (retrieved_keys
                      (turn_events s (snd (generate_answer_react g w user_query images s))))).
    { apply Forall_forall. intros p Hp. apply Hx. now right. }
    destruct (react_log_undecided L Hk H) as (-> & C).
    split; [exact R | exact C].
Qed.

Lemma generate_answer_react_undecided_witness :
  let w := Scenario.world Scenario.select_once
             (fun t _ => if t =? 0 then LLMResponse (Some (py "TOOL: AIME 2024"))
                         else LLMResponse (Some (py "Let me think."))) in
  let run := generate_answer_react Scenario.g w Scenario.question
               [py "data/images/2.png"] Scenario.s0 in
  fst run = Ok no_definitive_answer
  /\ count_generate (turn_events Scenario.s0 (snd run)) = 3.
Proof.
  intros w run.
  apply (@generate_answer_react_undecided Q Scenario.g w Scenario.question
           [py "data/images/2.png"] Scenario.s0).
  - reflexivity.
  - reflexivity.
  - vm_compute. intros c r H.
    repeat (destruct H as [H|H]; [try discriminate; injection H as _ <-; eexists; split; reflexivity|]).
    destruct H.
Defined.

(** X9. [generate_answer_react] searches only on the model's request,
    and with the model's words: every call of the Retrieval Tool in a run
    comes directly after a generation call whose text has no [ANSWER:]
    but has [TOOL:], and its query is what follows the first [TOOL:] in
    that text, stripped. *)
Theorem generate_answer_react_tool_query
    (num : Type) (g : Globals) (w : World num)
    (user_query : pystr) (images : list pystr) (s : State)
    (pre post : list Event) (tool_query : pystr) :
  let run := generate_answer_react g w user_query images s in
  turn_events s (snd run) = pre ++ EvToolCall tool_query :: post ->
  exists pre' c decision before after,
    pre = pre' ++ [EvGenerate c (LLMResponse (Some decision))]
    /\ PyStr.contains ANSWER decision = false
    /\ first_occurrence TOOL decision before after
    /\ tool_query = PyStr.strip after.
Proof.
  intros run E. subst run.
  destruct (generate_answer_react_turn g w user_query images s)
    as [(T & _) | (info & out & _ & L & R)].
  - rewrite T in E. destruct pre; discriminate.
  - exact (react_log_tool_calls L E).
Qed.

Lemma generate_answer_react_tool_query_witness :
  let w := Scenario.world Scenario.select_once Scenario.tool_then_answer in
  let run := generate_answer_react Scenario.g w Scenario.question [] Scenario.s0 in
  exists pre' c decision before after,
    firstn 1 (trace (snd run))
    = pre' ++ [EvGenerate c (LLMResponse (Some decision))]
    /\ PyStr.contains ANSWER decision = false
    /\ first_occurrence TOOL decision before after
    /\ py "AIME 2024 accuracy" = PyStr.strip after.
Proof.
  intros w run.
  apply (@generate_answer_react_tool_query Q Scenario.g w Scenario.question []
           Scenario.s0 (firstn 1 (trace (snd run))) (skipn 2 (trace (snd run)))
           (py "AIME 2024 accuracy")).
  vm_compute. reflexivity.
Defined.

(** X10. The context of [generate_answer_react] only grows: every
    generation call of a run is given the contents of each earlier one
    of the run, followed by what was gathered since; nothing once shown
    to the model is dropped or reordered. *)
Theorem generate_answer_react_context_grows
    (num : Type) (g : Globals) (w : World num)
    (user_query : pystr) (images : list pystr) (s : State)
    (pre post : list Event) (c c2 : list Content) (r r2 : LLMResult) :
  let run := generate_answer_react g w user_query images s in
  turn_events s (snd run) = pre ++ EvGenerate c r :: post ->
  In (EvGenerate c2 r2) post ->
  exists gathered, c2 = c ++ gathered.
Proof.
  intros run E Hin. subst run.
  destruct (generate_answer_react_turn g w user_query images s)
    as [(T & _) | (info & out & _ & L & R)].
  - rewrite T in E. destruct pre; discriminate.
  - exact (react_log_context_grows L E Hin).
Qed.

Lemma generate_answer_react_context_grows_witness :
  let w := Scenario.world Scenario.select_once Scenario.tool_then_answer in
  let run := generate_answer_react Scenario.g w Scenario.question [] Scenario.s0 in
  exists gathered,
    [CText (react_prompt Scenario.question);
     CImage (py "data/images/1.png"); CImage (py "data/images/2.png")]
    = [CText (react_prompt Scenario.question)] ++ gathered.
Proof.
  intros w run.
  apply (@generate_answer_react_context_grows Q Scenario.g w Scenario.question []
           Scenario.s0 [] (skipn 1 (trace (snd run)))
           [CText (react_prompt Scenario.question)]
           [CText (react_prompt Scenario.question);
            CImage (py "data/images/1.png"); CImage (py "data/images/2.png")]
           (LLMResponse (Some (py "TOOL: AIME 2024 accuracy")))
           (LLMResponse (Some (py "Enough. ANSWER:  79.8% ")))).
  - vm_compute. reflexivity.
  - vm_compute. do 3 right. left. reflexivity.
Defined.

(** ** The direct strategy at the concrete deployment *)

Lemma generate_answer_failed_turn_not_stored_witness :
  let w := Scenario.world (fun _ _ => SelResponse (Some Scenario.search_call))
             (fun _ _ => LLMRaises) in
  let run := generate_answer Scenario.g_memory w Scenario.question DefaultImages
               (with_history Scenario.s0 Scenario.stored) in
  history_collection (snd run) = Scenario.stored
  /\ fst run = Ok (Some apology).
Proof.
  intros w run.
  apply (@generate_answer_failed_turn_not_stored Q Scenario.g_memory w
           Scenario.question DefaultImages
           (with_history Scenario.s0 Scenario.stored)
           (match nth_error (trace (snd run)) 4 with
            | Some (EvGenerate c _) => c
            | _ => []
            end)).
  vm_compute. do 4 right. left. reflexivity.
Defined.


Lemma generate_answer_no_unrequested_search_witness :
  let w := Scenario.world
             (fun _ _ => SelResponse (Some {| name := py "web_search";
                                              args := [(py "q", py "AIME")] |}))
             Scenario.answer_79_8 in
  Forall (fun e => ~ is_retrieval e)
    (turn_events Scenario.s0
       (snd (generate_answer Scenario.g w Scenario.question DefaultImages
               Scenario.s0))).
Proof.
  intros w.
  apply (@generate_answer_no_unrequested_search Q Scenario.g w Scenario.question
           DefaultImages Scenario.s0).
  vm_compute. intros c tc H.
  repeat (destruct H as [H|H]; [try discriminate; injection H as _ <-; reflexivity|]).
  destruct H.
Defined.

(** ** Where the context of the ReAct strategy comes from *)

Section ReactContext.

Variable num : Type.
Variable w : World num.

Lemma image_paths_app a b : image_paths (a ++ b) = image_paths a ++ image_paths b.
Proof. unfold image_paths. apply flat_map_app. Qed.

Lemma open_existing_paths images s :
  forall info, fst (open_existing w images s) = Ok info ->
               incl (image_paths info) images.
Proof.
  induction images as [|x l IH]; simpl; intros info.
  - intros [= <-]. apply incl_refl.
  - unfold bind at 1, Path_exists.
    destruct (path_exists_raises w x); [discriminate|]. simpl.
    destruct (path_exists w x); [|intros H; apply incl_tl; now apply IH].
    unfold bind, Image_open.
    destruct (path_exists w x && image_readable w x); simpl; [|discriminate].
    destruct (open_existing w l s) as [[a|e] s2]; simpl in *; [|discriminate].
    intros [= <-]. simpl. intros p [<-|Hp]; [now left | right; now apply (IH a)].
Qed.

Lemma generated_images_store_calls calls :
  Forall is_store_call calls -> generated_images calls = [].
Proof.
  intros F. apply generated_images_retrieval.
  eapply Forall_impl; [|exact F]. apply store_call_retrieval.
Qed.

Lemma react_log_images sp it info evs out :
  react_log w sp it info evs out ->
  image_paths sp = [] ->
  forall base, incl (image_paths info) base ->
               incl (generated_images evs) (base ++ retrieved_keys evs).
Proof.
  intros L Hsp.
  assert (G : forall info r, generated_images [EvGenerate (sp ++ info) r]
                             = image_paths info).
  { intros. unfold generated_images. simpl.
    now rewrite app_nil_r, image_paths_app, Hsp. }
  induction L as [it info L | it info r0 e L Hr | it info d b a L F
                 | it info d b a calls evs out L A F Fc Fk Hlog IH
                 | it info d b a calls e L A F Fc Xk
                 | it info d evs out L A T Hlog IH];
    intros base Hb.
  - apply incl_nil_l.
  - rewrite G. now apply incl_appl.
  - rewrite G. now apply incl_appl.
  - change (EvGenerate (sp ++ info) (LLMResponse (Some d))
            :: EvToolCall (PyStr.strip a) :: calls ++ evs)
      with ([EvGenerate (sp ++ info) (LLMResponse (Some d))]
            ++ [EvToolCall (PyStr.strip a)] ++ calls ++ evs).
    rewrite !generated_images_app, !retrieved_keys_app, G,
      (generated_images_store_calls Fc).
    simpl. apply incl_app; [now apply incl_appl|].
    rewrite app_assoc. apply IH.
    rewrite image_paths_app. apply incl_app; [now apply incl_appl|].
    apply incl_appr.
    destruct (retrieved_keys calls) as [|k keys]; [apply incl_nil_l|].
    exact (@image_paths_valid _ w (k :: keys)).
  - change (EvGenerate (sp ++ info) (LLMResponse (Some d))
            :: EvToolCall (PyStr.strip a) :: calls)
      with ([EvGenerate (sp ++ info) (LLMResponse (Some d))]
            ++ [EvToolCall (PyStr.strip a)] ++ calls).
    rewrite !generated_images_app, G, (generated_images_store_calls Fc).
    simpl. rewrite app_nil_r. now apply incl_appl.
  - change (EvGenerate (sp ++ info) (LLMResponse (Some d)) :: evs)
      with ([EvGenerate (sp ++ info) (LLMResponse (Some d))] ++ evs).
    rewrite generated_images_app, retrieved_keys_app, G. simpl.
    apply incl_app; [now apply incl_appl|].
    apply IH. rewrite image_paths_app. simpl. now rewrite app_nil_r.
Qed.

End ReactContext.

(** X12. Every image handed to the LLM Provider in a run of
    [generate_answer_react] is one of the images the run was called with
    or a key the Vector Store returned during the run: the ReAct strategy
    carries nothing over from earlier questions. *)
Theorem generate_answer_react_context_sources
    (num : Type) (g : Globals) (w : World num)
    (user_query : pystr) (images : list pystr) (s : State) :
  let evs := turn_events s (snd (generate_answer_react g w user_query images s)) in
  incl (generated_images evs) (images ++ retrieved_keys evs).
Proof.
  intros evs. subst evs.
  destruct (generate_answer_react_turn g w user_query images s)
    as [(T & _) | (info & out & O & L & _)].
  - rewrite T. apply incl_nil_l.
  - apply (react_log_images L); [reflexivity|].
    exact (open_existing_paths O).
Qed.

(** ** What a retrieval result tells about the services *)

(** X11. The two retrieval functions never raise, and a result that is
    not empty means that every service answered: the endpoint is
    configured, the Embedding Provider answered 200 with an embedding
    (for [vector_search_tool], a non-empty one), and the Vector Store was
    reachable. *)
Theorem retrieval_tool_result_needs_services
    (num : Type) (g : Globals) (w : World num) (q : pystr) (s : State) :
  (exists keys,
      fst (vector_search_tool g w q s) = Ok keys
      /\ (keys <> [] -> exists e, retrieval_succeeds g w q s e))
  /\ (exists keys,
        fst (complete_get_information_function g w q s) = Ok keys
        /\ (keys <> [] ->
            exists e,
              url_truthy (SERVERLESS_URL g) = true
              /\ embedding_provider w (clock s) q = HttpResponse 200 (Some e)
              /\ vector_store_up w (S (clock s)) = true)).
Proof.
  assert (Z : forall P : Prop,
             exists keys : list pystr, Ok (@nil pystr) = Ok keys /\ (keys <> [] -> P)).
  { intros P. exists []. split; [reflexivity | congruence]. }
  unfold retrieval_succeeds. split.
  - unfold vector_search_tool, generate_query_embedding, requests_post,
      json_embedding, aggregate, try_except, bind, tick, log.
    simpl.
    destruct (SERVERLESS_URL g) as [[|c u]|]; simpl; try apply Z.
    destruct (embedding_provider w (clock s) q) as [|status [e|]]; simpl;
      try (destruct (status =? 200)%Z; simpl; apply Z); try apply Z.
    destruct (status =? 200)%Z eqn:Es; simpl; [|apply Z].
    apply Z.eqb_eq in Es. subst status.
    destruct e as [|x e].
    { destruct (gt_0 w (np_linalg_norm w [])); simpl; apply Z. }
    destruct (if gt_0 w (np_linalg_norm w (x :: e))
              then map (fun y => np_divide w y (np_linalg_norm w (x :: e))) (x :: e)
              else x :: e) as [|y v]; simpl; [apply Z|].
    destruct (vector_store_up w (S (clock s))) eqn:Up; simpl; [|apply Z].
    eexists. split; [reflexivity|]. intros _. exists (x :: e).
    repeat split; auto. discriminate.
  - unfold complete_get_information_function, requests_post, json_embedding,
      aggregate, try_except, bind, tick, log.
    simpl.
    destruct (SERVERLESS_URL g) as [[|c u]|]; simpl; try apply Z.
    destruct (embedding_provider w (clock s) q) as [|status [e|]]; simpl;
      try (destruct (status =? 200)%Z; simpl; apply Z); try apply Z.
    destruct (status =? 200)%Z eqn:Es; simpl; [|apply Z].
    apply Z.eqb_eq in Es. subst status.
    destruct (vector_store_up w (S (clock s))) eqn:Up; simpl; [|apply Z].
    eexists. split; [reflexivity|]. intros _. exists e. auto.
Qed.

(** ** Reading back what was stored *)

Section SessionHistory.

Variable num : Type.
Variable g : Globals.
Variable w : World num.





Lemma filter_none (A : Type) (f : A -> bool) (l : list A) :
  Forall (fun x => f x = false) l -> filter f l = [].
Proof.
  induction 1 as [|x l H _ IH]; simpl; [reflexivity|]. now rewrite H, IH.
Qed.







End SessionHistory.





(** * The chat loop *)

Section ChatSessions.

Variable num : Type.
Variable g : Globals.
Variable w : World num.
Variable USE_REACT : bool.
Variable lower : pystr -> pystr.

(** ** Relations kept by a whole session *)

Section SessionFrames.

Variable R : State -> State -> Prop.
Hypothesis R_refl : forall s, R s s.
Hypothesis R_trans : forall a b c, R a b -> R b c -> R a c.
Hypothesis R_clear : steps R (clear_history g w).
Hypothesis R_history : steps R (retrieve_session_history g w (SESSION_ID g)).
Hypothesis R_react :
  USE_REACT = true -> forall q, steps R (generate_answer_react g w q []).
Hypothesis R_direct :
  USE_REACT = false -> forall q, steps R (generate_answer g w q DefaultImages).

Lemma chat_iteration_steps i : steps R (chat_iteration g w USE_REACT lower i).
Proof.
  assert (Ha : forall q,
             steps R (if USE_REACT
                      then bind (generate_answer_react g w q [])
                             (fun response => ret (Some response))
                      else generate_answer g w q DefaultImages)).
  { intros q. destruct USE_REACT.
    - apply (steps_bind R_trans); [now apply R_react|].
      intros a. apply (steps_ret R_refl).
    - now apply R_direct. }
  pose proof R_clear as Hc. pose proof R_history as Hh.
  unfold chat_iteration, show_status.
  destruct i; [|apply (steps_ret R_refl)..].
  steps_with R_refl R_trans.
Qed.

Lemma chat_loop_steps inputs : steps R (chat_loop g w USE_REACT lower inputs).
Proof.
  pose proof chat_iteration_steps as Hi.
  induction inputs as [|i rest IH]; simpl; steps_with R_refl R_trans.
Qed.

End SessionFrames.

(** ** How the loop reads its input *)



(** The loop on a console that gives [a] and then [b]: the loop on [a],
    and, unless it ended, the loop on [b] from where that stopped. *)
Lemma chat_loop_app a b :
  forall s,
    chat_loop g w USE_REACT lower (a ++ b) s
    = match chat_loop g w USE_REACT lower a s with
      | (Ok (printed, false), s1) =>
          match chat_loop g w USE_REACT lower b s1 with
          | (Ok (printed', ended), s2) => (Ok (printed ++ printed', ended), s2)
          | (Raise e, s2) => (Raise e, s2)
          end
      | r => r
      end.
Proof.
  induction a as [|i a IH]; intros s; simpl.
  - unfold ret.
    destruct (chat_loop g w USE_REACT lower b s) as [[[p e]|x] s2]; reflexivity.
  - unfold bind.
    destruct (chat_iteration g w USE_REACT lower i s) as [[[o c]|e] s1];
      [|reflexivity].
    simpl. destruct c; [|reflexivity]. rewrite IH.
    destruct (chat_loop g w USE_REACT lower a s1) as [[[p e]|x] s2];
      [|reflexivity].
    simpl. destruct e; [reflexivity|].
    destruct (chat_loop g w USE_REACT lower b s2) as [[[p' e']|x] s3];
      [|reflexivity].
    unfold ret. simpl. now rewrite app_assoc.
Qed.

Lemma chat_loop_end_of_file_reads n :
  forall s,
    chat_loop g w USE_REACT lower (repeat EOFError n) s
    = (Ok (repeat ChatError n, false), s).
Proof.
  induction n as [|n IH]; intros s; simpl; [reflexivity|].
  unfold bind. simpl. now rewrite IH.
Qed.

Lemma chat_loop_blank i rest s :
  blank i = true ->
  chat_loop g w USE_REACT lower (i :: rest) s
  = chat_loop g w USE_REACT lower rest s.
Proof.
  destruct i as [text| |]; simpl; try discriminate. intros B.
  unfold bind at 1. unfold try_except. rewrite B. simpl.
  unfold bind.
  destruct (chat_loop g w USE_REACT lower rest s) as [[[p e]|x] s2]; reflexivity.
Qed.

End ChatSessions.


(** X16. The end of the console's input does not end the chat loop: as
    long as the loop has not ended, every further read that raises
    [EOFError] prints the chat error and changes nothing, and the loop
    goes on to the next read. *)
Theorem chat_loop_end_of_file
    (num : Type) (g : Globals) (w : World num) (USE_REACT : bool)
    (lower : pystr -> pystr) (inputs : list Input) (n : nat) (s : State)
    (printed : list Output) :
  fst (chat_loop g w USE_REACT lower inputs s) = Ok (printed, false) ->
  chat_loop g w USE_REACT lower (inputs ++ repeat EOFError n) s
  = (Ok (printed ++ repeat ChatError n, false),
     snd (chat_loop g w USE_REACT lower inputs s)).
Proof.
  intros E. rewrite chat_loop_app.
  destruct (chat_loop g w USE_REACT lower inputs s) as [[[p e]|x] s1];
    simpl in E; [|discriminate].
  injection E as -> ->. now rewrite chat_loop_end_of_file_reads.
Qed.

Lemma chat_loop_end_of_file_witness :
  let inputs := [Line (py " Help "); Line (py "status")] in
  chat_loop Scenario.g_memory Scenario.w false Scenario.ascii_lower
    (inputs ++ repeat EOFError 3) (with_history Scenario.s0 Scenario.stored)
  = (Ok ([Help; Status (Some 2)] ++ repeat ChatError 3, false),
     snd (chat_loop Scenario.g_memory Scenario.w false Scenario.ascii_lower inputs
            (with_history Scenario.s0 Scenario.stored))).
Proof.
  intros inputs.
  apply (@chat_loop_end_of_file Q Scenario.g_memory Scenario.w false
           Scenario.ascii_lower inputs 3 (with_history Scenario.s0 Scenario.stored)).
  vm_compute. reflexivity.
Defined.

(** X17. Blank lines are skipped: a console that gives the same reads
    without the lines that hold only white space leads to the same
    output, the same remote calls and the same final state. *)
Theorem chat_loop_skips_blank_lines
    (num : Type) (g : Globals) (w : World num) (USE_REACT : bool)
    (lower : pystr -> pystr) (inputs : list Input) (s : State) :
  chat_loop g w USE_REACT lower (filter (fun i => negb (blank i)) inputs) s
  = chat_loop g w USE_REACT lower inputs s.
Proof.
  revert s. induction inputs as [|i rest IH]; intros s; [reflexivity|].
  simpl filter. destruct (blank i) eqn:B; simpl negb; cbv iota.
  - rewrite chat_loop_blank by exact B. apply IH.
  - simpl. unfold bind.
    destruct (chat_iteration g w USE_REACT lower i s) as [[[o c]|e] s1];
      [|reflexivity].
    simpl. destruct c; [|reflexivity]. now rewrite IH.
Qed.

(** ** What a whole session does to the History Store *)

Section SessionMemory.

Variable num : Type.
Variable g : Globals.
Variable w : World num.

Lemma other_sessions_kept_refl sid s : other_sessions_kept sid s s.
Proof. intros other _. reflexivity. Qed.

Lemma other_sessions_kept_trans sid a b c :
  other_sessions_kept sid a b -> other_sessions_kept sid b c ->
  other_sessions_kept sid a c.
Proof. intros H1 H2 other N. now rewrite (H2 other N), (H1 other N). Qed.

Lemma same_memory_other_sessions sid s s' :
  same_memory s s' -> other_sessions_kept sid s s'.
Proof. intros [H _] other _. now rewrite H. Qed.

Lemma appended_other_sessions sid s s' :
  history_appended sid s s' -> other_sessions_kept sid s s'.
Proof.
  intros (added & Ha & F) other N.
  rewrite Ha, filter_app, (@filter_none _ _ added).
  - apply app_nil_r.
  - revert F. apply Forall_impl. intros m <-. unfold in_session.
    destruct (PyStr.eqb (session_id m) other) eqn:E; [|reflexivity].
    apply pystr_eqb_eq in E. congruence.
Qed.

(** Whatever it reports, [clear_history] leaves the collection as it
    was or removes the messages of the current session from it. *)
Lemma clear_history_at_most_cleared :
  steps (at_most_cleared (SESSION_ID g)) (clear_history g w).
Proof.
  intros s. unfold clear_history.
  destruct (negb (USE_MEMORY g)); [now left|].
  unfold try_except, bind, tick. simpl.
  destruct (history_up w (clock s)); simpl; [now right | now left].
Qed.

Lemma at_most_cleared_other_sessions sid s s' :
  at_most_cleared sid s s' -> other_sessions_kept sid s s'.
Proof.
  intros [H|H] other N; rewrite H; [reflexivity|].
  now apply filter_other_session.
Qed.

Lemma at_most_cleared_refl sid s : at_most_cleared sid s s.
Proof. now left. Qed.

Lemma at_most_cleared_trans sid a b c :
  at_most_cleared sid a b -> at_most_cleared sid b c -> at_most_cleared sid a c.
Proof.
  assert (I : forall h : list ChatMessage,
             filter (fun m => negb (in_session sid m))
               (filter (fun m => negb (in_session sid m)) h)
             = filter (fun m => negb (in_session sid m)) h).
  { induction h as [|m h IH]; simpl; [reflexivity|].
    destruct (negb (in_session sid m)) eqn:E; simpl; [rewrite E|];
      now rewrite IH. }
  intros [H1|H1] [H2|H2]; unfold at_most_cleared; rewrite H2, H1; auto.
Qed.

Lemma same_memory_at_most_cleared sid s s' :
  same_memory s s' -> at_most_cleared sid s s'.
Proof. intros [H _]. now left. Qed.

Lemma generate_answer_react_same_memory q images :
  steps same_memory (generate_answer_react g w q images).
Proof.
  unfold generate_answer_react.
  pose proof (open_existing_same_memory w).
  pose proof (react_loop_same_memory g w).
  steps_with same_memory_refl same_memory_trans.
Qed.

Lemma same_history_refl s : same_history s s.
Proof. reflexivity. Qed.

Lemma same_history_trans a b c :
  same_history a b -> same_history b c -> same_history a c.
Proof. unfold same_history. congruence. Qed.

Lemma generate_answer_memory_off q images :
  USE_MEMORY g = false -> steps same_history (generate_answer g w q images).
Proof.
  intros M s. unfold same_history.
  pose proof (generate_answer_ignores w q images M s (history_collection s)) as I.
  replace (with_history s (history_collection s)) with s in I by now destruct s.
  rewrite I. reflexivity.
Qed.

Variable USE_REACT : bool.
Variable lower : pystr -> pystr.

Lemma chat_loop_other_sessions inputs :
  steps (other_sessions_kept (SESSION_ID g)) (chat_loop g w USE_REACT lower inputs).
Proof.
  apply chat_loop_steps.
  - apply other_sessions_kept_refl.
  - apply other_sessions_kept_trans.
  - intros s. apply at_most_cleared_other_sessions, clear_history_at_most_cleared.
  - intros s. apply same_memory_other_sessions,
      retrieve_session_history_same_memory.
  - intros _ q s. apply same_memory_other_sessions,
      generate_answer_react_same_memory.
  - intros _ q s. apply appended_other_sessions, generate_answer_appended.
Qed.

Lemma chat_loop_memory_off inputs :
  USE_MEMORY g = false ->
  steps same_history (chat_loop g w USE_REACT lower inputs).
Proof.
  intros M. apply chat_loop_steps.
  - apply same_history_refl.
  - apply same_history_trans.
  - intros s. unfold clear_history. now rewrite M.
  - intros s. apply retrieve_session_history_same_memory.
  - intros _ q s. apply generate_answer_react_same_memory.
  - intros _ q. now apply generate_answer_memory_off.
Qed.

Lemma chat_loop_react inputs :
  USE_REACT = true ->
  steps (at_most_cleared (SESSION_ID g)) (chat_loop g w USE_REACT lower inputs).
Proof.
  intros Hr. apply chat_loop_steps.
  - apply at_most_cleared_refl.
  - apply at_most_cleared_trans.
  - apply clear_history_at_most_cleared.
  - intros s. apply same_memory_at_most_cleared,
      retrieve_session_history_same_memory.
  - intros _ q s. apply same_memory_at_most_cleared,
      generate_answer_react_same_memory.
  - congruence.
Qed.

End SessionMemory.

(** A relation kept by the chat loop is kept by [main]. *)
Lemma main_steps (R : State -> State -> Prop)
    (num : Type) (w : World num) (sv : Services) (lower : pystr -> pystr)
    (url : option pystr) (argv : list pystr) (uuid4 : pystr)
    (inputs : list Input) :
  (forall s, R s s) ->
  (forall a b c, R a b -> R b c -> R a c) ->
  steps R (chat_loop (globals_of url argv uuid4) w
             (in_argv (py "--react") argv) lower inputs) ->
  steps R (main w sv lower url argv uuid4 inputs).
Proof.
  intros Hr Ht Hc. unfold main. steps_with Hr Ht.
Qed.

(** X18. A chat session never touches what other sessions have stored:
    whatever the command line, the services and the lines typed, the
    messages of every session other than the one [main] started are in
    the History Store afterwards as they were before. *)
Theorem main_keeps_other_sessions
    (num : Type) (w : World num) (sv : Services) (lower : pystr -> pystr)
    (url : option pystr) (argv : list pystr) (uuid4 : pystr)
    (inputs : list Input) (s : State) (other : pystr) :
  let s' := snd (main w sv lower url argv uuid4 inputs s) in
  other <> firstn 8 uuid4 ->
  filter (in_session other) (history_collection s')
  = filter (in_session other) (history_collection s).
Proof.
  intros s' N. subst s'.
  assert (H : steps (other_sessions_kept (firstn 8 uuid4))
                (main w sv lower url argv uuid4 inputs)).
  { apply main_steps.
    - apply other_sessions_kept_refl.
    - apply other_sessions_kept_trans.
    - apply (@chat_loop_other_sessions _ (globals_of url argv uuid4)). }
  exact (H s other N).
Qed.

Lemma main_keeps_other_sessions_witness :
  let s := with_history Scenario.s0 Scenario.stored in
  let s' := snd (main Scenario.w Scenario.services Scenario.ascii_lower
                   (Some (py "https://workshop.example/api"))
                   [py "chat_with_pdf.py"; py "--memory"]
                   (py "a1b2c3d4-0000-4000-8000-000000000000")
                   [Line Scenario.question; Line (py "clear")] s) in
  filter (in_session (py "ffff0000")) (history_collection s')
  = filter (in_session (py "ffff0000")) (history_collection s).
Proof.
  intros s s'.
  apply (@main_keeps_other_sessions Q Scenario.w Scenario.services
           Scenario.ascii_lower (Some (py "https://workshop.example/api"))
           [py "chat_with_pdf.py"; py "--memory"]
           (py "a1b2c3d4-0000-4000-8000-000000000000")
           [Line Scenario.question; Line (py "clear")] s (py "ffff0000")).
  vm_compute. discriminate.
Defined.

(** X19. Without [--memory] on the command line a chat session leaves
    the History Store as it is, in either mode and whatever is typed,
    [clear] included. *)
Theorem main_without_memory
    (num : Type) (w : World num) (sv : Services) (lower : pystr -> pystr)
    (url : option pystr) (argv : list pystr) (uuid4 : pystr)
    (inputs : list Input) (s : State) :
  in_argv (py "--memory") argv = false ->
  history_collection (snd (main w sv lower url argv uuid4 inputs s))
  = history_collection s.
Proof.
  intros M.
  assert (H : steps same_history (main w sv lower url argv uuid4 inputs)).
  { apply main_steps.
    - apply same_history_refl.
    - apply same_history_trans.
    - now apply (@chat_loop_memory_off _ (globals_of url argv uuid4)). }
  exact (H s).
Qed.

Lemma main_without_memory_witness :
  let s := with_history Scenario.s0 Scenario.stored in
  history_collection
    (snd (main Scenario.w Scenario.services Scenario.ascii_lower
            (Some (py "https://workshop.example/api"))
            [py "chat_with_pdf.py"; py "--react"]
            (py "a1b2c3d4-0000-4000-8000-000000000000")
            [Line Scenario.question; Line (py "CLEAR"); Line (py "quit")] s))
  = Scenario.stored.
Proof.
  intros s.
  apply (@main_without_memory Q Scenario.w Scenario.services
           Scenario.ascii_lower (Some (py "https://workshop.example/api"))
           [py "chat_with_pdf.py"; py "--react"]
           (py "a1b2c3d4-0000-4000-8000-000000000000")
           [Line Scenario.question; Line (py "CLEAR"); Line (py "quit")] s).
  reflexivity.
Defined.

(** X20. With [--react] on the command line a chat session stores
    nothing, also with [--memory]: afterwards the History Store is as it
    was, or has lost the messages of the session to a [clear], and holds
    no message that was not there before. *)
Theorem main_react_stores_nothing
    (num : Type) (w : World num) (sv : Services) (lower : pystr -> pystr)
    (url : option pystr) (argv : list pystr) (uuid4 : pystr)
    (inputs : list Input) (s : State) :
  let s' := snd (main w sv lower url argv uuid4 inputs s) in
  in_argv (py "--react") argv = true ->
  history_collection s' = history_collection s
  \/ history_collection s'
     = filter (fun m => negb (in_session (firstn 8 uuid4) m)) (history_collection s).
Proof.
  intros s' Hr. subst s'.
  assert (H : steps (at_most_cleared (firstn 8 uuid4))
                (main w sv lower url argv uuid4 inputs)).
  { apply main_steps.
    - apply at_most_cleared_refl.
    - apply at_most_cleared_trans.
    - now apply (@chat_loop_react _ (globals_of url argv uuid4)). }
  exact (H s).
Qed.

Lemma main_react_stores_nothing_witness :
  let s := with_history Scenario.s0 Scenario.stored in
  let s' := snd (main (Scenario.world Scenario.select_once Scenario.tool_then_answer)
                   Scenario.services Scenario.ascii_lower
                   (Some (py "https://workshop.example/api"))
                   [py "chat_with_pdf.py"; py "--memory"; py "--react"]
                   (py "a1b2c3d4-0000-4000-8000-000000000000")
                   [Line Scenario.question; Line (py "status")] s) in
  history_collection s' = history_collection s
  \/ history_collection s'
     = filter (fun m => negb (in_session (firstn 8 (py "a1b2c3d4-0000-4000-8000-000000000000")) m))
         (history_collection s).
Proof.
  intros s s'.
  apply (@main_react_stores_nothing Q
           (Scenario.world Scenario.select_once Scenario.tool_then_answer)
           Scenario.services Scenario.ascii_lower
           (Some (py "https://workshop.example/api"))
           [py "chat_with_pdf.py"; py "--memory"; py "--react"]
           (py "a1b2c3d4-0000-4000-8000-000000000000")
           [Line Scenario.question; Line (py "status")] s).
  reflexivity.
Defined.

(** ** The calls of a session *)

Section ChatBudget.

Variable num : Type.
Variable g : Globals.
Variable w : World num.
Variable USE_REACT : bool.
Variable lower : pystr -> pystr.

Lemma react_log_no_select sp it info evs out :
  react_log w sp it info evs out -> count_select evs = 0.
Proof.
  induction 1 as [it info L | it info r0 e L Hr | it info d b a L F
                 | it info d b a calls evs out L A F Fc Fk Hlog IH
                 | it info d b a calls e L A F Fc Xk
                 | it info d evs out L A T Hlog IH]; try reflexivity.
  - change (EvGenerate (sp ++ info) (LLMResponse (Some d))
            :: EvToolCall (PyStr.strip a) :: calls ++ evs)
      with ([EvGenerate (sp ++ info) (LLMResponse (Some d));
             EvToolCall (PyStr.strip a)] ++ calls ++ evs).
    assert (Hc : count_select calls = 0).
    { apply count_select_retrieval.
      eapply Forall_impl; [|exact Fc]. apply store_call_retrieval. }
    now rewrite !count_select_app, IH, Hc.
  - change (EvGenerate (sp ++ info) (LLMResponse (Some d))
            :: EvToolCall (PyStr.strip a) :: calls)
      with ([EvGenerate (sp ++ info) (LLMResponse (Some d));
             EvToolCall (PyStr.strip a)] ++ calls).
    rewrite count_select_app. apply count_select_retrieval.
    eapply Forall_impl; [|exact Fc]. apply store_call_retrieval.
  - change (EvGenerate (sp ++ info) (LLMResponse (Some d)) :: evs)
      with ([EvGenerate (sp ++ info) (LLMResponse (Some d))] ++ evs).
    now rewrite count_select_app, IH.
Qed.

(** The calls of one answer: at most three generation calls and no
    tool selection in ReAct mode, one tool selection and at most one
    generation call in direct mode. *)
Lemma answer_budget q s :
  exists response s1 evs,
    (if USE_REACT
     then bind (generate_answer_react g w q [])
            (fun response => ret (Some response))
     else generate_answer g w q DefaultImages) s = (Ok response, s1)
    /\ trace s1 = trace s ++ evs
    /\ count_generate evs <= (if USE_REACT then 3 else 1)
    /\ count_select evs = (if USE_REACT then 0 else 1).
Proof.
  destruct USE_REACT.
  - unfold bind.
    destruct (generate_answer_react_run g w q [] s) as (answer & _ & R & _).
    destruct (generate_answer_react_log g w q [] s)
      as [(S & _ & e & E) | (info & evs & out & _ & T & L & _)].
    { discriminate. }
    destruct (generate_answer_react_run g w q [] s)
      as (answer' & evs' & _ & T' & C & _).
    rewrite T in T'. apply app_inv_head in T'. subst evs'.
    destruct (generate_answer_react g w q [] s) as [o s1]. simpl in *. subst o.
    exists (Some answer), s1, evs. repeat split; auto.
    exact (react_log_no_select L).
  - destruct (generate_answer_run g w q DefaultImages s)
      as (answer & s' & csel & rsel & retr & E & F & _ &
          [(T & _) | (cgen & rgen & T & _)]).
    + exists answer, s', (EvSelectTool csel rsel :: retr). repeat split; auto.
      * change (EvSelectTool csel rsel :: retr) with ([EvSelectTool csel rsel] ++ retr).
        rewrite count_generate_app, (count_generate_retrieval F).
        unfold count_generate. simpl. lia.
      * change (EvSelectTool csel rsel :: retr) with ([EvSelectTool csel rsel] ++ retr).
        now rewrite count_select_app, (count_select_retrieval F).
    + exists answer, s', (EvSelectTool csel rsel :: retr ++ [EvGenerate cgen rgen]).
      repeat split; auto.
      * change (EvSelectTool csel rsel :: retr ++ [EvGenerate cgen rgen])
          with ([EvSelectTool csel rsel] ++ retr ++ [EvGenerate cgen rgen]).
        rewrite !count_generate_app, (count_generate_retrieval F).
        unfold count_generate. simpl. lia.
      * change (EvSelectTool csel rsel :: retr ++ [EvGenerate cgen rgen])
          with ([EvSelectTool csel rsel] ++ retr ++ [EvGenerate cgen rgen]).
        now rewrite !count_select_app, (count_select_retrieval F).
Qed.

Lemma clear_history_trace s :
  exists report s1, clear_history g w s = (Ok report, s1) /\ trace s1 = trace s.
Proof.
  unfold clear_history. destruct (negb (USE_MEMORY g)).
  - eexists _, _. split; reflexivity.
  - unfold try_except, bind, tick. simpl.
    destruct (history_up w (clock s)); simpl; eexists _, _; split; reflexivity.
Qed.

Lemma show_status_trace s :
  exists n s1, show_status g w s = (Ok n, s1) /\ trace s1 = trace s.
Proof.
  unfold show_status. destruct (USE_MEMORY g).
  - unfold bind.
    destruct (run_silent (retrieve_session_history_emits g w (SESSION_ID g))
                (retrieve_session_history_returns g w (SESSION_ID g)) s)
      as (h & s1 & E & T).
    rewrite E. eexists _, _. split; [reflexivity | exact T].
  - eexists _, _. split; reflexivity.
Qed.

Lemma chat_iteration_budget i s :
  exists o c s1 evs,
    chat_iteration g w USE_REACT lower i s = (Ok (o, c), s1)
    /\ trace s1 = trace s ++ evs
    /\ count_answers (printed_by o) <= count_questions lower [i]
    /\ count_generate evs
       <= (if USE_REACT then 3 else 1) * count_answers (printed_by o)
    /\ count_select evs
       = (if USE_REACT then 0 else count_answers (printed_by o)).
Proof.
  assert (Z : forall (o : option Output) (c : bool),
              count_answers (printed_by o) = 0 ->
              exists o' c' s1 evs,
                (@Ok (option Output * bool) (o, c), s) = (Ok (o', c'), s1)
                /\ trace s1 = trace s ++ evs
                /\ count_answers (printed_by o') <= count_questions lower [i]
                /\ count_generate evs
                   <= (if USE_REACT then 3 else 1) * count_answers (printed_by o')
                /\ count_select evs
                   = (if USE_REACT then 0 else count_answers (printed_by o'))).
  { intros o c Ho. exists o, c, s, []. rewrite app_nil_r, Ho.
    repeat split; [apply Nat.le_0_l | apply Nat.le_0_l |].
    now destruct USE_REACT. }
  destruct i as [text| |]; [|now apply Z..].
  unfold chat_iteration, try_except.
  destruct (negb (PyStr.truthy (PyStr.strip text))) eqn:E1; [now apply Z|].
  destruct (existsb _ _) eqn:E2; [now apply Z|].
  destruct (PyStr.eqb _ (py "help")) eqn:E3; [now apply Z|].
  destruct (PyStr.eqb _ (py "clear")) eqn:E4.
  { unfold bind. destruct (clear_history_trace s) as (r & s1 & E & T).
    rewrite E. exists (Some (ClearOutput r)), true, s1, [].
    rewrite app_nil_r. repeat split; auto; [apply Nat.le_0_l..|].
    now destruct USE_REACT. }
  destruct (PyStr.eqb _ (py "status")) eqn:E5.
  { unfold bind. destruct (show_status_trace s) as (r & s1 & E & T).
    rewrite E. exists (Some (Status r)), true, s1, [].
    rewrite app_nil_r. repeat split; auto; [apply Nat.le_0_l..|].
    now destruct USE_REACT. }
  unfold bind at 1.
  destruct (answer_budget (PyStr.strip text) s) as (r & s1 & evs & E & T & G & S).
  rewrite E. exists (Some (Answer r)), true, s1, evs.
  change (count_answers (printed_by (Some (Answer r)))) with 1.
  rewrite Nat.mul_1_r. repeat split; auto.
  unfold count_questions, filter, is_question.
  apply negb_false_iff in E1. rewrite E1, E2, E3, E4, E5. apply Nat.le_refl.
Qed.

Lemma count_questions_cons i rest :
  count_questions lower (i :: rest)
  = count_questions lower [i] + count_questions lower rest.
Proof.
  unfold count_questions. simpl. now destruct (is_question lower i).
Qed.

Lemma count_answers_app a b :
  count_answers (a ++ b) = count_answers a + count_answers b.
Proof. unfold count_answers. now rewrite filter_app, length_app. Qed.

Lemma chat_loop_budget inputs :
  forall s,
  exists printed ended s1 evs,
    chat_loop g w USE_REACT lower inputs s = (Ok (printed, ended), s1)
    /\ trace s1 = trace s ++ evs
    /\ count_answers printed <= count_questions lower inputs
    /\ count_generate evs <= (if USE_REACT then 3 else 1) * count_answers printed
    /\ count_select evs = (if USE_REACT then 0 else count_answers printed).
Proof.
  induction inputs as [|i rest IH]; intros s.
  - exists [], false, s, []. rewrite app_nil_r. repeat split.
    + apply Nat.le_0_l.
    + apply Nat.le_0_l.
    + now destruct USE_REACT.
  - rewrite count_questions_cons. simpl. unfold bind at 1.
    destruct (chat_iteration_budget i s) as (o & c & s1 & evs & E & T & Q & G & S).
    rewrite E. simpl. fold (printed_by o). destruct c.
    + unfold bind.
      destruct (IH s1) as (printed & ended & s2 & evs' & E' & T' & Q' & G' & S').
      rewrite E'. simpl.
      exists (printed_by o ++ printed), ended, s2, (evs ++ evs').
      split; [reflexivity|]. split; [now rewrite T', T, app_assoc|].
      rewrite count_generate_app, count_select_app, count_answers_app.
      split; [lia|]. split; [lia|]. destruct USE_REACT; lia.
    + exists (printed_by o), true, s1, evs. repeat split; auto. lia.
Qed.

End ChatBudget.

(** X22. A chat session calls the LLM Provider only to answer the
    questions it reads, the lines that are neither blank nor a command,
    and within a budget. In direct mode the log of the loop holds at
    most one tool-selection call for every question read, at least one
    for every answer printed, and no more generation calls than
    tool-selection calls; in ReAct mode it holds no tool-selection call
    and at most three generation calls for every question read. No more
    answers are printed than questions are read. *)
Theorem chat_loop_call_budget
    (num : Type) (g : Globals) (w : World num) (USE_REACT : bool)
    (lower : pystr -> pystr) (inputs : list Input) (s : State) :
  let run := chat_loop g w USE_REACT lower inputs s in
  let evs := turn_events s (snd run) in
  exists printed ended,
    fst run = Ok (printed, ended)
    /\ count_answers printed <= count_questions lower inputs
    /\ if USE_REACT
       then count_select evs = 0
            /\ count_generate evs <= 3 * count_questions lower inputs
       else count_answers printed <= count_select evs
            /\ count_select evs <= count_questions lower inputs
            /\ count_generate evs <= count_select evs.
Proof.
  intros run evs. subst evs run.
  destruct (chat_loop_budget g w USE_REACT lower inputs s)
    as (printed & ended & s1 & evs & E & T & Q & G & S).
  rewrite E. simpl. rewrite (turn_events_app T). exists printed, ended.
  split; [reflexivity|]. split; [exact Q|].
  destruct USE_REACT; lia.
Qed.

(** ** Start-up *)

Lemma find_api_key_endpoint url sv k :
  k <> [] -> url_truthy url = true ->
  get_api_key sv = KeyResponded 200 (Some k) ->
  find_api_key url sv = Some k.
Proof.
  intros N U K. unfold find_api_key. rewrite U, K. simpl.
  destruct k; [contradiction | reflexivity].
Qed.

Lemma find_api_key_cases url sv :
  (exists k, k <> [] /\ url_truthy url = true
             /\ get_api_key sv = KeyResponded 200 (Some k)
             /\ find_api_key url sv = Some k)
  \/ ((forall k, k <> [] ->
         ~ (url_truthy url = true /\ get_api_key sv = KeyResponded 200 (Some k)))
      /\ find_api_key url sv = GOOGLE_API_KEY sv).
Proof.
  unfold find_api_key.
  destruct (url_truthy url) eqn:U.
  2:{ right. split; [|reflexivity]. intros k _ [H _]. discriminate. }
  destruct (get_api_key sv) as [|status key] eqn:K.
  { right. split; [|reflexivity]. intros k _ [_ H]. discriminate. }
  destruct (status =? 200)%Z eqn:Es.
  2:{ right. split; [|reflexivity]. intros k _ [_ H]. injection H as -> _.
      discriminate. }
  apply Z.eqb_eq in Es. subst status.
  destruct key as [[|c k]|]; simpl.
  - right. split; [|reflexivity]. intros k N [_ H]. injection H as <-.
    contradiction.
  - left. exists (c :: k). repeat split; auto. discriminate.
  - right. split; [|reflexivity]. intros k _ [_ H]. discriminate.
Qed.

(** X23. [initialize_connections] succeeds exactly when the MongoDB
    server answers the ping with [ok] equal to 1, the collection holds a
    document, a non-empty Gemini key is found and the client is created
    with it; the key is the one the endpoint returned with status 200
    when [SERVERLESS_URL] is set, and the one of the environment only
    when the endpoint gave no usable key. *)
Theorem initialize_connections_ready
    (url : option pystr) (sv : Services) (doc_count : nat) (api_key : pystr) :
  initialize_connections url sv = Ready doc_count api_key
  <-> (exists ok, ping sv = Some (Some ok) /\ (ok == 1)%Q)
      /\ count_documents sv = Some doc_count
      /\ doc_count <> 0
      /\ api_key <> []
      /\ genai sv api_key = GenaiClient
      /\ ((url_truthy url = true
           /\ get_api_key sv = KeyResponded 200 (Some api_key))
          \/ (GOOGLE_API_KEY sv = Some api_key
              /\ forall k, k <> [] ->
                   ~ (url_truthy url = true
                      /\ get_api_key sv = KeyResponded 200 (Some k)))).
Proof.
  unfold initialize_connections. split.
  - destruct (ping sv) as [[ok|]|]; try discriminate.
    destruct (Qeq_bool ok 1) eqn:Eo; simpl; [|discriminate].
    apply Qeq_bool_iff in Eo.
    destruct (count_documents sv) as [n|]; [|discriminate].
    destruct (n =? 0) eqn:En; [discriminate|]. apply Nat.eqb_neq in En.
    destruct (find_api_key_cases url sv) as [(k & N & U & K & F) | (No & F)].
    + rewrite F. destruct k as [|c k]; [contradiction|]. simpl.
      destruct (genai sv (c :: k)) eqn:G; try discriminate.
      intros [= <- <-]. repeat split; eauto; discriminate.
    + rewrite F. destruct (GOOGLE_API_KEY sv) as [[|c k]|]; try discriminate.
      simpl. destruct (genai sv (c :: k)) eqn:G; try discriminate.
      intros [= <- <-]. repeat split; eauto; discriminate.
  - intros ((ok & P & Eo) & C & N & Nk & G & Key).
    rewrite P, C. apply Qeq_bool_iff in Eo. rewrite Eo. simpl.
    apply Nat.eqb_neq in N. rewrite N.
    assert (F : find_api_key url sv = Some api_key).
    { destruct Key as [[U K] | [E No]].
      - now apply find_api_key_endpoint.
      - destruct (find_api_key_cases url sv) as [(k & N' & U & K & _) | (_ & F)].
        + destruct (No k N'). auto.
        + now rewrite F. }
    rewrite F. destruct api_key as [|c k]; [contradiction|]. simpl.
    now rewrite G.
Qed.

(** * The extraction pipeline *)

Section ExtractionFacts.

Import Extraction.

Variable num : Type.
Variable g : Globals.
Variable w : World num.
Variable r : Remote num.

(** ** File names *)

Lemma py_inj (a b : string) : py a = py b -> a = b.
Proof.
  unfold py. intros H.
  assert (L : list_ascii_of_string a = list_ascii_of_string b).
  { revert H. generalize (list_ascii_of_string a), (list_ascii_of_string b).
    induction l as [|x l IH]; intros [|y l'] H; simpl in H; try discriminate.
    - reflexivity.
    - injection H as Hx Hl. f_equal; [|now apply IH].
      rewrite <- (ascii_N_embedding x), <- (ascii_N_embedding y). now rewrite Hx. }
  rewrite <- (string_of_list_ascii_of_string a),
    <- (string_of_list_ascii_of_string b).
  now rewrite L.
Qed.

Lemma str_of_nat_inj n m : str_of_nat n = str_of_nat m -> n = m.
Proof.
  unfold str_of_nat. intros H. apply py_inj in H.
  apply Unsigned.to_uint_inj.
  pose proof (NilEmpty.usu (Nat.to_uint n)) as A.
  pose proof (NilEmpty.usu (Nat.to_uint m)) as B.
  rewrite H in A. congruence.
Qed.

Lemma image_key_inj n m : image_key n = image_key m -> n = m.
Proof.
  unfold image_key. intros H.
  apply app_inv_head in H. apply app_inv_head in H. apply app_inv_tail in H.
  apply str_of_nat_inj in H. lia.
Qed.

Lemma image_keys_NoDup n k : NoDup (map image_key (seq n k)).
Proof.
  revert n. induction k as [|k IH]; intros n; simpl; constructor.
  - intros H. apply in_map_iff in H as (m & E & Hm).
    apply image_key_inj in E. apply in_seq in Hm. lia.
  - apply IH.
Qed.

(** ** Extraction *)

Lemma extract_pages_docs pages :
  forall n files docs files',
    extract_pages num pages n files = (Some docs, files') ->
    map (@page_number num) docs = seq (n + 1) (List.length pages)
    /\ map (@key num) docs = map image_key (seq n (List.length pages))
    /\ files' = files ++ map (@key num) docs.
Proof.
  induction pages as [|p rest IH]; intros n files docs files'; simpl.
  - intros [= <- <-]. now rewrite app_nil_r.
  - destruct (pixmap p) as [[pw ph]|]; [|discriminate].
    destruct (save_ok p); [|discriminate].
    destruct (extract_pages num rest (S n) (files ++ [image_key n]))
      as [[ds|] fs] eqn:E; [|discriminate].
    intros [= <- <-]. destruct (IH _ _ _ _ E) as (P & K & F). simpl.
    rewrite P, F, K. replace (S n + 1) with (S (n + 1)) by lia.
    repeat split. now rewrite <- app_assoc.
Qed.

(** ** Embedding *)

Lemma generate_embedding_time data input_type l :
  let run := generate_embedding g w r data input_type l in
  now l <= now (snd run) <= S (now l)
  /\ stored (snd run) = stored l
  /\ search_indexes (snd run) = search_indexes l
  /\ written (snd run) = written l.
Proof.
  unfold generate_embedding.
  destruct (VOYAGEAI_AVAILABLE r && str_truthy (VOYAGE_API_KEY r)).
  { destruct (voyage r (now l) data input_type) as [[|e es]|]; simpl;
      repeat split; lia. }
  destruct (url_truthy (SERVERLESS_URL g)); [|simpl; repeat split; lia].
  destruct (serverless r (now l) data input_type) as [|status [e|]];
    try destruct (negb (status =? 200)%Z); simpl; repeat split; lia.
Qed.

Lemma embed_doc_from doc l :
  let run := embed_doc g w r doc l in
  embedded_from [doc] (fst run)
  /\ now l <= now (snd run) <= S (now l)
  /\ stored (snd run) = stored l
  /\ search_indexes (snd run) = search_indexes l
  /\ written (snd run) = written l.
Proof.
  unfold embed_doc.
  destruct (path_exists w (key doc) && image_readable w (key doc)).
  2:{ simpl. repeat split; try lia. apply embedded_skip, embedded_nil. }
  pose proof (generate_embedding_time (ImageData (key doc)) (py "document") l) as T.
  cbv zeta in T.
  destruct (generate_embedding g w r (ImageData (key doc)) (py "document") l)
    as [[[|x e]|] l']; simpl in *; (split; [|exact T]).
  - apply embedded_skip, embedded_nil.
  - apply embedded_keep; [discriminate | apply embedded_nil].
  - apply embedded_skip, embedded_nil.
Qed.

Lemma embedded_from_app (a b x y : list (PageDoc num)) :
  embedded_from a x -> embedded_from b y -> embedded_from (a ++ b) (x ++ y).
Proof.
  induction 1 as [|doc docs out _ IH|doc e docs out Ne _ IH]; intros Hb; simpl.
  - exact Hb.
  - apply embedded_skip. now apply IH.
  - apply embedded_keep; [exact Ne | now apply IH].
Qed.

Lemma embed_batch_from batch :
  forall l,
    let run := embed_batch g w r batch l in
    embedded_from batch (fst run)
    /\ now l <= now (snd run) <= now l + List.length batch
    /\ stored (snd run) = stored l
    /\ search_indexes (snd run) = search_indexes l
    /\ written (snd run) = written l.
Proof.
  induction batch as [|doc rest IH]; intros l; simpl.
  - repeat split; try lia. constructor.
  - destruct (embed_doc_from doc l) as (F1 & T1 & S1 & I1 & W1).
    destruct (IH (snd (embed_doc g w r doc l))) as (F2 & T2 & S2 & I2 & W2).
    cbv zeta in *. split.
    + exact (embedded_from_app F1 F2).
    + repeat split; try lia; congruence.
Qed.

Lemma embed_batch_app a b l :
  embed_batch g w r (a ++ b) l
  = (fst (embed_batch g w r a l)
     ++ fst (embed_batch g w r b (snd (embed_batch g w r a l))),
     snd (embed_batch g w r b (snd (embed_batch g w r a l)))).
Proof.
  revert l. induction a as [|doc a IH]; intros l; simpl.
  - now destruct (embed_batch g w r b l).
  - rewrite IH. simpl. now rewrite app_assoc.
Qed.

(** The batches are the list, cut in tens: the outer loop does what the
    inner loop does on the whole list. *)
Lemma batches_from docs fuel :
  forall i acc l,
    List.length docs - i <= fuel ->
    fold_left
      (fun acc i =>
         (fst acc ++ fst (embed_batch g w r (firstn batch_size (skipn i docs)) (snd acc)),
          snd (embed_batch g w r (firstn batch_size (skipn i docs)) (snd acc))))
      (range_from fuel i (List.length docs) batch_size) (acc, l)
    = (acc ++ fst (embed_batch g w r (skipn i docs) l),
       snd (embed_batch g w r (skipn i docs) l)).
Proof.
  induction fuel as [|fuel IH]; intros i acc l Hf.
  - cbn [range_from fold_left]. rewrite skipn_all2 by lia.
    cbn [embed_batch fst snd]. now rewrite app_nil_r.
  - cbn [range_from]. destruct (i <? List.length docs) eqn:Hi.
    + cbn [fold_left fst snd]. rewrite IH by (unfold batch_size; lia).
      assert (E : skipn i docs
                  = firstn batch_size (skipn i docs) ++ skipn (i + batch_size) docs).
      { rewrite <- (firstn_skipn batch_size (skipn i docs)) at 1. f_equal.
        rewrite skipn_skipn. f_equal. lia. }
      set (a := firstn batch_size (skipn i docs)) in *.
      set (b := skipn (i + batch_size) docs) in *.
      rewrite E, embed_batch_app. cbn [fst snd]. now rewrite app_assoc.
    + apply Nat.ltb_ge in Hi. cbn [fold_left]. rewrite skipn_all2 by lia.
      cbn [embed_batch fst snd]. now rewrite app_nil_r.
Qed.

Lemma generate_embeddings_for_docs_one_batch docs l :
  generate_embeddings_for_docs g w r docs l = embed_batch g w r docs l.
Proof.
  unfold generate_embeddings_for_docs, range_step. cbv zeta.
  rewrite (@batches_from docs (List.length docs) 0 [] l) by lia.
  cbn [skipn app]. now destruct (embed_batch g w r docs l).
Qed.

(** What the pass of the inner loop over one document appends, and the
    time it leaves. *)
Lemma embed_doc_request doc l :
  let opens := path_exists w (key doc) && image_readable w (key doc) in
  let request := generate_embedding g w r (ImageData (key doc)) (py "document") l in
  embed_doc g w r doc l
  = (if opens
     then match fst request with
          | Some ((_ :: _) as e) => [set_embedding doc e]
          | _ => []
          end
     else [],
     if opens then snd request else l).
Proof.
  unfold embed_doc.
  destruct (path_exists w (key doc) && image_readable w (key doc)); [|reflexivity].
  cbv zeta.
  now destruct (generate_embedding g w r (ImageData (key doc)) (py "document") l)
    as [[[|x e]|] l'].
Qed.

Lemma embedded_from_embedding (docs out : list (PageDoc num)) :
  embedded_from docs out ->
  Forall (fun d : PageDoc num => exists e, embedding d = Some e /\ e <> []) out.
Proof.
  induction 1; auto. constructor; [|assumption]. now exists e.
Qed.

End ExtractionFacts.

Section ExtractionSteps.

Import Extraction.

Variable num : Type.
Variable g : Globals.
Variable w : World num.
Variable r : Remote num.

Lemma download_and_extract_pdf_frame l :
  let run := download_and_extract_pdf r l in
  stored (snd run) = stored l /\ search_indexes (snd run) = search_indexes l.
Proof.
  unfold download_and_extract_pdf.
  destruct (negb (mkdir_ok r)); [now split|].
  destruct (requests_get r (now l)) as [|status [pages|]];
    try destruct (negb (status =? 200)%Z); now split.
Qed.

Lemma ingest_data_to_mongodb_cases embedded_docs l :
  let run := ingest_data_to_mongodb r embedded_docs l in
  search_indexes (snd run) = search_indexes l
  /\ (if mongo_up r (now l)
      then exists k, stored (snd run) = firstn k embedded_docs
      else stored (snd run) = stored l)
  /\ (0 < fst run ->
      stored (snd run) = embedded_docs /\ fst run = List.length embedded_docs).
Proof.
  unfold ingest_data_to_mongodb.
  destruct (mongo_up r (now l)); simpl.
  2:{ split; [reflexivity|]. split; [reflexivity | lia]. }
  destruct embedded_docs as [|d ds]; simpl.
  { split; [reflexivity|]. split; [now exists 0 | lia]. }
  destruct (mongo_up r (S (now l))); simpl.
  2:{ split; [reflexivity|]. split; [now exists 0 | lia]. }
  destruct (insert_many_stops r (S (now l))) as [k|]; simpl.
  { split; [reflexivity|]. split; [now exists k | lia]. }
  assert (A : exists k, d :: ds = firstn k (d :: ds)).
  { exists (S (List.length ds)). simpl. now rewrite firstn_all. }
  destruct (mongo_up r (S (S (now l)))); simpl.
  - split; [reflexivity|]. split; [exact A | now split].
  - split; [reflexivity|]. split; [exact A | lia].
Qed.

Lemma create_vector_index_cases l :
  let run := create_vector_index r l in
  stored (snd run) = stored l
  /\ (search_indexes (snd run) = search_indexes l
      \/ (existsb (fun idx_name => PyStr.eqb idx_name VS_INDEX_NAME)
            (search_indexes l) = false
          /\ fst run = true
          /\ search_indexes (snd run) = search_indexes l ++ [VS_INDEX_NAME]))
  /\ (fst run = true ->
      existsb (fun idx_name => PyStr.eqb idx_name VS_INDEX_NAME)
        (search_indexes (snd run)) = true).
Proof.
  unfold create_vector_index.
  destruct (mongo_up r (now l)); simpl.
  2:{ split; [reflexivity|]. split; [now left | discriminate]. }
  destruct (existsb _ (search_indexes l)) eqn:E; simpl.
  { split; [reflexivity|]. split; [now left | now rewrite E]. }
  destruct (mongo_up r (S (now l))); simpl.
  - split; [reflexivity|]. split; [now right|]. intros _.
    rewrite existsb_app. simpl. apply orb_true_iff. right. reflexivity.
  - split; [reflexivity|]. split; [now left | discriminate].
Qed.

End ExtractionSteps.

(** X24. When [download_and_extract_pdf] returns documents, they are
    the pages of the downloaded PDF, all of them and in order: numbered
    from 1, each with the image file [data/images/<number>.png], no two
    with the same file, and these are the files the call wrote. *)
Theorem download_and_extract_pdf_pages
    (num : Type) (r : Extraction.Remote num) (l l' : Extraction.Lab num)
    (docs : list (Extraction.PageDoc num)) :
  Extraction.download_and_extract_pdf r l = (Some docs, l') ->
  docs <> [] ->
  exists pages,
    Extraction.requests_get r (Extraction.now l)
    = Extraction.GetResponse 200 (Some pages)
    /\ map (@Extraction.page_number num) docs = seq 1 (List.length pages)
    /\ map (@Extraction.key num) docs
       = map (fun n => Extraction.IMAGES_DIR ++ py "/"
                       ++ Extraction.str_of_nat n ++ py ".png")
           (seq 1 (List.length pages))
    /\ NoDup (map (@Extraction.key num) docs)
    /\ Extraction.written l'
       = Extraction.written l ++ map (@Extraction.key num) docs.
Proof.
  unfold Extraction.download_and_extract_pdf.
  destruct (negb (Extraction.mkdir_ok r)); [discriminate|].
  destruct (Extraction.requests_get r (Extraction.now l)) as [|status [pages|]].
  - intros [= <- _] N. contradiction.
  - destruct (status =? 200)%Z eqn:Es; simpl.
    2:{ intros [= <- _] N. contradiction. }
    apply Z.eqb_eq in Es. subst status.
    destruct (Extraction.extract_pages num pages 0 (Extraction.written l))
      as [[ds|] fs] eqn:E; simpl.
    2:{ intros [= <- _] N. contradiction. }
    intros [= <- <-] N. exists pages.
    destruct (extract_pages_docs E) as (P & K & F). simpl in P.
    split; [reflexivity|]. split; [exact P|]. split; [|split].
    + rewrite K, <- seq_shift, map_map. apply map_ext. intros n.
      unfold Extraction.image_key. now rewrite Nat.add_1_r.
    + rewrite K. apply image_keys_NoDup.
    + exact F.
  - destruct (negb (status =? 200)%Z); intros [= <- _] N; contradiction.
Qed.

Lemma download_and_extract_pdf_pages_witness :
  let page := {| Extraction.pixmap := Some (1836, 2376)%Z;
                 Extraction.save_ok := true |} in
  let r := {| Extraction.mkdir_ok := true;
              Extraction.requests_get :=
                fun _ => Extraction.GetResponse 200 (Some [page; page; page]);
              Extraction.VOYAGEAI_AVAILABLE := false;
              Extraction.VOYAGE_API_KEY := None;
              Extraction.voyage := fun _ _ _ => None;
              Extraction.serverless :=
                fun _ _ _ => HttpResponse 200 (Some [3; 4]%Q);
              Extraction.random_embedding := [];
              Extraction.mongo_up := fun _ => true;
              Extraction.insert_many_stops := fun _ => None |} in
  let l := {| Extraction.now := 0; Extraction.stored := [];
              Extraction.search_indexes := []; Extraction.written := [] |} in
  map (@Extraction.key Q)
    (match fst (Extraction.download_and_extract_pdf r l) with
     | Some docs => docs
     | None => []
     end)
  = [py "data/images/1.png"; py "data/images/2.png"; py "data/images/3.png"].
Proof.
  intros page r l.
  destruct (@download_and_extract_pdf_pages Q r l
              (snd (Extraction.download_and_extract_pdf r l))
              (match fst (Extraction.download_and_extract_pdf r l) with
               | Some docs => docs
               | None => []
               end))
    as (pages & G & _ & K & _).
  - vm_compute. reflexivity.
  - vm_compute. discriminate.
  - injection G as <-. rewrite K. vm_compute. reflexivity.
Defined.

(** X25. [generate_embeddings_for_docs] returns documents of its input,
    in the input's order, each with a non-empty embedding set and
    nothing else changed, and it treats every document on its own: at
    whatever place [doc] stands in the input, between the documents [a]
    and the documents [b], the result is the result for [a], then [doc]
    with its embedding where its image opens and the embedding request
    made then returns a non-empty embedding, and nothing otherwise,
    then the result for [b] from the time that leaves. So a document
    whose image does not open or whose embedding fails is left out
    without stopping the others. The call makes at most one embedding
    request per document and changes neither the collection nor its
    indexes. *)
Theorem generate_embeddings_for_docs_embedded
    (num : Type) (g : Globals) (w : World num) (r : Extraction.Remote num)
    (docs : list (Extraction.PageDoc num)) (l : Extraction.Lab num) :
  let run := Extraction.generate_embeddings_for_docs g w r docs l in
  Extraction.embedded_from docs (fst run)
  /\ Extraction.now l <= Extraction.now (snd run) <= Extraction.now l + List.length docs
  /\ Extraction.stored (snd run) = Extraction.stored l
  /\ Extraction.search_indexes (snd run) = Extraction.search_indexes l
  /\ forall a doc b, docs = a ++ doc :: b ->
       let before := Extraction.generate_embeddings_for_docs g w r a l in
       let opens := path_exists w (Extraction.key doc)
                    && image_readable w (Extraction.key doc) in
       let request :=
         Extraction.generate_embedding g w r
           (Extraction.ImageData (Extraction.key doc)) (py "document")
           (snd before) in
       let mine :=
         if opens
         then match fst request with
              | Some ((_ :: _) as e) => [Extraction.set_embedding doc e]
              | _ => []
              end
         else [] in
       let after :=
         Extraction.generate_embeddings_for_docs g w r b
           (if opens then snd request else snd before) in
       fst run = fst before ++ mine ++ fst after
       /\ snd run = snd after.
Proof.
  cbv zeta. rewrite generate_embeddings_for_docs_one_batch.
  destruct (embed_batch_from g w r docs l) as (F & T & S & I & _).
  do 4 (split; [assumption|]).
  intros a doc b ->.
  rewrite !generate_embeddings_for_docs_one_batch, embed_batch_app.
  cbn [Extraction.embed_batch fst snd].
  rewrite embed_doc_request. cbn [fst snd]. split; reflexivity.
Qed.

Lemma generate_embeddings_for_docs_embedded_witness :
  let r := {| Extraction.mkdir_ok := true;
              Extraction.requests_get := fun _ => Extraction.GetRaises;
              Extraction.VOYAGEAI_AVAILABLE := false;
              Extraction.VOYAGE_API_KEY := None;
              Extraction.voyage := fun _ _ _ => None;
              Extraction.serverless :=
                fun t _ _ => if t =? 0 then HttpResponse 500 None
                             else HttpResponse 200 (Some [3; 4]%Q);
              Extraction.random_embedding := [];
              Extraction.mongo_up := fun _ => true;
              Extraction.insert_many_stops := fun _ => None |} in
  let page n := {| Extraction.key := Extraction.image_key n;
                   Extraction.width := 1836%Z; Extraction.height := 2376%Z;
                   Extraction.page_number := n + 1;
                   Extraction.embedding := @None (list Q) |} in
  let l := {| Extraction.now := 0; Extraction.stored := [];
              Extraction.search_indexes := []; Extraction.written := [] |} in
  let run := Extraction.generate_embeddings_for_docs Scenario.g Scenario.w r
               [page 0; page 1; page 2] l in
  map (@Extraction.key Q) (fst run)
  = [py "data/images/2.png"; py "data/images/3.png"]
  /\ Extraction.now (snd run) = 3.
Proof.
  intros r page l run.
  destruct (@generate_embeddings_for_docs_embedded Q Scenario.g Scenario.w r
              [page 0; page 1; page 2] l) as (_ & _ & _ & _ & H).
  destruct (H [] (page 0) [page 1; page 2] eq_refl) as [E1 E2].
  subst run. rewrite E1, E2. split; vm_compute; reflexivity.
Defined.

(** X26. [ingest_data_to_mongodb] replaces, it never merges: once its
    [delete_many] went through, the collection holds documents of the
    given list only (a prefix of it; none where the list is empty), and
    a positive return value means the collection holds exactly the given
    documents and is their number. When [delete_many] raises the
    collection stays as it was. The search indexes are not touched. *)
Theorem ingest_data_to_mongodb_replaces
    (num : Type) (r : Extraction.Remote num)
    (embedded_docs : list (Extraction.PageDoc num)) (l : Extraction.Lab num) :
  let run := Extraction.ingest_data_to_mongodb r embedded_docs l in
  (if Extraction.mongo_up r (Extraction.now l)
   then exists k, Extraction.stored (snd run) = firstn k embedded_docs
   else Extraction.stored (snd run) = Extraction.stored l)
  /\ (0 < fst run ->
      Extraction.stored (snd run) = embedded_docs
      /\ fst run = List.length embedded_docs)
  /\ Extraction.search_indexes (snd run) = Extraction.search_indexes l.
Proof.
  destruct (ingest_data_to_mongodb_cases r embedded_docs l) as (I & S & P).
  cbv zeta. auto.
Qed.

(** X27. [create_vector_index] creates the index at most once: a call
    leaves the search indexes as they were or adds the one index named
    [vector_index_voyageai], and adds it only where no index of that name
    was listed; after a call that returned [True] the index is there,
    and a further call creates nothing. The documents are not
    touched. *)
Theorem create_vector_index_once
    (num : Type) (r : Extraction.Remote num) (l : Extraction.Lab num) :
  let run := Extraction.create_vector_index r l in
  let listed := existsb (fun idx_name => PyStr.eqb idx_name VS_INDEX_NAME) in
  (Extraction.search_indexes (snd run) = Extraction.search_indexes l
   \/ (listed (Extraction.search_indexes l) = false
       /\ Extraction.search_indexes (snd run)
          = Extraction.search_indexes l ++ [VS_INDEX_NAME]))
  /\ (fst run = true ->
      listed (Extraction.search_indexes (snd run)) = true
      /\ Extraction.search_indexes
           (snd (Extraction.create_vector_index r (snd run)))
         = Extraction.search_indexes (snd run))
  /\ Extraction.stored (snd run) = Extraction.stored l.
Proof.
  cbv zeta.
  destruct (create_vector_index_cases r l) as (S & C & T).
  split; [|split; [|exact S]].
  - destruct C as [C | (N & _ & C)]; auto.
  - intros Ht. specialize (T Ht). split; [exact T|].
    destruct (create_vector_index_cases r (snd (Extraction.create_vector_index r l)))
      as (_ & [C' | (N' & _)] & _); [exact C'|].
    cbv zeta in N'. congruence.
Qed.

(** X28. The extraction step creates the search index only over a
    freshly ingested collection: if the step ends with search indexes
    other than those it started with, the collection is not empty and
    every document in it carries a non-empty embedding. *)
Theorem extraction_step_index_after_ingest
    (num : Type) (g : Globals) (w : World num) (r : Extraction.Remote num)
    (EXTRACT_DATA SKIP_EXISTING : bool) (l l' : Extraction.Lab num) :
  Extraction.extraction_step g w r EXTRACT_DATA SKIP_EXISTING l = Some l' ->
  Extraction.search_indexes l' <> Extraction.search_indexes l ->
  Extraction.stored l' <> []
  /\ Forall (fun d : Extraction.PageDoc num =>
               exists e, Extraction.embedding d = Some e /\ e <> [])
       (Extraction.stored l').
Proof.
  unfold Extraction.extraction_step.
  destruct EXTRACT_DATA; simpl; [|intros [= <-] N; contradiction].
  set (checked := if SKIP_EXISTING then _ else _).
  assert (C : forall b l1, checked = Some (b, l1) ->
                           Extraction.search_indexes l1 = Extraction.search_indexes l).
  { subst checked. intros b l1. destruct SKIP_EXISTING.
    - destruct (Extraction.mongo_up r (Extraction.now l)); [|discriminate].
      now intros [= _ <-].
    - now intros [= _ <-]. }
  destruct checked as [[[|] l1]|]; [| |discriminate].
  { intros [= <-] N. destruct N. exact (C _ _ eq_refl). }
  specialize (C _ _ eq_refl).
  pose proof (download_and_extract_pdf_frame r l1) as [_ D]. cbv zeta in D.
  destruct (Extraction.download_and_extract_pdf r l1) as [[[|doc docs]|] l2];
    simpl in D; [| |discriminate].
  { intros [= <-] N. destruct N. congruence. }
  pose proof (generate_embeddings_for_docs_one_batch g w r (doc :: docs) l2) as B.
  destruct (embed_batch_from g w r (doc :: docs) l2) as (F & _ & _ & I & _).
  rewrite <- B in F, I. cbv zeta in F, I.
  destruct (Extraction.generate_embeddings_for_docs g w r (doc :: docs) l2)
    as [[|e es] l3]; simpl in F, I.
  { intros [= <-] N. destruct N. congruence. }
  destruct (ingest_data_to_mongodb_cases r (e :: es) l3) as (I4 & _ & P).
  cbv zeta in I4, P.
  destruct (Extraction.ingest_data_to_mongodb r (e :: es) l3) as [n l4];
    simpl in I4, P |- *.
  destruct (0 <? n) eqn:Hn.
  - apply Nat.ltb_lt in Hn. destruct (P Hn) as [St _].
    destruct (create_vector_index_cases r l4) as (S5 & _ & _). cbv zeta in S5.
    intros [= <-] _. rewrite S5, St. split; [discriminate|].
    exact (embedded_from_embedding F).
  - intros [= <-] N. destruct N. congruence.
Qed.

Lemma extraction_step_index_after_ingest_witness :
  let page := {| Extraction.pixmap := Some (1836, 2376)%Z;
                 Extraction.save_ok := true |} in
  let r := {| Extraction.mkdir_ok := true;
              Extraction.requests_get :=
                fun _ => Extraction.GetResponse 200 (Some [page; page]);
              Extraction.VOYAGEAI_AVAILABLE := false;
              Extraction.VOYAGE_API_KEY := None;
              Extraction.voyage := fun _ _ _ => None;
              Extraction.serverless :=
                fun t _ _ => if t =? 1 then HttpResponse 500 None
                             else HttpResponse 200 (Some [3; 4]%Q);
              Extraction.random_embedding := [];
              Extraction.mongo_up := fun _ => true;
              Extraction.insert_many_stops := fun _ => None |} in
  let l := {| Extraction.now := 0; Extraction.stored := [];
              Extraction.search_indexes := []; Extraction.written := [] |} in
  exists l',
    Extraction.extraction_step Scenario.g Scenario.w r true false l = Some l'
    /\ map (@Extraction.key Q) (Extraction.stored l') = [py "data/images/2.png"]
    /\ Forall (fun d : Extraction.PageDoc Q =>
                 exists e, Extraction.embedding d = Some e /\ e <> [])
         (Extraction.stored l').
Proof.
  intros page r l.
  exists (match Extraction.extraction_step Scenario.g Scenario.w r true false l with
          | Some l' => l'
          | None => l
          end).
  split; [vm_compute; reflexivity|]. split; [vm_compute; reflexivity|].
  apply (@extraction_step_index_after_ingest Q Scenario.g Scenario.w r
           true false l).
  - vm_compute. reflexivity.
  - vm_compute. discriminate.
Defined.
